(** * Mini-XML attribute store and node accessors (goodix gt9886 test_core)

    A shallow embedding of [mxml-attr.c] (the per-element attribute store)
    and of the node "get" functions, over an explicit memory state: heap
    blocks live in finite maps, an allocator that may fail on request, and
    the diagnostics handed to the error callback are logged. *)

From Stdlib Require Import ZArith Ascii String.
From stdpp Require Import base option list gmap strings.

Local Open Scope string_scope.
Local Open Scope list_scope.
Local Open Scope Z_scope.

(** ** Machine integers, strings, pointers *)

Definition INT_MAX : Z := 2147483647.

(** A [char *] that points to a NUL-terminated buffer is represented by the
    [string] of the bytes before the terminator.  [strcmp] and [strncmp]
    come from libc; only the sign of their result is specified. *)
Definition sign_of (c : comparison) : Z :=
  match c with Eq => 0 | Lt => -1 | Gt => 1 end.

Definition strcmp (s1 s2 : string) : Z := sign_of (String.compare s1 s2).

Definition strncmp (s1 s2 : string) (n : nat) : Z :=
  strcmp (substring 0 n s1) (substring 0 n s2).

Definition addr := positive.

Inductive ptr := NULL | Addr (a : addr).

Arguments Addr a%_positive.

#[global] Instance ptr_eq_dec : EqDecision ptr.
Proof. solve_decision. Defined.

(** The C truth value of a pointer. *)
Definition nonnull (p : ptr) : bool :=
  match p with NULL => false | Addr _ => true end.

(** ** Data model *)

(** Modelled from the spec: [mxml.h] is not part of the sources at hand; the
    closed enumeration of type tags is the one the spec lists. *)
Inductive mxml_type_t :=
  | MXML_IGNORE | MXML_ELEMENT | MXML_INTEGER | MXML_OPAQUE | MXML_TEXT
  | MXML_CUSTOM.

#[global] Instance mxml_type_eq_dec : EqDecision mxml_type_t.
Proof. solve_decision. Defined.

(** A memory word that holds a pointer, or was never written. *)
Inductive cell := Undef | Val (p : ptr).

(** [mxml_attr_t]: one name/value slot of the backing array. *)
Record mxml_attr_t := Attr { attr_name : cell; attr_value : cell }.

(** Modelled from the spec: the members of [mxml_node_t] and of its value
    union, as the data model of the spec gives them and as the sources
    access them ([node->value.element.num_attrs], [node->child], ...). *)
Record mxml_element_t := Element {
  elem_name : string;
  num_attrs : Z;
  attrs : ptr
}.

Record mxml_text_t := Text { whitespace : Z; text_string : string }.

Record mxml_custom_t := Custom { data : ptr }.

Inductive mxml_value_t :=
  | V_element (e : mxml_element_t)
  | V_integer (i : Z)
  | V_opaque (s : string)
  | V_text (t : mxml_text_t)
  | V_custom (c : mxml_custom_t)
  | V_ignore.

Record mxml_node_t := Node {
  value : mxml_value_t;
  next : ptr;
  prev : ptr;
  parent : ptr;
  child : ptr;
  last_child : ptr;
  user_data : ptr
}.

(** [node->type]: the tag of the union. *)
Definition type (n : mxml_node_t) : mxml_type_t :=
  match value n with
  | V_element _ => MXML_ELEMENT
  | V_integer _ => MXML_INTEGER
  | V_opaque _ => MXML_OPAQUE
  | V_text _ => MXML_TEXT
  | V_custom _ => MXML_CUSTOM
  | V_ignore => MXML_IGNORE
  end.

(** Reading a member of the union; reading the wrong member is a fault. *)
Definition value_element (n : mxml_node_t) : option mxml_element_t :=
  match value n with V_element e => Some e | _ => None end.
Definition value_integer (n : mxml_node_t) : option Z :=
  match value n with V_integer i => Some i | _ => None end.
Definition value_opaque (n : mxml_node_t) : option string :=
  match value n with V_opaque s => Some s | _ => None end.
Definition value_text (n : mxml_node_t) : option mxml_text_t :=
  match value n with V_text t => Some t | _ => None end.
Definition value_custom (n : mxml_node_t) : option mxml_custom_t :=
  match value n with V_custom c => Some c | _ => None end.

(** ** Memory state *)

Record state := State {
  nodes : gmap addr mxml_node_t;        (* live nodes *)
  strs : gmap addr string;              (* live character buffers *)
  arrs : gmap addr (list mxml_attr_t);  (* live arrays of mxml_attr_t *)
  used : gset addr;                     (* addresses handed out so far *)
  plan : list bool;                     (* outcome of the next allocation
                                           requests; none left: success *)
  sink : list string                    (* messages given to the error
                                           callback, oldest first *)
}.

(** Dereferencing a node pointer; [None] is a fault. *)
Definition load_node (σ : state) (p : ptr) : option mxml_node_t :=
  match p with NULL => None | Addr a => nodes σ !! a end.

(** An out-parameter [T *out]: [None] when the caller passed a null
    pointer, otherwise the present content of the caller's variable.
    [set_out out v] is the statement [if (out) *out = v;]. *)
Definition set_out {A} (out : option A) (v : A) : option A :=
  match out with None => None | Some _ => Some v end.

(** [s + n] for a [char *s]: the buffer from its [n]-th byte on; a fault
    when that is beyond the terminator. *)
Fixpoint str_plus (s : string) (n : nat) : option string :=
  match n, s with
  | O, _ => Some s
  | S n', String _ r => str_plus r n'
  | S _, EmptyString => None
  end.

(** ** Node accessors

    Each getter takes the memory state and the node pointer; the outer
    [option] is [None] when the C code would dereference an invalid
    pointer.  A returned [const char *] is given by its content, [None]
    being the null pointer. *)

Module Get.

Definition mxmlGetCDATA (σ : state) (node : ptr) : option (option string) :=
  if negb (nonnull node) then Some None else
  n ← load_node σ node;
  if negb (bool_decide (type n = MXML_ELEMENT)) then Some None else
  e ← value_element n;
  if negb (strncmp (elem_name e) "![CDATA[" 8 =? 0) then Some None else
  (* Return the text following the CDATA declaration... *)
  r ← str_plus (elem_name e) 8; Some (Some r).

Definition mxmlGetCustom (σ : state) (node : ptr) : option ptr :=
  if negb (nonnull node) then Some NULL else
  n ← load_node σ node;
  if bool_decide (type n = MXML_CUSTOM) then data <$> value_custom n
  else if bool_decide (type n = MXML_ELEMENT) && nonnull (child n) then
    c ← load_node σ (child n);
    if bool_decide (type c = MXML_CUSTOM) then data <$> value_custom c
    else Some NULL
  else Some NULL.

Definition mxmlGetElement (σ : state) (node : ptr) : option (option string) :=
  if negb (nonnull node) then Some None else
  n ← load_node σ node;
  if negb (bool_decide (type n = MXML_ELEMENT)) then Some None else
  e ← value_element n; Some (Some (elem_name e)).

Definition mxmlGetFirstChild (σ : state) (node : ptr) : option ptr :=
  if negb (nonnull node) then Some NULL else
  n ← load_node σ node;
  if negb (bool_decide (type n = MXML_ELEMENT)) then Some NULL else
  Some (child n).

Definition mxmlGetInteger (σ : state) (node : ptr) : option Z :=
  if negb (nonnull node) then Some 0 else
  n ← load_node σ node;
  if bool_decide (type n = MXML_INTEGER) then value_integer n
  else if bool_decide (type n = MXML_ELEMENT) && nonnull (child n) then
    c ← load_node σ (child n);
    if bool_decide (type c = MXML_INTEGER) then value_integer c
    else Some 0
  else Some 0.

Definition mxmlGetLastChild (σ : state) (node : ptr) : option ptr :=
  if negb (nonnull node) then Some NULL else
  n ← load_node σ node;
  if negb (bool_decide (type n = MXML_ELEMENT)) then Some NULL else
  Some (last_child n).

Definition mxmlGetNextSibling (σ : state) (node : ptr) : option ptr :=
  if negb (nonnull node) then Some NULL else
  n ← load_node σ node; Some (next n).

Definition mxmlGetOpaque (σ : state) (node : ptr) : option (option string) :=
  if negb (nonnull node) then Some None else
  n ← load_node σ node;
  if bool_decide (type n = MXML_OPAQUE) then Some <$> value_opaque n
  else if bool_decide (type n = MXML_ELEMENT) && nonnull (child n) then
    c ← load_node σ (child n);
    if bool_decide (type c = MXML_OPAQUE) then Some <$> value_opaque c
    else Some None
  else Some None.

Definition mxmlGetParent (σ : state) (node : ptr) : option ptr :=
  if negb (nonnull node) then Some NULL else
  n ← load_node σ node; Some (parent n).

Definition mxmlGetPrevSibling (σ : state) (node : ptr) : option ptr :=
  if negb (nonnull node) then Some NULL else
  n ← load_node σ node; Some (prev n).

(** The second component of the result is the caller's [whitespace]
    variable after the call. *)
Definition mxmlGetText (σ : state) (node : ptr) (whitespace_out : option Z)
  : option (option string * option Z) :=
  if negb (nonnull node) then Some (None, set_out whitespace_out 0) else
  n ← load_node σ node;
  if bool_decide (type n = MXML_TEXT) then
    t ← value_text n;
    Some (Some (text_string t), set_out whitespace_out (whitespace t))
  else if bool_decide (type n = MXML_ELEMENT) && nonnull (child n) then
    c ← load_node σ (child n);
    if bool_decide (type c = MXML_TEXT) then
      t ← value_text c;
      Some (Some (text_string t), set_out whitespace_out (whitespace t))
    else Some (None, set_out whitespace_out 0)
  else Some (None, set_out whitespace_out 0).

Definition mxmlGetType (σ : state) (node : ptr) : option mxml_type_t :=
  if negb (nonnull node) then Some MXML_IGNORE else
  n ← load_node σ node; Some (type n).

Definition mxmlGetUserData (σ : state) (node : ptr) : option ptr :=
  if negb (nonnull node) then Some NULL else
  n ← load_node σ node; Some (user_data n).

End Get.

(** ** A state-and-fault monad for the mutating code *)

Definition M (A : Type) : Type := state → option (A * state).

Definition ret {A} (a : A) : M A := λ σ, Some (a, σ).

Definition bind {A B} (m : M A) (k : A → M B) : M B :=
  λ σ, match m σ with Some (a, σ') => k a σ' | None => None end.

Definition fault {A} : M A := λ _, None.

Definition lift {A} (o : option A) : M A :=
  λ σ, match o with Some a => Some (a, σ) | None => None end.

Notation "'let*' x ':=' m 'in' k" := (bind m (λ x, k))
  (at level 10, x pattern, m at level 100, k at level 200, only parsing).
Notation "m ;; k" := (bind m (λ _, k))
  (at level 100, k at level 200, right associativity, only parsing).

(** ** Heap primitives: [malloc], [realloc], [strdup], [free], loads, stores *)

Definition fresh_addr (σ : state) : addr :=
  fresh (used σ ∪ dom (nodes σ) ∪ dom (strs σ) ∪ dom (arrs σ)).

(** Ask the allocator; the answer is the head of the plan. *)
Definition alloc_request : M bool := λ σ,
  match plan σ with
  | [] => Some (true, σ)
  | b :: rest =>
      Some (b, State (nodes σ) (strs σ) (arrs σ) (used σ) rest (sink σ))
  end.

Definition new_str (s : string) : M ptr := λ σ,
  let a := fresh_addr σ in
  Some (Addr a, State (nodes σ) (<[a:=s]> (strs σ)) (arrs σ)
                      ({[a]} ∪ used σ) (plan σ) (sink σ)).

Definition new_attrs (blk : list mxml_attr_t) : M ptr := λ σ,
  let a := fresh_addr σ in
  Some (Addr a, State (nodes σ) (strs σ) (<[a:=blk]> (arrs σ))
                      ({[a]} ∪ used σ) (plan σ) (sink σ)).

Definition strdup (s : string) : M ptr :=
  let* ok := alloc_request in
  if ok : bool then new_str s else ret NULL.

Definition uninit : mxml_attr_t := Attr Undef Undef.

(** [malloc(n * sizeof(mxml_attr_t))] *)
Definition malloc_attrs (n : nat) : M ptr :=
  let* ok := alloc_request in
  if ok : bool then new_attrs (replicate n uninit) else ret NULL.

Definition drop_attrs (a : addr) : M unit := λ σ,
  Some (tt, State (nodes σ) (strs σ) (delete a (arrs σ)) (used σ) (plan σ)
                  (sink σ)).

(** [realloc(p, n * sizeof(mxml_attr_t))]: on success the old block is gone
    and the new one starts with the old content; on failure the old block
    is untouched. *)
Definition realloc_attrs (p : ptr) (n : nat) : M ptr :=
  match p with
  | NULL => malloc_attrs n
  | Addr a =>
      let* blk := (λ σ, lift (arrs σ !! a) σ) in
      let* ok := alloc_request in
      if ok : bool then drop_attrs a ;; new_attrs (resize n uninit blk)
      else ret NULL
  end.

Definition free_str (p : ptr) : M unit := λ σ,
  match p with
  | NULL => Some (tt, σ)
  | Addr a =>
      match strs σ !! a with
      | Some _ => Some (tt, State (nodes σ) (delete a (strs σ)) (arrs σ)
                                  (used σ) (plan σ) (sink σ))
      | None => None
      end
  end.

Definition free_attrs (p : ptr) : M unit := λ σ,
  match p with
  | NULL => Some (tt, σ)
  | Addr a =>
      match arrs σ !! a with
      | Some _ => drop_attrs a σ
      | None => None
      end
  end.

(** Reading a pointer out of a memory word. *)
Definition read_cell (c : cell) : M ptr :=
  match c with Undef => fault | Val p => ret p end.

(** The bytes a [char *] points to. *)
Definition load_str (p : ptr) : M string := λ σ,
  match p with NULL => None | Addr a => lift (strs σ !! a) σ end.

(** [base[off]] for [mxml_attr_t *base]. *)
Definition load_attr (base : ptr) (off : nat) : M mxml_attr_t := λ σ,
  match base with
  | NULL => None
  | Addr a => lift (blk ← arrs σ !! a; blk !! off) σ
  end.

(** [base[off].name = c] and [base[off].value = c]. *)
Definition store_attr (base : ptr) (off : nat)
    (f : mxml_attr_t → mxml_attr_t) : M unit := λ σ,
  match base with
  | NULL => None
  | Addr a =>
      match arrs σ !! a with
      | Some blk =>
          match blk !! off with
          | Some s =>
              Some (tt, State (nodes σ) (strs σ)
                              (<[a:=<[off:=f s]> blk]> (arrs σ))
                              (used σ) (plan σ) (sink σ))
          | None => None
          end
      | None => None
      end
  end.

Definition set_attr_name (c : cell) (s : mxml_attr_t) : mxml_attr_t :=
  Attr c (attr_value s).
Definition set_attr_value (c : cell) (s : mxml_attr_t) : mxml_attr_t :=
  Attr (attr_name s) c.

(** [memmove(base + dst, base + src, cnt * sizeof(mxml_attr_t))] *)
Definition memmove_attrs (base : ptr) (dst src cnt : nat) : M unit := λ σ,
  match base with
  | NULL => None
  | Addr a =>
      match arrs σ !! a with
      | Some blk =>
          if bool_decide (src + cnt ≤ length blk ∧ dst + cnt ≤ length blk)%nat
          then
            let blk' :=
              take dst blk ++ take cnt (drop src blk)
                ++ drop (dst + cnt) blk in
            Some (tt, State (nodes σ) (strs σ) (<[a:=blk']> (arrs σ))
                            (used σ) (plan σ) (sink σ))
          else None
      | None => None
      end
  end.

(** [*node] *)
Definition deref_node (node : ptr) : M mxml_node_t :=
  λ σ, lift (load_node σ node) σ.

(** [node->value.element] *)
Definition load_element (node : ptr) : M mxml_element_t :=
  let* n := deref_node node in lift (value_element n).

(** The node with its value member replaced, links untouched. *)
Definition with_value (v : mxml_value_t) (n : mxml_node_t) : mxml_node_t :=
  Node v (next n) (prev n) (parent n) (child n) (last_child n) (user_data n).

(** A store to a member of [node->value.element]. *)
Definition store_element (node : ptr)
    (f : mxml_element_t → mxml_element_t) : M unit := λ σ,
  match node with
  | NULL => None
  | Addr a =>
      match nodes σ !! a with
      | Some n =>
          match value n with
          | V_element e =>
              Some (tt, State (<[a:=with_value (V_element (f e)) n]> (nodes σ))
                              (strs σ) (arrs σ) (used σ) (plan σ) (sink σ))
          | _ => None
          end
      | None => None
      end
  end.

Definition set_attrs (p : ptr) (e : mxml_element_t) : mxml_element_t :=
  Element (elem_name e) (num_attrs e) p.
Definition set_num_attrs (k : Z) (e : mxml_element_t) : mxml_element_t :=
  Element (elem_name e) k (attrs e).

(** [int] addition; signed overflow is a fault. *)
Definition int_add (x y : Z) : M Z :=
  if bool_decide (- INT_MAX - 1 ≤ x + y ≤ INT_MAX) then ret (x + y) else fault.

(** Modelled from the spec: [mxml_error] lives outside the sources at hand;
    it hands the formatted diagnostic to the error sink. *)
Definition mxml_error (msg : string) : M unit := λ σ,
  Some (tt, State (nodes σ) (strs σ) (arrs σ) (used σ) (plan σ)
                  (sink σ ++ [msg])).

(** ["Unable to allocate memory for attribute '%s' in element %s!"] *)
Definition alloc_failure_msg (name ename : string) : string :=
  "Unable to allocate memory for attribute '" +:+ name +:+
  "' in element " +:+ ename +:+ "!".

(** ** The attribute store ([mxml-attr.c]) *)

(** The loop shared by the three functions that look an attribute up,
      for (i = num_attrs, attr = attrs; i > 0; i--, attr++)
        if (!strcmp(attr->name, name)) { ... return ...; }
    run up to its first hit: the result is the pair ([i], offset of [attr])
    at that hit, or [None] when the loop runs to its end. *)
Fixpoint find_attr (base : ptr) (name : string) (i off : nat)
  : M (option (nat * nat)) :=
  match i with
  | O => ret None
  | S i' =>
      let* a := load_attr base off in
      let* p := read_cell (attr_name a) in
      let* s := load_str p in
      if strcmp s name =? 0 then ret (Some (i, off))
      else find_attr base name i' (S off)
  end.

Definition mxmlElementDeleteAttr (node : ptr) (name : option string)
  : M unit :=
  (* Range check input *)
  if negb (nonnull node) then ret tt else
  let* n := deref_node node in
  if negb (bool_decide (type n = MXML_ELEMENT)) then ret tt else
  match name with
  | None => ret tt
  | Some name =>
      (* Look for the attribute *)
      let* e := load_element node in
      let* hit := find_attr (attrs e) name (Z.to_nat (num_attrs e)) 0 in
      match hit with
      | None => ret tt
      | Some (i, off) =>
          (* Delete this attribute... *)
          let* a := load_attr (attrs e) off in
          let* pn := read_cell (attr_name a) in
          free_str pn ;;
          let* pv := read_cell (attr_value a) in
          free_str pv ;;
          let i := Nat.pred i in
          (if (0 <? i)%nat then memmove_attrs (attrs e) off (S off) i
           else ret tt) ;;
          store_element node (λ e, set_num_attrs (num_attrs e - 1) e) ;;
          let* e := load_element node in
          if num_attrs e =? 0 then free_attrs (attrs e) else ret tt
      end
  end.

Definition mxmlElementGetAttr (node : ptr) (name : option string) : M ptr :=
  (* Range check input... *)
  if negb (nonnull node) then ret NULL else
  let* n := deref_node node in
  if negb (bool_decide (type n = MXML_ELEMENT)) then ret NULL else
  match name with
  | None => ret NULL
  | Some name =>
      (* Look for the attribute... *)
      let* e := load_element node in
      let* hit := find_attr (attrs e) name (Z.to_nat (num_attrs e)) 0 in
      match hit with
      | Some (_, off) =>
          let* a := load_attr (attrs e) off in read_cell (attr_value a)
      | None =>
          (* Didn't find attribute, so return NULL... *)
          ret NULL
      end
  end.

(** The second component of the result is the caller's [name] variable
    after the call. *)
Definition mxmlElementGetAttrByIndex (node : ptr) (idx : Z)
    (name_out : option ptr) : M (ptr * option ptr) :=
  if negb (nonnull node) then ret (NULL, name_out) else
  let* n := deref_node node in
  if negb (bool_decide (type n = MXML_ELEMENT)) then ret (NULL, name_out) else
  if idx <? 0 then ret (NULL, name_out) else
  let* e := load_element node in
  if idx >=? num_attrs e then ret (NULL, name_out) else
  let* a := load_attr (attrs e) (Z.to_nat idx) in
  let* name_out :=
    match name_out with
    | Some _ => let* p := read_cell (attr_name a) in ret (Some p)
    | None => ret None
    end in
  let* v := read_cell (attr_value a) in
  ret (v, name_out).

Definition mxmlElementGetAttrCount (node : ptr) : M Z :=
  if nonnull node then
    let* n := deref_node node in
    if bool_decide (type n = MXML_ELEMENT) then
      let* e := load_element node in ret (num_attrs e)
    else ret 0
  else ret 0.

(** O - 0 on success, -1 on failure *)
Definition mxml_set_attr (node : ptr) (name : string) (value : ptr) : M Z :=
  (* Look for the attribute... *)
  let* e := load_element node in
  let* hit := find_attr (attrs e) name (Z.to_nat (num_attrs e)) 0 in
  match hit with
  | Some (_, off) =>
      (* Free the old value as needed... *)
      let* a := load_attr (attrs e) off in
      let* old := read_cell (attr_value a) in
      (if nonnull old then free_str old else ret tt) ;;
      store_attr (attrs e) off (set_attr_value (Val value)) ;;
      ret 0
  | None =>
      (* Add a new attribute... *)
      let* attr :=
        if num_attrs e =? 0 then malloc_attrs 1
        else
          let* n1 := int_add (num_attrs e) 1 in
          realloc_attrs (attrs e) (Z.to_nat n1) in
      if negb (nonnull attr) then
        mxml_error (alloc_failure_msg name (elem_name e)) ;;
        ret (-1)
      else
        store_element node (set_attrs attr) ;;
        let off := Z.to_nat (num_attrs e) in
        let* copy := strdup name in
        store_attr attr off (set_attr_name (Val copy)) ;;
        if negb (nonnull copy) then
          mxml_error (alloc_failure_msg name (elem_name e)) ;;
          ret (-1)
        else
          store_attr attr off (set_attr_value (Val value)) ;;
          let* n1 := int_add (num_attrs e) 1 in
          store_element node (set_num_attrs n1) ;;
          ret 0
  end.

Definition mxmlElementSetAttr (node : ptr) (name value : option string)
  : M unit :=
  (* Range check input... *)
  if negb (nonnull node) then ret tt else
  let* n := deref_node node in
  if negb (bool_decide (type n = MXML_ELEMENT)) then ret tt else
  match name with
  | None => ret tt
  | Some name =>
      let* valuec :=
        match value with
        | Some value => strdup value
        | None => ret NULL
        end in
      let* r := mxml_set_attr node name valuec in
      if negb (r =? 0) then free_str valuec else ret tt
  end.

Section Formatted.

(** Modelled from the spec: the string-formatting collaborator
    [_mxml_vstrdupf] is outside the sources at hand.  It renders the format
    with its arguments ([vformat], the text [vsnprintf] produces) into a
    freshly allocated string, or yields no string. *)
Context {va_list : Type} (vformat : string → va_list → string).

Definition _mxml_vstrdupf (format : string) (ap : va_list) : M ptr :=
  strdup (vformat format ap).

Definition mxmlElementSetAttrf (node : ptr) (name format : option string)
    (ap : va_list) : M unit :=
  (* Range check input... *)
  if negb (nonnull node) then ret tt else
  let* n := deref_node node in
  if negb (bool_decide (type n = MXML_ELEMENT)) then ret tt else
  match name, format with
  | Some name, Some format =>
      (* Format the value... *)
      let* value := _mxml_vstrdupf format ap in
      if negb (nonnull value) then
        let* e := load_element node in
        mxml_error (alloc_failure_msg name (elem_name e))
      else
        let* r := mxml_set_attr node name value in
        if negb (r =? 0) then free_str value else ret tt
  | _, _ => ret tt
  end.

End Formatted.

(** ** What a caller can observe of the store *)

(** The content behind a returned [const char *]. *)
Definition str_at (σ : state) (p : ptr) : option (option string) :=
  match p with NULL => Some None | Addr a => Some <$> strs σ !! a end.

(** [getAttributeCount] *)
Definition attr_count (σ : state) (node : ptr) : option Z :=
  fst <$> mxmlElementGetAttrCount node σ.

(** [getAttributeByIndex]: the entry it yields, name and value by content;
    [None] when it yields no name. *)
Definition attr_at (σ : state) (node : ptr) (idx : Z)
  : option (string * option string) :=
  '(v, nm, _) ← mxmlElementGetAttrByIndex node idx (Some NULL) σ;
  match nm with
  | Some (Addr a) => n ← strs σ !! a; v ← str_at σ v; Some (n, v)
  | _ => None
  end.

(** [getAttribute], by content. *)
Definition attr_get (σ : state) (node : ptr) (name : option string)
  : option (option string) :=
  '(v, _) ← mxmlElementGetAttr node name σ; str_at σ v.

(** The whole sequence, read through count and index. *)
Definition attributes (σ : state) (node : ptr)
  : option (list (string * option string)) :=
  c ← attr_count σ node;
  mapM (λ k, attr_at σ node (Z.of_nat k)) (seq 0 (Z.to_nat c)).

(** ** Representation invariant of one element's store

    The first [num_attrs] slots of the backing array are initialised; each
    holds a live name buffer and a value that is null or a live buffer; no
    buffer is referenced twice.  [cl] lists these slots by address. *)

(** The slot that holds the name buffer [c.1] and the value pointer
    [c.2]. *)
Definition slot_of (c : addr * ptr) : mxml_attr_t :=
  Attr (Val (Addr c.1)) (Val c.2).

(** The buffers the slots refer to. *)
Definition ptr_addrs (p : ptr) : list addr :=
  match p with NULL => [] | Addr a => [a] end.

Definition owned (cl : list (addr * ptr)) : list addr :=
  c ← cl; c.1 :: ptr_addrs c.2.

Record attr_store (σ : state) (e : mxml_element_t) (cl : list (addr * ptr))
  : Prop := AttrStore {
  as_count : num_attrs e = Z.of_nat (length cl);
  as_block : cl ≠ [] → ∃ a blk,
      attrs e = Addr a ∧ arrs σ !! a = Some blk ∧
      ∀ j c, cl !! j = Some c → blk !! j = Some (slot_of c);
  as_nodup : NoDup (owned cl);
  as_live : ∀ a, a ∈ owned cl → is_Some (strs σ !! a)
}.

(** The strings behind the slots. *)
Definition str_of (σ : state) (a : addr) : string :=
  default "" (strs σ !! a).

Definition val_of (σ : state) (p : ptr) : option string :=
  match p with NULL => None | Addr a => Some (str_of σ a) end.

Definition abs (σ : state) (cl : list (addr * ptr))
  : list (string * option string) :=
  (λ c, (str_of σ c.1, val_of σ c.2)) <$> cl.

(** Position of the first entry called [name]. *)
Fixpoint index_of {V} (name : string) (l : list (string * V)) : option nat :=
  match l with
  | [] => None
  | (s, _) :: l' =>
      if strcmp s name =? 0 then Some O else S <$> index_of name l'
  end.

(** The store as a sequence of name/value pairs, and the three updates the
    spec describes on it. *)
Definition set_entry (name : string) (v : option string)
    (l : list (string * option string)) : list (string * option string) :=
  match index_of name l with
  | Some k => <[k:=(name, v)]> l
  | None => l ++ [(name, v)]
  end.

Definition delete_entry (name : string)
    (l : list (string * option string)) : list (string * option string) :=
  match index_of name l with
  | Some k => delete k l
  | None => l
  end.

Definition get_entry (name : string)
    (l : list (string * option string)) : option string :=
  match index_of name l with
  | Some k => l !! k ≫= snd
  | None => None
  end.

(** ** Sequences of mutator calls *)

(** The mutators of the store, as calls with their arguments. *)
Inductive attr_op (va_list : Type) :=
  | SetAttr (name value : option string)
  | SetAttrf (name format : option string) (ap : va_list)
  | DeleteAttr (name : option string).

Arguments SetAttr {va_list} name value.
Arguments SetAttrf {va_list} name format ap.
Arguments DeleteAttr {va_list} name.

Definition run_op {va_list} (vformat : string → va_list → string)
    (node : ptr) (op : attr_op va_list) : M unit :=
  match op with
  | SetAttr name value => mxmlElementSetAttr node name value
  | SetAttrf name format ap => mxmlElementSetAttrf vformat node name format ap
  | DeleteAttr name => mxmlElementDeleteAttr node name
  end.

Fixpoint run_ops {va_list} (vformat : string → va_list → string)
    (node : ptr) (ops : list (attr_op va_list)) : M unit :=
  match ops with
  | [] => ret tt
  | op :: ops => run_op vformat node op ;; run_ops vformat node ops
  end.

(** ** Bookkeeping for the proofs about the setters *)

(** [node] points to the node [n], an element with the members [e]. *)
Definition elem_at (σ : state) (node : ptr) (n : mxml_node_t)
    (e : mxml_element_t) : Prop :=
  load_node σ node = Some n ∧ value n = V_element e.

(** The value handed to [mxml_set_attr]: null, or a live buffer that no
    slot refers to yet. *)
Definition value_ok (σ : state) (cl : list (addr * ptr)) (value : ptr)
  : Prop :=
  ∀ av, value = Addr av → is_Some (strs σ !! av) ∧ av ∉ owned cl.

(** The live buffers after [free(p)]. *)
Definition release (p : ptr) (S : gmap addr string) : gmap addr string :=
  match p with NULL => S | Addr a => delete a S end.

(** The answers the allocator will give to the next two requests. *)
Definition grant1 (σ : state) : bool := hd true (plan σ).
Definition grant2 (σ : state) : bool := hd true (tail (plan σ)).

(** [σ0] is [σ] after the value was copied into a fresh buffer ([p] points
    to it and [vs] is its content), or after no copy was made ([p] is null
    and [vs] is none). *)
Definition value_copied (σ σ0 : state) (p : ptr) (vs : option string)
  : Prop :=
  nodes σ0 = nodes σ ∧ arrs σ0 = arrs σ ∧ sink σ0 = sink σ ∧
  ((p = NULL ∧ vs = None ∧ strs σ0 = strs σ) ∨
   (∃ av v, p = Addr av ∧ vs = Some v ∧ strs σ !! av = None ∧
            strs σ0 = <[av:=v]> (strs σ))).

(** What the store becomes once the value is in hand: [p0] is the plan
    left for [mxml_set_attr] and [vs] the value that gets stored. *)
Definition set_post (σ σ' : state) (e e' : mxml_element_t)
    (cl cl' : list (addr * ptr)) (name : string) (vs : option string)
    (p0 : list bool) : Prop :=
  match index_of name (abs σ cl) with
  | Some k =>
      e' = e ∧ plan σ' = p0 ∧ sink σ' = sink σ ∧
      abs σ' cl' = <[k:=(name, vs)]> (abs σ cl) ∧
      ∃ c p, cl !! k = Some c ∧ cl' = <[k:=(c.1, p)]> cl
  | None =>
      plan σ' = (if hd true p0 then drop 2 p0 else tail p0) ∧
      if hd true p0 && hd true (tail p0) then
        sink σ' = sink σ ∧ num_attrs e' = num_attrs e + 1 ∧
        abs σ' cl' = abs σ cl ++ [(name, vs)]
      else
        cl' = cl ∧ num_attrs e' = num_attrs e ∧ strs σ' = strs σ ∧
        abs σ' cl' = abs σ cl ∧
        sink σ' = sink σ ++ [alloc_failure_msg name (elem_name e)]
  end.

(** Every allocation request that is planned is granted. *)
Definition granted (σ : state) : bool := forallb id (plan σ).

(** Under the plan [p0] the array or the copy of the name is refused. *)
Definition refused (p0 : list bool) : bool :=
  negb (hd true p0 && hd true (tail p0)).

(** ** A checkable form of the invariant *)

(** An initialised slot with a non-null name, by its addresses. *)
Definition slot_entry (s : mxml_attr_t) : option (addr * ptr) :=
  match s with
  | Attr (Val (Addr a)) (Val p) => Some (a, p)
  | _ => None
  end.

(** The slots in use, read off the backing array. *)
Definition store_entries (σ : state) (e : mxml_element_t)
  : option (list (addr * ptr)) :=
  let k := Z.to_nat (num_attrs e) in
  if decide (k = 0%nat) then Some []
  else match attrs e with
       | Addr a =>
           blk ← arrs σ !! a;
           if decide (k ≤ length blk)%nat then mapM slot_entry (take k blk)
           else None
       | NULL => None
       end.

(** [node] is an element whose store satisfies the invariant. *)
Definition wf_store (σ : state) (node : ptr) : bool :=
  match load_node σ node with
  | Some n =>
      match value n with
      | V_element e =>
          match store_entries σ e with
          | Some cl =>
              bool_decide (0 ≤ num_attrs e) &&
              bool_decide (NoDup (owned cl)) &&
              forallb (λ a, bool_decide (is_Some (strs σ !! a))) (owned cl)
          | None => false
          end
      | _ => false
      end
  | None => false
  end.

(** The store of [node] looks the same in [σ'] as in [σ]: same count, same
    entries by index, same answers of [mxmlElementGetAttr]; it is still
    well formed; and the same character buffers are live. *)
Definition same_store (σ σ' : state) (node : ptr) : Prop :=
  wf_store σ' node = true ∧
  attr_count σ' node = attr_count σ node ∧
  attributes σ' node = attributes σ node ∧
  (∀ idx, attr_at σ' node idx = attr_at σ node idx) ∧
  (∀ name, attr_get σ' node name = attr_get σ node name) ∧
  strs σ' = strs σ.

(** ** The resolution rule of the scalar getters, and index ranges *)

(** The resolution rule of the spec for the scalar getters, in its words:
    if the node itself carries the requested value, that value; else, if
    the node is an element and its first child carries it, the child's
    value; else the sentinel. *)
Definition resolve {A} (carried : mxml_node_t → option A) (sentinel : A)
    (σ : state) (node : ptr) : A :=
  match load_node σ node with
  | None => sentinel
  | Some n =>
      match carried n with
      | Some x => x
      | None =>
          match value n, load_node σ (child n) with
          | V_element _, Some c => default sentinel (carried c)
          | _, _ => sentinel
          end
      end
  end.

(** The node pointer is null or valid, and so is the first-child link of
    the node. *)
Definition links_ok (σ : state) (node : ptr) : bool :=
  match node with
  | NULL => true
  | Addr _ =>
      match load_node σ node with
      | Some n =>
          match child n with
          | NULL => true
          | Addr _ => bool_decide (is_Some (load_node σ (child n)))
          end
      | None => false
      end
  end.

(** What a text node carries for [mxmlGetText]: its string, and its
    whitespace flag for the out-parameter. *)
Definition carried_text (w : option Z) (n : mxml_node_t)
  : option (option string * option Z) :=
  t ← value_text n; Some (Some (text_string t), set_out w (whitespace t)).

(** [idx] is out of range for [node]: the node is null or not an element,
    or the index is negative or not below the count. *)
Definition out_of_range (σ : state) (node : ptr) (idx : Z) : bool :=
  match node with
  | NULL => true
  | Addr _ =>
      match load_node σ node with
      | Some n =>
          match value n with
          | V_element e => (idx <? 0) || (num_attrs e <=? idx)
          | _ => true
          end
      | None => false
      end
  end.

(** ** Memory states used as examples *)

(** An element without attributes, alone in memory. *)
Definition lone_node : mxml_node_t :=
  Node (V_element (Element "e" 0 NULL)) NULL NULL NULL NULL NULL NULL.

Definition lone_element : state :=
  State {[ 1%positive := lone_node ]} ∅ ∅ {[ 1%positive ]} [] [].

(** A CDATA element, alone in memory. *)
Definition cdata_node : mxml_node_t :=
  Node (V_element (Element "![CDATA[x<y" 0 NULL)) NULL NULL NULL NULL NULL
       NULL.

Definition cdata_state : state :=
  State {[ 1%positive := cdata_node ]} ∅ ∅ {[ 1%positive ]} [] [].

(** An element around an element around the integer 42, and an element
    around the integer 42. *)
Definition nested_tree : state :=
  State {[ 1%positive :=
             Node (V_element (Element "a" 0 NULL)) NULL NULL NULL (Addr 2)
                  (Addr 2) NULL;
           2%positive :=
             Node (V_element (Element "b" 0 NULL)) NULL NULL (Addr 1) (Addr 3)
                  (Addr 3) NULL;
           3%positive :=
             Node (V_integer 42) NULL NULL (Addr 2) NULL NULL NULL ]}
        ∅ ∅ {[ 1%positive; 2%positive; 3%positive ]} [] [].

(** The element of [lone_element] after [a], [b] and [c] were set, in that
    order. *)
Definition abc_element : state :=
  match
    (mxmlElementSetAttr (Addr 1) (Some "a") (Some "1") ;;
     mxmlElementSetAttr (Addr 1) (Some "b") (Some "2") ;;
     mxmlElementSetAttr (Addr 1) (Some "c") (Some "3")) lone_element
  with
  | Some (_, σ) => σ
  | None => lone_element
  end.

(** The allocator grants the copy of the value and refuses the array. *)
Definition growth_refused : state :=
  State {[ 1%positive := lone_node ]} ∅ ∅ {[ 1%positive ]} [true; false] [].

(** The allocator refuses the formatted value. *)
Definition format_refused : state :=
  State {[ 1%positive := lone_node ]} ∅ ∅ {[ 1%positive ]} [false] [].

(** ** Accounting of the character buffers *)

(** The buffers the store of [node] refers to. *)
Definition store_buffers (σ : state) (node : ptr) : list addr :=
  match load_node σ node with
  | Some n =>
      match value n with
      | V_element e => default [] (owned <$> store_entries σ e)
      | _ => []
      end
  | None => []
  end.

(** How the live buffers of [σ'] relate to those of [σ] when the store
    referred to [B] before and refers to [B'] after: buffers outside both
    are untouched, buffers in both keep their content, buffers that enter
    were not live before, and buffers that leave are no longer live. *)
Definition buffers_rel (σ σ' : state) (B B' : list addr) : Prop :=
  (∀ a, a ∉ B → a ∉ B' → strs σ' !! a = strs σ !! a) ∧
  (∀ a, a ∈ B → a ∈ B' → strs σ' !! a = strs σ !! a) ∧
  (∀ a, a ∉ B → a ∈ B' → strs σ !! a = None) ∧
  (∀ a, a ∈ B → a ∉ B' → strs σ' !! a = None).

(** ** The store as a sequence of entries *)

(** What a call does to the sequence of entries when the allocator grants
    every request: the calls with a null name or a null format do
    nothing. *)
Definition entry_op {va_list} (vformat : string → va_list → string)
    (op : attr_op va_list) (l : list (string * option string))
  : list (string * option string) :=
  match op with
  | SetAttr (Some name) value => set_entry name value l
  | SetAttrf (Some name) (Some format) ap =>
      set_entry name (Some (vformat format ap)) l
  | DeleteAttr (Some name) => delete_entry name l
  | _ => l
  end.

(** ** What the node accessors read *)

(** The node without the two members that the attribute functions write,
    the backing array and its count. *)
Definition outline (n : mxml_node_t) : mxml_node_t :=
  match value n with
  | V_element e => with_value (V_element (Element (elem_name e) 0 NULL)) n
  | _ => n
  end.

(** The allocator grants the copy of the value and the array, and refuses
    the copy of the name. *)
Definition name_refused : state :=
  State {[ 1%positive := lone_node ]} ∅ ∅ {[ 1%positive ]}
        [true; true; false] [].

(** * Proofs *)

(** ** Basic facts *)

Lemma strcmp_0 s1 s2 : strcmp s1 s2 = 0 ↔ s1 = s2.
Proof.
  unfold strcmp. split.
  - intros H. apply String.compare_eq_iff.
    by destruct (String.compare s1 s2).
  - intros ->. pose proof (String.compare_antisym s2 s2) as H.
    by destruct (String.compare s2 s2).
Qed.

Lemma strcmp_eqb s1 s2 : (strcmp s1 s2 =? 0) = bool_decide (s1 = s2).
Proof.
  destruct (Z.eqb_spec (strcmp s1 s2) 0) as [H|H]; rewrite strcmp_0 in H.
  - by rewrite bool_decide_eq_true_2.
  - by rewrite bool_decide_eq_false_2.
Qed.

Lemma index_of_Some {V} name (l : list (string * V)) k :
  index_of name l = Some k →
  ∃ v, l !! k = Some (name, v) ∧
       ∀ j c, (j < k)%nat → l !! j = Some c → c.1 ≠ name.
Proof.
  revert k. induction l as [|[s v] l IH]; intros k; simpl; [done|].
  rewrite strcmp_eqb. case_bool_decide as Hs.
  - intros [= <-]. subst s. exists v. split; [done|]. intros; lia.
  - destruct (index_of name l) as [k'|]; simpl; [|done].
    intros [= <-]. destruct (IH k' eq_refl) as (v' & Hk & Hlt).
    exists v'. split; [done|]. intros [|j] c Hj; simpl.
    + by intros [= <-].
    + apply Hlt. lia.
Qed.

Lemma index_of_None {V} name (l : list (string * V)) :
  index_of name l = None ↔ name ∉ l.*1.
Proof.
  induction l as [|[s v] l IH]; simpl.
  - split; [|done]. intros _. apply not_elem_of_nil.
  - rewrite strcmp_eqb, not_elem_of_cons. case_bool_decide as Hs.
    + split; [done|]. intros [? _]. congruence.
    + destruct (index_of name l); simpl.
      * split; [done|]. intros [_ Hn]. by apply IH in Hn.
      * split; [|done]. intros _. split; [congruence|]. by apply IH.
Qed.

Lemma index_of_lt {V} name (l : list (string * V)) k :
  index_of name l = Some k → (k < length l)%nat.
Proof.
  intros H. destruct (index_of_Some _ _ _ H) as (v & Hk & _).
  by apply lookup_lt_Some in Hk.
Qed.

Lemma owned_entry (cl : list (addr * ptr)) j c :
  cl !! j = Some c → c.1 ∈ owned cl ∧ ∀ a, c.2 = Addr a → a ∈ owned cl.
Proof.
  intros H. apply list_elem_of_lookup_2 in H. unfold owned. split.
  - apply list_elem_of_bind. exists c. split; [left|done].
  - intros a Ha. apply list_elem_of_bind. exists c. split; [|done].
    rewrite Ha. simpl. right. left.
Qed.

Lemma str_of_live σ a : is_Some (strs σ !! a) → strs σ !! a = Some (str_of σ a).
Proof. intros [s Hs]. unfold str_of. by rewrite Hs. Qed.

(** The search loop on a well-formed array: no fault, no change of state,
    and the first hit is the first entry of that name. *)
Lemma find_attr_from σ a blk name (pre suf : list (addr * ptr)) :
  arrs σ !! a = Some blk →
  (∀ j c, (pre ++ suf) !! j = Some c → blk !! j = Some (slot_of c)) →
  (∀ c, c ∈ suf → is_Some (strs σ !! c.1)) →
  find_attr (Addr a) name (length suf) (length pre) σ =
    Some ((λ j, (length suf - j, length pre + j)%nat)
            <$> index_of name (abs σ suf), σ).
Proof.
  intros Ha. revert pre. induction suf as [|c suf IH]; intros pre Hblk Hlive.
  - done.
  - simpl. unfold bind at 1, load_attr. rewrite Ha. simpl.
    rewrite (Hblk (length pre) c); last by apply list_lookup_middle.
    simpl. unfold bind at 1. simpl. unfold bind at 1, load_str.
    rewrite (str_of_live σ c.1); last by apply Hlive; left.
    simpl. destruct (strcmp (str_of σ c.1) name =? 0).
    + simpl. unfold ret. repeat f_equal; lia.
    + specialize (IH (pre ++ [c])). rewrite length_app in IH. simpl in IH.
      replace (length pre + 1)%nat with (S (length pre)) in IH by lia.
      rewrite IH.
      * destruct (index_of name (abs σ suf)); simpl; [|done].
        repeat f_equal; lia.
      * intros j c'. rewrite <- app_assoc. apply Hblk.
      * intros c' Hc'. apply Hlive. by right.
Qed.

Lemma find_attr_store σ e cl name :
  attr_store σ e cl →
  find_attr (attrs e) name (Z.to_nat (num_attrs e)) 0 σ =
    Some ((λ j, (length cl - j, j)%nat) <$> index_of name (abs σ cl), σ).
Proof.
  intros [Hc Hb Hn Hl]. rewrite Hc, Nat2Z.id.
  destruct (decide (cl = [])) as [->|Hne]; [done|].
  destruct (Hb Hne) as (a & blk & -> & Ha & Hblk).
  apply (find_attr_from σ a blk name [] cl Ha Hblk).
  intros c [j Hj]%list_elem_of_lookup_1. apply Hl.
  by destruct (owned_entry cl j c Hj).
Qed.

(** ** Reading a well-formed store *)

Lemma bind_eq {A B} (m : M A) (k : A → M B) σ a σ' :
  m σ = Some (a, σ') → bind m k σ = k a σ'.
Proof. intros H. unfold bind. by rewrite H. Qed.

Lemma elem_at_nonnull σ node n e : elem_at σ node n e → nonnull node = true.
Proof. intros [H _]. by destruct node. Qed.

Lemma elem_at_type σ node n e : elem_at σ node n e → type n = MXML_ELEMENT.
Proof. intros [_ H]. unfold type. by rewrite H. Qed.

Lemma elem_at_deref σ node n e :
  elem_at σ node n e → deref_node node σ = Some (n, σ).
Proof. intros [H _]. unfold deref_node. by rewrite H. Qed.

Lemma elem_at_load σ node n e :
  elem_at σ node n e → load_element node σ = Some (e, σ).
Proof.
  intros H. unfold load_element. rewrite (bind_eq _ _ _ _ _ (elem_at_deref _ _ _ _ H)).
  destruct H as [_ H]. unfold value_element. by rewrite H.
Qed.

(** Enter a public function of [mxml-attr.c] on an element node: the range
    check passes and the node is read. *)
Ltac enter H :=
  rewrite (elem_at_nonnull _ _ _ _ H); simpl;
  rewrite (bind_eq _ _ _ _ _ (elem_at_deref _ _ _ _ H));
  rewrite (elem_at_type _ _ _ _ H); simpl.

Lemma load_attr_store σ e cl k c :
  attr_store σ e cl → cl !! k = Some c →
  load_attr (attrs e) k σ = Some (slot_of c, σ).
Proof.
  intros [Hc Hb Hn Hl] Hk.
  destruct Hb as (a & blk & -> & Ha & Hblk); [by intros ->|].
  unfold load_attr. rewrite Ha. simpl. by rewrite (Hblk k c Hk).
Qed.

Lemma count_spec σ node n e :
  elem_at σ node n e →
  mxmlElementGetAttrCount node σ = Some (num_attrs e, σ).
Proof.
  intros H. unfold mxmlElementGetAttrCount. enter H.
  by rewrite (bind_eq _ _ _ _ _ (elem_at_load _ _ _ _ H)).
Qed.

Lemma by_index_spec σ node n e cl k c out :
  elem_at σ node n e → attr_store σ e cl → cl !! k = Some c →
  mxmlElementGetAttrByIndex node (Z.of_nat k) out σ =
    Some ((c.2, set_out out (Addr c.1)), σ).
Proof.
  intros H Hs Hk. unfold mxmlElementGetAttrByIndex. enter H.
  destruct (Z.ltb_spec (Z.of_nat k) 0) as [?|_]; [lia|].
  rewrite (bind_eq _ _ _ _ _ (elem_at_load _ _ _ _ H)).
  pose proof (lookup_lt_Some _ _ _ Hk) as Hlt.
  rewrite (as_count _ _ _ Hs).
  rewrite Z.geb_leb.
  destruct (Z.leb_spec (Z.of_nat (length cl)) (Z.of_nat k)) as [?|_]; [lia|].
  rewrite Nat2Z.id.
  rewrite (bind_eq _ _ _ _ _ (load_attr_store _ _ _ _ _ Hs Hk)).
  by destruct out.
Qed.

Lemma by_index_past_end σ node n e idx out :
  elem_at σ node n e → idx < 0 ∨ num_attrs e ≤ idx →
  mxmlElementGetAttrByIndex node idx out σ = Some ((NULL, out), σ).
Proof.
  intros H Hidx. unfold mxmlElementGetAttrByIndex. enter H.
  destruct (Z.ltb_spec idx 0) as [?|?]; [done|].
  rewrite (bind_eq _ _ _ _ _ (elem_at_load _ _ _ _ H)).
  rewrite Z.geb_leb.
  destruct (Z.leb_spec (num_attrs e) idx) as [?|?]; [done|lia].
Qed.

Lemma null_name_skips σ node n e value :
  elem_at σ node n e →
  mxmlElementSetAttr node None value σ = Some (tt, σ) ∧
  mxmlElementGetAttr node None σ = Some (NULL, σ).
Proof.
  intros H.
  split; [unfold mxmlElementSetAttr|unfold mxmlElementGetAttr]; by enter H.
Qed.

Lemma get_attr_spec σ node n e cl name :
  elem_at σ node n e → attr_store σ e cl →
  mxmlElementGetAttr node (Some name) σ =
    Some (match index_of name (abs σ cl) with
          | Some k => default NULL (snd <$> cl !! k)
          | None => NULL
          end, σ).
Proof.
  intros H Hs. unfold mxmlElementGetAttr. enter H.
  rewrite (bind_eq _ _ _ _ _ (elem_at_load _ _ _ _ H)).
  rewrite (bind_eq _ _ _ _ _ (find_attr_store _ _ _ name Hs)).
  destruct (index_of name (abs σ cl)) as [k|] eqn:Hi; simpl; [|done].
  apply index_of_lt in Hi. unfold abs in Hi. rewrite length_fmap in Hi.
  destruct (lookup_lt_is_Some_2 cl k Hi) as [c Hc].
  rewrite (bind_eq _ _ _ _ _ (load_attr_store _ _ _ _ _ Hs Hc)).
  by rewrite Hc.
Qed.

Lemma str_at_entry σ e cl j c :
  attr_store σ e cl → cl !! j = Some c →
  strs σ !! c.1 = Some (str_of σ c.1) ∧ str_at σ c.2 = Some (val_of σ c.2).
Proof.
  intros Hs Hj. destruct (owned_entry cl j c Hj) as [H1 H2]. split.
  - apply str_of_live, (as_live _ _ _ Hs), H1.
  - destruct c as [a [|av]]; simpl in *; [done|].
    by rewrite (str_of_live σ av); [|apply (as_live _ _ _ Hs), H2].
Qed.

Lemma attr_get_spec σ node n e cl name :
  elem_at σ node n e → attr_store σ e cl →
  attr_get σ node (Some name) = Some (get_entry name (abs σ cl)).
Proof.
  intros H Hs. unfold attr_get, get_entry.
  rewrite (get_attr_spec _ _ _ _ _ name H Hs). simpl.
  destruct (index_of name (abs σ cl)) as [k|] eqn:Hi; [|done].
  apply index_of_lt in Hi. unfold abs in *. rewrite length_fmap in Hi.
  destruct (lookup_lt_is_Some_2 cl k Hi) as [c Hc].
  rewrite list_lookup_fmap, Hc. simpl.
  by destruct (str_at_entry _ _ _ _ _ Hs Hc) as [_ ->].
Qed.

Lemma attr_at_spec σ node n e cl k c :
  elem_at σ node n e → attr_store σ e cl → cl !! k = Some c →
  attr_at σ node (Z.of_nat k) = Some (str_of σ c.1, val_of σ c.2).
Proof.
  intros H Hs Hk. unfold attr_at.
  rewrite (by_index_spec _ _ _ _ _ _ _ (Some NULL) H Hs Hk). simpl.
  destruct (str_at_entry _ _ _ _ _ Hs Hk) as [-> ->]. done.
Qed.

(** What the getters show of a well-formed store is its sequence of
    entries. *)
Lemma attributes_spec σ node n e cl :
  elem_at σ node n e → attr_store σ e cl →
  attributes σ node = Some (abs σ cl).
Proof.
  intros H Hs. unfold attributes, attr_count.
  rewrite (count_spec _ _ _ _ H). simpl.
  rewrite (as_count _ _ _ Hs), Nat2Z.id.
  apply mapM_Some, Forall2_same_length_lookup. split.
  - unfold abs. by rewrite length_seq, length_fmap.
  - intros i k y Hk Hy. apply lookup_seq in Hk as [-> Hlt]. simpl.
    unfold abs in Hy. rewrite list_lookup_fmap in Hy.
    destruct (cl !! i) as [c|] eqn:Hc; [|done]. simpl in Hy.
    injection Hy as <-. apply (attr_at_spec _ _ _ _ _ _ _ H Hs Hc).
Qed.

(** ** Ownership bookkeeping *)

Lemma owned_app (l1 l2 : list (addr * ptr)) :
  owned (l1 ++ l2) = owned l1 ++ owned l2.
Proof. unfold owned. apply bind_app. Qed.

Lemma owned_cons (c : addr * ptr) l :
  owned (c :: l) = c.1 :: ptr_addrs c.2 ++ owned l.
Proof. done. Qed.

Lemma owned_middle (l1 l2 : list (addr * ptr)) c :
  owned (l1 ++ c :: l2) ≡ₚ c.1 :: ptr_addrs c.2 ++ owned (l1 ++ l2).
Proof.
  rewrite !owned_app, owned_cons. rewrite <- Permutation_middle.
  apply perm_skip. rewrite !app_assoc. apply Permutation_app_tail.
  apply Permutation_app_comm.
Qed.

Lemma owned_lookup (cl : list (addr * ptr)) k c :
  cl !! k = Some c →
  owned cl ≡ₚ c.1 :: ptr_addrs c.2 ++ owned (delete k cl).
Proof.
  intros Hk. rewrite <- (take_drop_middle cl k c Hk) at 1.
  rewrite delete_take_drop. apply owned_middle.
Qed.

Lemma owned_insert (cl : list (addr * ptr)) k c c' :
  cl !! k = Some c →
  owned (<[k:=c']> cl) ≡ₚ c'.1 :: ptr_addrs c'.2 ++ owned (delete k cl).
Proof.
  intros Hk. rewrite insert_take_drop by (by apply lookup_lt_Some in Hk).
  rewrite delete_take_drop. apply owned_middle.
Qed.

Lemma attr_store_frame σ σ' e cl :
  attr_store σ e cl →
  (∀ a, a ∈ owned cl → strs σ' !! a = strs σ !! a) →
  (∀ a, attrs e = Addr a → arrs σ' !! a = arrs σ !! a) →
  attr_store σ' e cl.
Proof.
  intros [Hc Hb Hn Hl] Hs Ha. split; [done| |done|].
  - intros Hne. destruct (Hb Hne) as (a & blk & He & Hblk & Hj).
    exists a, blk. by rewrite (Ha a He).
  - intros a Hin. rewrite (Hs a Hin). by apply Hl.
Qed.

Lemma abs_frame σ σ' (cl : list (addr * ptr)) :
  (∀ a, a ∈ owned cl → strs σ' !! a = strs σ !! a) →
  abs σ' cl = abs σ cl.
Proof.
  intros Hs. unfold abs. apply list_eq. intros j.
  rewrite !list_lookup_fmap. destruct (cl !! j) as [c|] eqn:Hj; [|done].
  simpl. destruct (owned_entry cl j c Hj) as [H1 H2].
  unfold str_of. rewrite (Hs _ H1). do 2 f_equal.
  destruct c as [a [|av]]; simpl in *; [done|].
  unfold str_of. by rewrite (Hs av (H2 av eq_refl)).
Qed.

Lemma fresh_addr_spec σ :
  (fresh_addr σ ∉ used σ) ∧ nodes σ !! fresh_addr σ = None ∧
  strs σ !! fresh_addr σ = None ∧ arrs σ !! fresh_addr σ = None.
Proof.
  pose proof (is_fresh (used σ ∪ dom (nodes σ) ∪ dom (strs σ) ∪ dom (arrs σ)))
    as H. fold (fresh_addr σ) in H.
  rewrite !not_elem_of_union, !not_elem_of_dom in H.
  by destruct H as [[[? ?] ?] ?].
Qed.

(** ** [mxml_set_attr] *)

(** The name is present: the value of its slot is swapped in place. *)
Lemma set_attr_hit σ node n e cl name value k :
  elem_at σ node n e → attr_store σ e cl → value_ok σ cl value →
  index_of name (abs σ cl) = Some k →
  ∃ σ' c,
    cl !! k = Some c ∧
    mxml_set_attr node name value σ = Some (0, σ') ∧
    nodes σ' = nodes σ ∧ plan σ' = plan σ ∧ sink σ' = sink σ ∧
    strs σ' = release c.2 (strs σ) ∧
    attr_store σ' e (<[k:=(c.1, value)]> cl) ∧
    abs σ' (<[k:=(c.1, value)]> cl) = <[k:=(name, val_of σ value)]> (abs σ cl).
Proof.
  intros H Hs Hv Hi. unfold mxml_set_attr.
  rewrite (bind_eq _ _ _ _ _ (elem_at_load _ _ _ _ H)).
  rewrite (bind_eq _ _ _ _ _ (find_attr_store _ _ _ name Hs)), Hi. simpl.
  pose proof (index_of_lt _ _ _ Hi) as Hlt.
  unfold abs in Hlt. rewrite length_fmap in Hlt.
  destruct (lookup_lt_is_Some_2 cl k Hlt) as [c Hc].
  rewrite (bind_eq _ _ _ _ _ (load_attr_store _ _ _ _ _ Hs Hc)). simpl.
  unfold bind at 1. simpl.
  destruct (index_of_Some _ _ _ Hi) as (v0 & Hk0 & _).
  unfold abs in Hk0. rewrite list_lookup_fmap, Hc in Hk0. simpl in Hk0.
  injection Hk0 as Hname _.
  destruct (owned_entry cl k c Hc) as [Ho1 Ho2].
  pose proof (owned_lookup cl k c Hc) as Hperm.
  pose proof (owned_insert cl k c (c.1, value) Hc) as Hperm'. simpl in Hperm'.
  pose proof (as_nodup _ _ _ Hs) as Hnd. rewrite Hperm in Hnd.
  assert (Hnd' : NoDup (owned (<[k:=(c.1, value)]> cl))).
  { rewrite Hperm'. apply NoDup_cons in Hnd as [Hn1 Hnd].
    apply NoDup_app in Hnd as (_ & _ & Hnd).
    rewrite not_elem_of_app in Hn1. destruct Hn1 as [_ Hn1].
    assert (Hsub : ∀ x, x ∈ c.1 :: owned (delete k cl) → x ∈ owned cl).
    { intros x Hx. rewrite Hperm. rewrite elem_of_cons in Hx.
      rewrite elem_of_cons, elem_of_app. destruct Hx; auto. }
    apply NoDup_cons. split.
    - rewrite not_elem_of_app. split; [|done].
      destruct value as [|av]; simpl; [apply not_elem_of_nil|].
      rewrite list_elem_of_singleton. intros Heq.
      destruct (Hv av eq_refl) as [_ Hav]. apply Hav, Hsub. rewrite <- Heq.
      left.
    - apply NoDup_app. split_and!; [|  |done].
      + destruct value; simpl; [apply NoDup_nil_2|apply NoDup_singleton].
      + intros x Hx Hx'. destruct value as [|av]; simpl in Hx;
          [by apply elem_of_nil in Hx|].
        apply list_elem_of_singleton in Hx as ->.
        destruct (Hv av eq_refl) as [_ Hav]. apply Hav, Hsub. by right. }
  assert (Hold : ∀ ov, c.2 = Addr ov →
            is_Some (strs σ !! ov) ∧ ov ∉ owned (<[k:=(c.1, value)]> cl)).
  { intros ov Hov. split.
    - apply (as_live _ _ _ Hs). by apply Ho2.
    - rewrite Hperm'. rewrite Hov in Hnd. simpl in Hnd.
      apply NoDup_cons in Hnd as [Hn1 Hnd]. apply NoDup_cons in Hnd as [Hn2 _].
      rewrite not_elem_of_cons in Hn1.
      rewrite not_elem_of_cons, not_elem_of_app. split_and!; [destruct Hn1; congruence| |done].
      destruct value as [|av]; simpl; [apply not_elem_of_nil|].
      rewrite list_elem_of_singleton. intros ->.
      destruct (Hv av eq_refl) as [_ Hav]. apply Hav. rewrite Hperm, Hov.
      right. left. }
  destruct (as_block _ _ _ Hs) as (a & blk & He & Ha & Hblk);
    [by intros ->|].
  set (σ1 := State (nodes σ) (release c.2 (strs σ)) (arrs σ) (used σ)
                   (plan σ) (sink σ)).
  assert (Hfree : (if nonnull c.2 then free_str c.2 else ret tt) σ
                  = Some (tt, σ1)).
  { subst σ1. destruct c as [an [|ov]]; simpl in *.
    - unfold ret. by destruct σ.
    - destruct (Hold ov eq_refl) as [[s Hs'] _]. by rewrite Hs'. }
  rewrite (bind_eq _ _ _ _ _ Hfree).
  unfold bind, store_attr. rewrite He. simpl. rewrite Ha.
  rewrite (Hblk k c Hc). simpl. unfold ret.
  eexists _, c. split_and!; try done; simpl.
  - split; simpl.
    + rewrite length_insert. apply (as_count _ _ _ Hs).
    + intros _. exists a, (<[k:=slot_of (c.1, value)]> blk).
      split_and!; [done|by rewrite lookup_insert_eq|].
      intros j c'. destruct (decide (j = k)) as [->|Hne].
      * rewrite list_lookup_insert_eq by done. intros [= <-].
        rewrite list_lookup_insert_eq; [done|].
        apply lookup_lt_Some with (slot_of c). by apply Hblk.
      * rewrite !list_lookup_insert_ne by done. apply Hblk.
    + done.
    + intros x Hx. destruct (decide (c.2 = Addr x)) as [Hcx|Hcx].
      { by destruct (Hold x Hcx) as [_ Hn]. }
      assert (is_Some (strs σ !! x)) as Hlive.
      { rewrite Hperm' in Hx. rewrite elem_of_cons, elem_of_app in Hx.
        destruct Hx as [->|[Hx|Hx]].
        - by apply (as_live _ _ _ Hs).
        - destruct value as [|av]; simpl in Hx; [by apply elem_of_nil in Hx|].
          apply list_elem_of_singleton in Hx as ->. by apply (Hv av).
        - apply (as_live _ _ _ Hs). rewrite Hperm.
          rewrite elem_of_cons, elem_of_app. auto. }
      destruct (c.2) as [|ov]; simpl; [done|].
      rewrite lookup_delete_ne; [done|congruence].
  - transitivity (abs σ (<[k:=(c.1, value)]> cl)).
    + apply abs_frame. simpl. intros x Hx.
      destruct (c.2) as [|ov] eqn:Hov; simpl; [done|].
      rewrite lookup_delete_ne; [done|]. intros ->.
      by destruct (Hold x eq_refl) as [_ Hn].
    + unfold abs. rewrite list_fmap_insert. simpl. by rewrite Hname.
Qed.

Lemma alloc_request_spec σ :
  alloc_request σ =
    Some (grant1 σ, State (nodes σ) (strs σ) (arrs σ) (used σ)
                          (tail (plan σ)) (sink σ)).
Proof. unfold alloc_request, grant1. destruct σ as [? ? ? ? [|??] ?]; done. Qed.

(** Growing the backing array by one slot ([malloc] for the first entry,
    [realloc] afterwards). *)
Lemma grow_spec σ e cl :
  attr_store σ e cl → num_attrs e < INT_MAX →
  ∃ attr σ1,
    (if num_attrs e =? 0 then malloc_attrs 1
     else let* n1 := int_add (num_attrs e) 1 in
          realloc_attrs (attrs e) (Z.to_nat n1)) σ = Some (attr, σ1) ∧
    nodes σ1 = nodes σ ∧ strs σ1 = strs σ ∧ sink σ1 = sink σ ∧
    plan σ1 = tail (plan σ) ∧
    (grant1 σ = false → attr = NULL ∧ arrs σ1 = arrs σ) ∧
    (grant1 σ = true → ∃ a1 blk1,
        attr = Addr a1 ∧ arrs σ1 !! a1 = Some blk1 ∧
        length blk1 = S (length cl) ∧
        ∀ j c, cl !! j = Some c → blk1 !! j = Some (slot_of c)).
Proof.
  intros Hs Hmax. pose proof (as_count _ _ _ Hs) as Hc.
  destruct (Z.eqb_spec (num_attrs e) 0) as [H0|H0].
  - assert (cl = []) as -> by (destruct cl; [done|simpl in Hc; lia]).
    unfold malloc_attrs. rewrite (bind_eq _ _ _ _ _ (alloc_request_spec σ)).
    destruct (grant1 σ); simpl.
    + eexists _, _. split; [done|]. simpl. split_and!; try done.
      intros _. eexists _, _. split_and!; [done|by rewrite lookup_insert_eq|done|done].
    + eexists _, _. split; [done|]. simpl. split_and!; done.
  - unfold int_add. rewrite bool_decide_eq_true_2 by (unfold INT_MAX in *; lia).
    unfold bind at 1, ret.
    destruct (as_block _ _ _ Hs) as (a & blk & He & Ha & Hblk).
    { intros ->. simpl in Hc. lia. }
    rewrite He. unfold realloc_attrs.
    unfold bind at 1, lift. rewrite Ha.
    rewrite (bind_eq _ _ _ _ _ (alloc_request_spec σ)).
    destruct (grant1 σ); simpl.
    + eexists _, _. split; [done|]. simpl. split_and!; try done.
      intros _. eexists _, _. split_and!; [done|by rewrite lookup_insert_eq| |].
      * rewrite length_resize. lia.
      * intros j c Hj. rewrite lookup_resize.
        -- by apply Hblk.
        -- apply lookup_lt_Some in Hj. lia.
        -- apply lookup_lt_Some with (slot_of c). by apply Hblk.
    + eexists _, _. split; [done|]. simpl. split_and!; done.
Qed.

Lemma strdup_spec s σ :
  ∃ p σ',
    strdup s σ = Some (p, σ') ∧
    nodes σ' = nodes σ ∧ arrs σ' = arrs σ ∧ sink σ' = sink σ ∧
    plan σ' = tail (plan σ) ∧
    (grant1 σ = false → p = NULL ∧ strs σ' = strs σ) ∧
    (grant1 σ = true → ∃ a,
        p = Addr a ∧ strs σ !! a = None ∧ strs σ' = <[a:=s]> (strs σ)).
Proof.
  unfold strdup. rewrite (bind_eq _ _ _ _ _ (alloc_request_spec σ)).
  destruct (grant1 σ); simpl.
  - eexists _, _. split; [done|]. simpl. split_and!; try done.
    intros _. eexists. split_and!; [done| |done].
    apply (fresh_addr_spec (State _ _ _ _ _ _)).
  - eexists _, _. split; [done|]. simpl. split_and!; done.
Qed.

Lemma store_attr_spec σ a blk off s f :
  arrs σ !! a = Some blk → blk !! off = Some s →
  store_attr (Addr a) off f σ =
    Some (tt, State (nodes σ) (strs σ) (<[a:=<[off:=f s]> blk]> (arrs σ))
                    (used σ) (plan σ) (sink σ)).
Proof. intros Ha Hoff. unfold store_attr. by rewrite Ha, Hoff. Qed.

Lemma store_element_spec σ node n e f :
  elem_at σ node n e →
  ∃ b, node = Addr b ∧
    store_element node f σ =
      Some (tt, State (<[b:=with_value (V_element (f e)) n]> (nodes σ))
                      (strs σ) (arrs σ) (used σ) (plan σ) (sink σ)).
Proof.
  intros [Hn Hv]. destruct node as [|b]; [done|]. exists b. split; [done|].
  simpl in *. by rewrite Hn, Hv.
Qed.

Lemma abs_strs σ σ' (cl : list (addr * ptr)) :
  strs σ' = strs σ → abs σ' cl = abs σ cl.
Proof. intros H. apply abs_frame. intros. by rewrite H. Qed.

Lemma tail_tail {A} (l : list A) : tail (tail l) = drop 2 l.
Proof. by destruct l as [|? [|??]]. Qed.

Lemma with_value_id n e : value n = V_element e → with_value (V_element e) n = n.
Proof. intros <-. by destruct n. Qed.

(** The name is absent: a slot is appended, unless the allocator refuses
    the array or the copy of the name. *)
Lemma set_attr_miss σ node n e cl name value :
  elem_at σ node n e → attr_store σ e cl → value_ok σ cl value →
  index_of name (abs σ cl) = None → num_attrs e < INT_MAX →
  ∃ r σ' e' cl',
    mxml_set_attr node name value σ = Some (r, σ') ∧
    elem_at σ' node (with_value (V_element e') n) e' ∧
    elem_name e' = elem_name e ∧
    (∀ b, Addr b ≠ node → nodes σ' !! b = nodes σ !! b) ∧
    attr_store σ' e' cl' ∧
    r = (if grant1 σ && grant2 σ then 0 else -1) ∧
    plan σ' = (if grant1 σ then drop 2 (plan σ) else tail (plan σ)) ∧
    (r = -1 →
       cl' = cl ∧ strs σ' = strs σ ∧ num_attrs e' = num_attrs e ∧
       sink σ' = sink σ ++ [alloc_failure_msg name (elem_name e)]) ∧
    (r = 0 →
       sink σ' = sink σ ∧ num_attrs e' = num_attrs e + 1 ∧
       abs σ' cl' = abs σ cl ++ [(name, val_of σ value)] ∧
       ∃ an, cl' = cl ++ [(an, value)] ∧ strs σ !! an = None ∧
             strs σ' = <[an:=name]> (strs σ)).
Proof.
  intros H Hs Hv Hi Hmax. unfold mxml_set_attr.
  rewrite (bind_eq _ _ _ _ _ (elem_at_load _ _ _ _ H)).
  rewrite (bind_eq _ _ _ _ _ (find_attr_store _ _ _ name Hs)), Hi. simpl.
  destruct (grow_spec σ e cl Hs Hmax)
    as (attr & σ1 & Hgrow & HN1 & HS1 & HK1 & HP1 & Hno & Hyes).
  rewrite (bind_eq _ _ _ _ _ Hgrow).
  destruct (grant1 σ) eqn:Hg1; simpl.
  2:{ (* the array could not be grown *)
    destruct (Hno eq_refl) as [-> HA1]. simpl. unfold bind, mxml_error, ret.
    eexists _, _, e, cl. split; [done|]. simpl.
    rewrite (with_value_id n e) by apply H.
    split_and!; try done.
    - destruct H as [Hn Hv']. split; [|done]. destruct node; [done|].
      simpl in *. by rewrite HN1.
    - intros. by rewrite HN1.
    - apply (attr_store_frame σ); [done|intros; by rewrite HS1|
        intros; by rewrite HA1].
    - intros _. by rewrite HK1. }
  destruct (Hyes eq_refl) as (a1 & blk1 & -> & HA1 & Hlen1 & Hblk1). simpl.
  assert (H1 : elem_at σ1 node n e).
  { destruct H as [Hn Hv']. split; [|done]. destruct node; [done|].
    simpl in *. by rewrite HN1. }
  destruct (store_element_spec σ1 node n e (set_attrs (Addr a1)) H1)
    as (b & -> & Hst).
  rewrite (bind_eq _ _ _ _ _ Hst). clear Hst.
  set (e1 := set_attrs (Addr a1) e).
  set (σ2 := State _ _ _ _ _ _).
  destruct (strdup_spec name σ2)
    as (copy & σ3 & Hdup & HN3 & HA3 & HK3 & HP3 & Hdno & Hdyes).
  rewrite (bind_eq _ _ _ _ _ Hdup).
  assert (Hg2 : grant1 σ2 = grant2 σ).
  { unfold grant1, grant2. subst σ2. simpl. by rewrite HP1. }
  rewrite Hg2 in Hdno, Hdyes.
  assert (Hoff : (Z.to_nat (num_attrs e) = length cl)%nat).
  { rewrite (as_count _ _ _ Hs). apply Nat2Z.id. }
  rewrite Hoff.
  assert (Hlast : is_Some (blk1 !! length cl)).
  { apply lookup_lt_is_Some_2. lia. }
  destruct Hlast as [s0 Hs0].
  assert (HA3' : arrs σ3 !! a1 = Some blk1) by (by rewrite HA3).
  rewrite (bind_eq _ _ _ _ _
             (store_attr_spec σ3 a1 blk1 _ s0 _ HA3' Hs0)).
  destruct (grant2 σ) eqn:Hgr2; simpl.
  2:{ (* the name could not be copied *)
    destruct (Hdno eq_refl) as [-> HS3]. simpl.
    unfold bind, mxml_error, ret.
    eexists _, _, e1, cl. split; [done|]. simpl.
    split_and!; try done.
    - split; [|done]. simpl. rewrite HN3. subst σ2. simpl.
      by rewrite lookup_insert_eq.
    - intros b' Hb'. rewrite HN3. subst σ2. simpl.
      rewrite lookup_insert_ne by congruence. by rewrite HN1.
    - split; simpl.
      + apply (as_count _ _ _ Hs).
      + intros _. eexists a1, _. split_and!; [done|by rewrite lookup_insert_eq|].
        intros j c Hj. pose proof (lookup_lt_Some _ _ _ Hj).
        rewrite list_lookup_insert_ne by lia. by apply Hblk1.
      + apply (as_nodup _ _ _ Hs).
      + intros x Hx. rewrite HS3. subst σ2. simpl. rewrite HS1.
        by apply (as_live _ _ _ Hs).
    - rewrite HP3. subst σ2. simpl. by rewrite HP1, tail_tail.
    - intros _. split_and!; try done.
      + rewrite HS3. subst σ2. simpl. by rewrite HS1.
      + rewrite HK3. subst σ2. simpl. by rewrite HK1. }
  destruct (Hdyes eq_refl) as (an & -> & Han & HS3). simpl.
  subst σ2. simpl in *. rewrite HS1 in *.
  unfold bind at 1. unfold store_attr at 1. simpl.
  rewrite lookup_insert_eq. rewrite list_lookup_insert_eq by lia. simpl.
  pose proof (as_count _ _ _ Hs) as Hcnt.
  unfold int_add. rewrite bool_decide_eq_true_2 by (unfold INT_MAX in *; lia).
  unfold bind at 1, ret. unfold bind at 1, store_element. simpl.
  rewrite HN3, lookup_insert_eq. simpl.
  eexists _, _, (set_num_attrs (num_attrs e + 1) e1), (cl ++ [(an, value)]).
  split; [done|]. simpl.
  assert (Hfr : ∀ x, x ∈ owned cl → x ≠ an).
  { intros x Hx ->. apply (as_live _ _ _ Hs) in Hx as [? Hx]. congruence. }
  assert (Hav : ∀ av, value = Addr av → av ≠ an).
  { intros av Hav ->. destruct (Hv _ Hav) as [[? Hx] _]. congruence. }
  assert (Habs : abs (State (<[b:=with_value
                       (V_element (set_num_attrs (num_attrs e + 1) e1))
                       (with_value (V_element e1) n)]> (nodes σ3))
                     (strs σ3)
                     (<[a1:=<[length cl:=set_attr_value (Val value)
                         (set_attr_name (Val (Addr an)) s0)]>
                         (<[length cl:=set_attr_name (Val (Addr an)) s0]> blk1)]>
                       (<[a1:=<[length cl:=set_attr_name (Val (Addr an)) s0]> blk1]>
                          (arrs σ3)))
                     (used σ3) (plan σ3) (sink σ3)) (cl ++ [(an, value)])
                = abs σ cl ++ [(name, val_of σ value)]).
  { unfold abs. rewrite fmap_app. f_equal.
    - apply abs_frame. simpl. intros x Hx. rewrite HS3.
      apply lookup_insert_ne. by specialize (Hfr x Hx).
    - simpl. unfold str_of at 1. simpl. rewrite HS3, lookup_insert_eq. simpl.
      do 2 f_equal. destruct value as [|av]; simpl; [done|].
      unfold str_of. simpl.
      by rewrite lookup_insert_ne by (by specialize (Hav av eq_refl)). }
  split_and!; try done.
  - split; [|done]. simpl. rewrite lookup_insert_eq. by destruct n.
  - intros b' Hb'. rewrite !lookup_insert_ne by congruence. by rewrite HN1.
  - split; simpl.
    + rewrite length_app. simpl. rewrite (as_count _ _ _ Hs). lia.
    + intros _. eexists a1, _. split_and!; [done|by rewrite lookup_insert_eq|].
      intros j c Hj. rewrite list_insert_insert_eq.
      destruct (decide (j = length cl)) as [->|Hne].
      * rewrite list_lookup_middle in Hj by done. injection Hj as <-.
        rewrite list_lookup_insert_eq by lia. done.
      * rewrite list_lookup_insert_ne by done.
        assert (j < length cl)%nat as Hlt.
        { apply lookup_lt_Some in Hj. rewrite length_app in Hj. simpl in Hj.
          lia. }
        rewrite lookup_app_l in Hj by done. by apply Hblk1.
    + rewrite owned_app. apply NoDup_app. split_and!.
      * apply (as_nodup _ _ _ Hs).
      * intros x Hx. simpl. rewrite app_nil_r, not_elem_of_cons. split.
        -- by apply Hfr.
        -- destruct value as [|av]; simpl; [apply not_elem_of_nil|].
           rewrite list_elem_of_singleton. intros ->.
           by destruct (Hv av eq_refl) as [_ ?].
      * simpl. rewrite app_nil_r. apply NoDup_cons. split.
        -- destruct value as [|av]; simpl; [apply not_elem_of_nil|].
           rewrite list_elem_of_singleton. intros <-. by apply (Hav an).
        -- destruct value; simpl; [apply NoDup_nil_2|apply NoDup_singleton].
    + intros x. rewrite owned_app, elem_of_app. simpl.
      rewrite app_nil_r, elem_of_cons, HS3. intros [Hx|[->|Hx]].
      * rewrite lookup_insert_ne by (by specialize (Hfr x Hx)).
        by apply (as_live _ _ _ Hs).
      * by rewrite lookup_insert_eq.
      * destruct value as [|av]; simpl in Hx; [by apply elem_of_nil in Hx|].
        apply list_elem_of_singleton in Hx as ->.
        rewrite lookup_insert_ne by (by specialize (Hav av eq_refl)).
        by apply (Hv av).
  - rewrite HP3, HP1. by rewrite tail_tail.
  - intros _. split_and!; [by rewrite HK3| | |by exists an].
    + done.
    + done.
Qed.

Lemma release_fresh (S : gmap addr string) a s :
  S !! a = None → release (Addr a) (<[a:=s]> S) = S.
Proof. intros H. simpl. by rewrite delete_insert_id. Qed.

(** [mxml_set_attr] followed by the release of the value when it failed:
    the common end of both setters. *)
Lemma set_tail_spec σ node n e cl name value :
  elem_at σ node n e → attr_store σ e cl → value_ok σ cl value →
  num_attrs e < INT_MAX →
  ∃ σ' e' cl',
    (let* r := mxml_set_attr node name value in
     if negb (r =? 0) then free_str value else ret tt) σ = Some (tt, σ') ∧
    elem_at σ' node (with_value (V_element e') n) e' ∧
    elem_name e' = elem_name e ∧
    (∀ b, Addr b ≠ node → nodes σ' !! b = nodes σ !! b) ∧
    attr_store σ' e' cl' ∧
    match index_of name (abs σ cl) with
    | Some k =>
        e' = e ∧ plan σ' = plan σ ∧ sink σ' = sink σ ∧
        abs σ' cl' = <[k:=(name, val_of σ value)]> (abs σ cl) ∧
        ∃ c, cl !! k = Some c ∧ cl' = <[k:=(c.1, value)]> cl ∧
             strs σ' = release c.2 (strs σ)
    | None =>
        plan σ' = (if grant1 σ then drop 2 (plan σ) else tail (plan σ)) ∧
        if grant1 σ && grant2 σ then
          sink σ' = sink σ ∧ num_attrs e' = num_attrs e + 1 ∧
          abs σ' cl' = abs σ cl ++ [(name, val_of σ value)] ∧
          ∃ an, cl' = cl ++ [(an, value)] ∧ strs σ !! an = None ∧
                strs σ' = <[an:=name]> (strs σ)
        else
          cl' = cl ∧ num_attrs e' = num_attrs e ∧
          strs σ' = release value (strs σ) ∧ abs σ' cl' = abs σ cl ∧
          sink σ' = sink σ ++ [alloc_failure_msg name (elem_name e)]
    end.
Proof.
  intros H Hs Hv Hmax.
  destruct (index_of name (abs σ cl)) as [k|] eqn:Hi.
  - destruct (set_attr_hit σ node n e cl name value k H Hs Hv Hi)
      as (σ' & c & Hc & Hrun & HN & HP & HK & HS & Hs' & Habs).
    rewrite (bind_eq _ _ _ _ _ Hrun). simpl. unfold ret.
    exists σ', e, (<[k:=(c.1, value)]> cl). split_and!; try done.
    + rewrite (with_value_id n e) by apply H.
      destruct H as [Hn Hv']. split; [|done]. destruct node; [done|].
      simpl in *. by rewrite HN.
    + intros. by rewrite HN.
    + by exists c.
  - destruct (set_attr_miss σ node n e cl name value H Hs Hv Hi Hmax)
      as (r & σ1 & e' & cl' & Hrun & He' & Hnm & Hfr & Hs' & Hr & HP & Hno
          & Hyes).
    rewrite (bind_eq _ _ _ _ _ Hrun).
    destruct (grant1 σ && grant2 σ) eqn:Hg; subst r; simpl.
    + destruct (Hyes eq_refl) as (HK & Hcnt & Habs & an & -> & Han & HS).
      unfold ret. exists σ1, e', (cl ++ [(an, value)]).
      split_and!; try done. by exists an.
    + destruct (Hno eq_refl) as (-> & HS & Hcnt & HK).
      destruct value as [|av]; simpl.
      * exists σ1, e', cl. split_and!; try done. by apply abs_strs.
      * destruct (Hv av eq_refl) as [[s Hlive] Hown].
        rewrite HS, Hlive. eexists _, e', cl. split; [done|]. simpl.
        split_and!; try done.
        -- apply (attr_store_frame σ1); [done| |done]. simpl.
           intros x Hx. rewrite lookup_delete_ne; [by rewrite HS|].
           intros ->. exact (Hown Hx).
        -- transitivity (abs σ1 cl); [|by apply abs_strs].
           apply abs_frame. simpl. intros x Hx.
           rewrite lookup_delete_ne; [by rewrite HS|].
           intros ->. exact (Hown Hx).
Qed.

(** ** [mxmlElementDeleteAttr] *)

Lemma delete_spec σ node n e cl name :
  elem_at σ node n e → attr_store σ e cl →
  ∃ σ' e' cl',
    mxmlElementDeleteAttr node (Some name) σ = Some (tt, σ') ∧
    elem_at σ' node (with_value (V_element e') n) e' ∧
    elem_name e' = elem_name e ∧ attrs e' = attrs e ∧
    (∀ b, Addr b ≠ node → nodes σ' !! b = nodes σ !! b) ∧
    attr_store σ' e' cl' ∧ plan σ' = plan σ ∧ sink σ' = sink σ ∧
    abs σ' cl' = delete_entry name (abs σ cl) ∧
    match index_of name (abs σ cl) with
    | Some k =>
        cl' = delete k cl ∧ num_attrs e' = num_attrs e - 1 ∧
        (∃ c, cl !! k = Some c ∧ strs σ' = release c.2 (delete c.1 (strs σ))) ∧
        (∀ a, attrs e = Addr a →
           if num_attrs e' =? 0 then arrs σ' !! a = None
           else is_Some (arrs σ' !! a))
    | None => σ' = σ ∧ e' = e ∧ cl' = cl
    end.
Proof.
  intros H Hs. unfold mxmlElementDeleteAttr, delete_entry. enter H.
  rewrite (bind_eq _ _ _ _ _ (elem_at_load _ _ _ _ H)).
  rewrite (bind_eq _ _ _ _ _ (find_attr_store _ _ _ name Hs)).
  destruct (index_of name (abs σ cl)) as [k|] eqn:Hi; simpl.
  2:{ unfold ret. exists σ, e, cl. rewrite (with_value_id n e) by apply H.
      split_and!; done. }
  pose proof (index_of_lt _ _ _ Hi) as Hlt.
  unfold abs in Hlt. rewrite length_fmap in Hlt.
  destruct (lookup_lt_is_Some_2 cl k Hlt) as [c Hc].
  rewrite (bind_eq _ _ _ _ _ (load_attr_store _ _ _ _ _ Hs Hc)). simpl.
  unfold bind at 1. simpl.
  destruct (owned_entry cl k c Hc) as [Ho1 Ho2].
  pose proof (owned_lookup cl k c Hc) as Hperm.
  pose proof (as_nodup _ _ _ Hs) as Hnd. rewrite Hperm in Hnd.
  apply NoDup_cons in Hnd as [Hn1 Hnd].
  apply NoDup_app in Hnd as (Hnd2 & Hn2 & Hnd').
  rewrite not_elem_of_app in Hn1. destruct Hn1 as [Hn1 Hn1'].
  destruct (as_live _ _ _ Hs _ Ho1) as [s1 Hs1].
  unfold bind at 1. unfold free_str at 1. rewrite Hs1.
  unfold bind at 1. simpl.
  set (S2 := release c.2 (delete c.1 (strs σ))).
  set (σ2 := State (nodes σ) S2 (arrs σ) (used σ) (plan σ) (sink σ)).
  assert (Hfree : free_str c.2
            (State (nodes σ) (delete c.1 (strs σ)) (arrs σ) (used σ) (plan σ)
                   (sink σ)) = Some (tt, σ2)).
  { subst σ2 S2. destruct (c.2) as [|ov] eqn:Hov; simpl; [done|].
    destruct (as_live _ _ _ Hs _ (Ho2 ov eq_refl)) as [s2 Hs2].
    rewrite lookup_delete_ne, Hs2; [done|].
    intros Heq. apply Hn1. rewrite Heq. simpl. left. }
  rewrite (bind_eq _ _ _ _ _ Hfree).
  destruct (as_block _ _ _ Hs) as (a & blk & He & Ha & Hblk);
    [by intros ->|].
  assert (Hcap : (length cl ≤ length blk)%nat).
  { destruct (lookup_lt_is_Some_2 cl (length cl - 1)) as [cz Hz]; [lia|].
    apply Hblk, lookup_lt_Some in Hz. lia. }
  set (blk' := if (0 <? Nat.pred (length cl - k))%nat
               then take k blk ++ take (Nat.pred (length cl - k))
                                       (drop (S k) blk)
                      ++ drop (k + Nat.pred (length cl - k)) blk
               else blk).
  set (A3 := if (0 <? Nat.pred (length cl - k))%nat
             then <[a:=blk']> (arrs σ) else arrs σ).
  set (σ3 := State (nodes σ) S2 A3 (used σ) (plan σ) (sink σ)).
  assert (Hmove : (if (0 <? Nat.pred (length cl - k))%nat
                   then memmove_attrs (attrs e) k (S k)
                          (Nat.pred (length cl - k))
                   else ret tt) σ2 = Some (tt, σ3)).
  { subst σ3 A3 blk'. destruct (0 <? Nat.pred (length cl - k))%nat; [|done].
    rewrite He. unfold memmove_attrs. simpl. rewrite Ha.
    by rewrite bool_decide_eq_true_2 by lia. }
  rewrite (bind_eq _ _ _ _ _ Hmove).
  assert (HA3 : A3 !! a = Some blk').
  { subst A3 blk'. destruct (0 <? Nat.pred (length cl - k))%nat; [|done].
    by rewrite lookup_insert_eq. }
  assert (Hblk' : ∀ j c', delete k cl !! j = Some c' →
                          blk' !! j = Some (slot_of c')).
  { intros j c' Hj. pose proof (lookup_lt_Some _ _ _ Hj) as Hjlt.
    rewrite length_delete in Hjlt by done.
    subst blk'. destruct (Nat.ltb_spec 0 (Nat.pred (length cl - k))) as [Hp|Hp].
    - destruct (decide (j < k)%nat) as [Hjk|Hjk].
      + rewrite list_lookup_delete_lt in Hj by done.
        rewrite lookup_app_l by (rewrite length_take; lia).
        rewrite lookup_take_lt by done. by apply Hblk.
      + rewrite list_lookup_delete_ge in Hj by lia.
        rewrite lookup_app_r by (rewrite length_take; lia).
        rewrite length_take, Nat.min_l by lia.
        rewrite lookup_app_l by (rewrite length_take, length_drop; lia).
        rewrite lookup_take_lt by lia. rewrite lookup_drop.
        replace (S k + (j - k))%nat with (S j) by lia. by apply Hblk.
    - rewrite list_lookup_delete_lt in Hj by lia. by apply Hblk. }
  destruct (store_element_spec σ3 node n e
              (λ e, set_num_attrs (num_attrs e - 1) e)) as (b & -> & Hst).
  { destruct H as [Hn Hv']. split; [|done]. by destruct node. }
  rewrite (bind_eq _ _ _ _ _ Hst). clear Hst.
  set (e' := set_num_attrs (num_attrs e - 1) e).
  unfold bind at 1, load_element, bind, deref_node, lift. simpl.
  rewrite lookup_insert_eq. simpl. rewrite He.
  pose proof (as_count _ _ _ Hs) as Hcnt.
  assert (Hfr : ∀ x, x ∈ owned (delete k cl) → S2 !! x = strs σ !! x).
  { intros x Hx. subst S2. assert (x ≠ c.1) by (by intros ->).
    destruct (c.2) as [|ov]; simpl.
    - by rewrite lookup_delete_ne.
    - rewrite !lookup_delete_ne; [done..|]. intros ->.
      apply (Hn2 x); [simpl; left|done]. }
  assert (Hlive' : ∀ x, x ∈ owned (delete k cl) → is_Some (S2 !! x)).
  { intros x Hx. rewrite (Hfr x Hx). apply (as_live _ _ _ Hs).
    rewrite Hperm. rewrite elem_of_cons, elem_of_app. auto. }
  assert (Habs : ∀ σ', strs σ' = S2 →
            abs σ' (delete k cl) = delete k (abs σ cl)).
  { intros σ' HS'. unfold abs at 2. rewrite <- list_fmap_delete.
    apply abs_frame. intros x Hx. rewrite HS'. by apply Hfr. }
  destruct (Z.eqb_spec (num_attrs e - 1) 0) as [Hz|Hnz].
  - (* the last attribute is gone: the array is released *)
    unfold free_attrs. simpl. rewrite HA3. simpl.
    eexists _, e', (delete k cl). split; [done|]. simpl.
    assert (delete k cl = []) as Hnil.
    { apply length_zero_iff_nil. rewrite length_delete by done. lia. }
    split_and!; try done.
    + split; [|done]. simpl. by rewrite lookup_insert_eq.
    + intros b' Hb'. rewrite lookup_insert_ne by congruence. done.
    + split; simpl; [rewrite Hnil; simpl; lia|by rewrite Hnil|
        by rewrite Hnil; apply NoDup_nil_2|done].
    + by apply Habs.
    + by exists c.
    + intros a' Ha'. injection Ha' as <-.
      destruct (Z.eqb_spec (num_attrs e - 1) 0); [|done].
      by rewrite lookup_delete_eq.
  - unfold ret. eexists _, e', (delete k cl). split; [done|]. simpl.
    split_and!; try done.
    + split; [|done]. simpl. by rewrite lookup_insert_eq.
    + intros b' Hb'. rewrite lookup_insert_ne by congruence. done.
    + split; simpl; [rewrite length_delete by done; lia| |done|done].
      intros _. by exists a, blk'.
    + by apply Habs.
    + by exists c.
    + intros a' Ha'. injection Ha' as <-.
      destruct (Z.eqb_spec (num_attrs e - 1) 0); [done|].
      by rewrite HA3.
Qed.

(** ** The two setters *)

Lemma set_value_spec σ σ0 node n e cl name p vs :
  elem_at σ node n e → attr_store σ e cl → num_attrs e < INT_MAX →
  value_copied σ σ0 p vs →
  ∃ σ' e' cl',
    (let* r := mxml_set_attr node name p in
     if negb (r =? 0) then free_str p else ret tt) σ0 = Some (tt, σ') ∧
    elem_at σ' node (with_value (V_element e') n) e' ∧
    elem_name e' = elem_name e ∧
    (∀ b, Addr b ≠ node → nodes σ' !! b = nodes σ !! b) ∧
    attr_store σ' e' cl' ∧
    match index_of name (abs σ cl) with
    | Some k =>
        e' = e ∧ plan σ' = plan σ0 ∧ sink σ' = sink σ ∧
        abs σ' cl' = <[k:=(name, vs)]> (abs σ cl) ∧
        ∃ c, cl !! k = Some c ∧ cl' = <[k:=(c.1, p)]> cl
    | None =>
        plan σ' = (if grant1 σ0 then drop 2 (plan σ0) else tail (plan σ0)) ∧
        if grant1 σ0 && grant2 σ0 then
          sink σ' = sink σ ∧ num_attrs e' = num_attrs e + 1 ∧
          abs σ' cl' = abs σ cl ++ [(name, vs)]
        else
          cl' = cl ∧ num_attrs e' = num_attrs e ∧ strs σ' = strs σ ∧
          abs σ' cl' = abs σ cl ∧
          sink σ' = sink σ ++ [alloc_failure_msg name (elem_name e)]
    end.
Proof.
  intros H Hs Hmax (HN0 & HA0 & HK0 & Hcopy).
  assert (H0 : elem_at σ0 node n e).
  { destruct H as [Hn Hv]. split; [|done]. destruct node; [done|].
    simpl in *. by rewrite HN0. }
  assert (Hstr : ∀ x, x ∈ owned cl → strs σ0 !! x = strs σ !! x).
  { intros x Hx. destruct Hcopy as [(_ & _ & ->)|(av & v & _ & _ & Hav & ->)];
      [done|]. apply lookup_insert_ne. intros ->.
    apply (as_live _ _ _ Hs) in Hx as [? Hx]. congruence. }
  assert (Hs0 : attr_store σ0 e cl).
  { apply (attr_store_frame σ); [done|done|]. intros. by rewrite HA0. }
  assert (Hv0 : value_ok σ0 cl p).
  { intros av ->. destruct Hcopy as [(? & _)|(av' & v & [= <-] & _ & Hav & HS)];
      [done|]. split.
    - rewrite HS, lookup_insert_eq. eauto.
    - intros Hx. apply (as_live _ _ _ Hs) in Hx as [? Hx]. congruence. }
  assert (Habs0 : abs σ0 cl = abs σ cl) by (by apply abs_frame).
  assert (Hval : val_of σ0 p = vs).
  { destruct Hcopy as [(-> & -> & _)|(av & v & -> & -> & Hav & HS)]; [done|].
    simpl. unfold str_of. by rewrite HS, lookup_insert_eq. }
  destruct (set_tail_spec σ0 node n e cl name p H0 Hs0 Hv0 Hmax)
    as (σ' & e' & cl' & Hrun & He' & Hnm & Hfr & Hs' & Hpost).
  exists σ', e', cl'. split_and!; try done.
  - intros b Hb. rewrite <- HN0. by apply Hfr.
  - rewrite Habs0 in Hpost. rewrite Hval in Hpost.
    destruct (index_of name (abs σ cl)) as [k|].
    + destruct Hpost as (-> & HP & HK & Habs & c & Hc & -> & _).
      split_and!; try done; [congruence|by exists c].
    + destruct Hpost as [HP Hpost]. split; [done|].
      destruct (grant1 σ0 && grant2 σ0).
      * destruct Hpost as (HK & Hcnt & Habs & _).
        split_and!; try done; congruence.
      * destruct Hpost as (-> & Hcnt & HS & Habs & HK).
        split_and!; try done; [|congruence].
        rewrite HS.
        destruct Hcopy as [(-> & _ & HS0)|(av & v & -> & _ & Hav & HS0)];
          [done|]. rewrite HS0. by apply release_fresh.
Qed.

Lemma SetAttr_spec σ node n e cl name value :
  elem_at σ node n e → attr_store σ e cl → num_attrs e < INT_MAX →
  ∃ σ' e' cl',
    mxmlElementSetAttr node (Some name) value σ = Some (tt, σ') ∧
    elem_at σ' node (with_value (V_element e') n) e' ∧
    elem_name e' = elem_name e ∧
    (∀ b, Addr b ≠ node → nodes σ' !! b = nodes σ !! b) ∧
    attr_store σ' e' cl' ∧
    set_post σ σ' e e' cl cl' name
      (match value with
       | Some v => if grant1 σ then Some v else None
       | None => None
       end)
      (match value with Some _ => tail (plan σ) | None => plan σ end).
Proof.
  intros H Hs Hmax. unfold mxmlElementSetAttr. enter H.
  assert (∃ p σ0 vs,
    match value with Some v => strdup v | None => ret NULL end σ
      = Some (p, σ0) ∧
    value_copied σ σ0 p vs ∧
    vs = match value with
         | Some v => if grant1 σ then Some v else None
         | None => None
         end ∧
    plan σ0 = match value with Some _ => tail (plan σ) | None => plan σ end)
    as (p & σ0 & vs & Hdup & Hcopy & <- & HP0).
  { destruct value as [v|].
    - destruct (strdup_spec v σ) as (p & σ0 & Hd & HN & HA & HK & HP & Hno & Hyes).
      exists p, σ0. destruct (grant1 σ).
      + destruct (Hyes eq_refl) as (av & -> & Hav & HS).
        eexists. split; [done|]. split; [|done].
        split_and!; try done. right. by exists av, v.
      + destruct (Hno eq_refl) as (-> & HS).
        eexists. split; [done|]. split; [|done].
        split_and!; try done. by left.
    - exists NULL, σ, None. split; [done|]. split; [|done].
      split_and!; try done. by left. }
  rewrite (bind_eq _ _ _ _ _ Hdup).
  destruct (set_value_spec σ σ0 node n e cl name p vs H Hs Hmax Hcopy)
    as (σ' & e' & cl' & Hrun & He' & Hnm & Hfr & Hs' & Hpost).
  exists σ', e', cl'. split_and!; try done.
  unfold set_post. rewrite <- HP0.
  destruct (index_of name (abs σ cl)); [|done].
  destruct Hpost as (? & ? & ? & ? & c & ? & ?). split_and!; try done.
  by exists c, p.
Qed.

Lemma SetAttrf_spec {va_list} (vformat : string → va_list → string)
    σ node n e cl name format ap :
  elem_at σ node n e → attr_store σ e cl → num_attrs e < INT_MAX →
  ∃ σ' e' cl',
    mxmlElementSetAttrf vformat node (Some name) (Some format) ap σ
      = Some (tt, σ') ∧
    elem_at σ' node (with_value (V_element e') n) e' ∧
    elem_name e' = elem_name e ∧
    (∀ b, Addr b ≠ node → nodes σ' !! b = nodes σ !! b) ∧
    attr_store σ' e' cl' ∧
    if grant1 σ then
      set_post σ σ' e e' cl cl' name (Some (vformat format ap))
               (tail (plan σ))
    else
      e' = e ∧ cl' = cl ∧ strs σ' = strs σ ∧ abs σ' cl' = abs σ cl ∧
      plan σ' = tail (plan σ) ∧
      sink σ' = sink σ ++ [alloc_failure_msg name (elem_name e)].
Proof.
  intros H Hs Hmax. unfold mxmlElementSetAttrf, _mxml_vstrdupf. enter H.
  destruct (strdup_spec (vformat format ap) σ)
    as (p & σ0 & Hd & HN & HA & HK & HP & Hno & Hyes).
  rewrite (bind_eq _ _ _ _ _ Hd).
  destruct (grant1 σ).
  - destruct (Hyes eq_refl) as (av & -> & Hav & HS). simpl.
    assert (Hcopy : value_copied σ σ0 (Addr av) (Some (vformat format ap))).
    { split_and!; try done. right. by eexists av, _. }
    destruct (set_value_spec σ σ0 node n e cl name _ _ H Hs Hmax Hcopy)
      as (σ' & e' & cl' & Hrun & He' & Hnm & Hfr & Hs' & Hpost).
    exists σ', e', cl'. split_and!; try done.
    unfold set_post. rewrite <- HP.
    destruct (index_of name (abs σ cl)); [|done].
    destruct Hpost as (? & ? & ? & ? & c & ? & ?). split_and!; try done.
    by exists c, (Addr av).
  - destruct (Hno eq_refl) as (-> & HS). simpl.
    assert (H0 : elem_at σ0 node n e).
    { destruct H as [Hn Hv]. split; [|done]. destruct node; [done|].
      simpl in *. by rewrite HN. }
    rewrite (bind_eq _ _ _ _ _ (elem_at_load _ _ _ _ H0)).
    unfold mxml_error. eexists _, e, cl. split; [done|]. simpl.
    rewrite (with_value_id n e) by apply H.
    split_and!; try done.
    + intros. by rewrite HN.
    + apply (attr_store_frame σ); [done| |]; simpl; intros; congruence.
    + apply abs_frame. simpl. intros. by rewrite HS.
    + by rewrite HK.
Qed.

(** ** The check is sound and complete *)

Lemma slot_entry_Some s c : slot_entry s = Some c ↔ s = slot_of c.
Proof.
  destruct s as [[|[|a]] [|p]], c as [a' p']; unfold slot_of; simpl; split;
    intros; by simplify_eq.
Qed.

Lemma store_entries_sound σ e cl :
  store_entries σ e = Some cl → 0 ≤ num_attrs e →
  num_attrs e = Z.of_nat (length cl) ∧
  (cl ≠ [] → ∃ a blk,
      attrs e = Addr a ∧ arrs σ !! a = Some blk ∧
      ∀ j c, cl !! j = Some c → blk !! j = Some (slot_of c)).
Proof.
  unfold store_entries. intros Hse Hpos. case_decide as Hk.
  - injection Hse as <-. split; [simpl; lia|done].
  - destruct (attrs e) as [|a]; [done|].
    destruct (arrs σ !! a) as [blk|] eqn:Ha; [|done]. simpl in Hse.
    case_decide as Hcap; [|done].
    apply mapM_Some in Hse.
    pose proof (Forall2_length _ _ _ Hse) as Hlen.
    rewrite length_take, Nat.min_l in Hlen by done.
    split; [lia|]. intros _. exists a, blk. split_and!; [done..|].
    intros j c Hj.
    destruct (Forall2_lookup_r _ _ _ _ _ Hse Hj) as (s & Hs & Hsc).
    apply slot_entry_Some in Hsc as ->.
    by apply lookup_take_Some in Hs as [? _].
Qed.

Lemma store_entries_complete σ e cl :
  attr_store σ e cl → store_entries σ e = Some cl.
Proof.
  intros [Hc Hb _ _]. unfold store_entries. rewrite Hc, Nat2Z.id.
  case_decide as Hk.
  - by apply length_zero_iff_nil in Hk as ->.
  - destruct Hb as (a & blk & -> & Ha & Hblk); [by intros ->|].
    rewrite Ha. simpl.
    assert (length cl ≤ length blk)%nat as Hcap.
    { destruct (lookup_lt_is_Some_2 cl (length cl - 1)) as [cz Hz]; [lia|].
      apply Hblk, lookup_lt_Some in Hz. lia. }
    rewrite decide_True by done.
    apply mapM_Some, Forall2_same_length_lookup. split.
    + rewrite length_take. lia.
    + intros j s c Hs Hj. apply slot_entry_Some.
      apply lookup_take_Some in Hs as [Hs _].
      rewrite (Hblk j c Hj) in Hs. congruence.
Qed.

Lemma wf_store_sound σ node :
  wf_store σ node = true →
  ∃ n e cl, elem_at σ node n e ∧ attr_store σ e cl.
Proof.
  unfold wf_store. intros Hwf.
  destruct (load_node σ node) as [n|] eqn:Hn; [|done].
  destruct (value n) as [e| | | | |] eqn:Hv; try done.
  destruct (store_entries σ e) as [cl|] eqn:Hse; [|done].
  apply andb_true_iff in Hwf as [Hwf Hlive].
  apply andb_true_iff in Hwf as [Hpos Hnd].
  apply bool_decide_eq_true in Hpos, Hnd.
  destruct (store_entries_sound _ _ _ Hse Hpos) as [Hc Hb].
  exists n, e, cl. split; [done|]. split; [done..|].
  intros a Ha. rewrite forallb_forall in Hlive.
  apply list_elem_of_In in Ha. by apply Hlive, bool_decide_eq_true in Ha.
Qed.

Lemma wf_store_complete σ node n e cl :
  elem_at σ node n e → attr_store σ e cl → wf_store σ node = true.
Proof.
  intros [Hn Hv] Hs. unfold wf_store.
  rewrite Hn, Hv, (store_entries_complete _ _ _ Hs).
  apply andb_true_iff; split; [apply andb_true_iff; split|].
  - apply bool_decide_eq_true. rewrite (as_count _ _ _ Hs). lia.
  - apply bool_decide_eq_true, (as_nodup _ _ _ Hs).
  - apply forallb_forall. intros a Ha. apply bool_decide_eq_true.
    apply (as_live _ _ _ Hs). by apply list_elem_of_In.
Qed.

(** ** Node accessors: null safety, CDATA, first-child resolution *)

(** C8.  Every getter of the accessor layer, applied to a null node,
    returns its sentinel and does not fault: null for the pointer and
    string getters, 0 for [mxmlGetInteger], [MXML_IGNORE] for
    [mxmlGetType]; [mxmlGetText] also stores 0 through a non-null
    [whitespace] pointer. *)
Theorem getters_null_safe (σ : state) (w : option Z) :
  Get.mxmlGetCDATA σ NULL = Some None ∧
  Get.mxmlGetCustom σ NULL = Some NULL ∧
  Get.mxmlGetElement σ NULL = Some None ∧
  Get.mxmlGetInteger σ NULL = Some 0 ∧
  Get.mxmlGetOpaque σ NULL = Some None ∧
  Get.mxmlGetText σ NULL w = Some (None, set_out w 0) ∧
  Get.mxmlGetText σ NULL (Some 1) = Some (None, Some 0) ∧
  Get.mxmlGetType σ NULL = Some MXML_IGNORE ∧
  Get.mxmlGetParent σ NULL = Some NULL ∧
  Get.mxmlGetNextSibling σ NULL = Some NULL ∧
  Get.mxmlGetPrevSibling σ NULL = Some NULL ∧
  Get.mxmlGetFirstChild σ NULL = Some NULL ∧
  Get.mxmlGetLastChild σ NULL = Some NULL ∧
  Get.mxmlGetUserData σ NULL = Some NULL.
Proof. repeat split. Qed.

Lemma substring_prefix (p s : string) :
  substring 0 (String.length p) s = p ↔ ∃ r, s = p +:+ r.
Proof.
  revert s. induction p as [|c p IH]; intros s; simpl.
  - split; [by exists s|]. intros _. by destruct s.
  - destruct s as [|c' s]; simpl.
    + split; [done|]. by intros [r ?].
    + split.
      * intros [= -> Hp]. apply IH in Hp as [r ->]. by exists r.
      * intros [r [= -> ->]]. f_equal. apply IH. by exists r.
Qed.

Lemma str_plus_prefix (p r : string) :
  str_plus (p +:+ r) (String.length p) = Some r.
Proof. induction p as [|c p IH]; simpl; [by destruct r|done]. Qed.

Lemma strncmp_prefix (p s : string) :
  strncmp s p (String.length p) = 0 ↔ ∃ r, s = p +:+ r.
Proof.
  unfold strncmp. rewrite strcmp_0, <- substring_prefix.
  assert (substring 0 (String.length p) p = p) as ->; [|done].
  apply substring_prefix. exists "".
  induction p as [|a p IH]; [reflexivity|].
  change (String a p = String a (p +:+ "")). by f_equal.
Qed.

(** C7.  [mxmlGetCDATA] yields a value exactly on an element whose name
    starts with the marker ["![CDATA["], and this value is the rest of the
    name; on any other element and on any node that is not an element it
    yields null, whatever the children are (they are never read).
    [mxmlGetElement] yields the stored name of an element as it is, marker
    included. *)
Theorem getCDATA_by_name_prefix (σ : state) (node : ptr) (n : mxml_node_t) :
  load_node σ node = Some n →
  (∀ e, value n = V_element e →
     (∀ rest, elem_name e = "![CDATA[" +:+ rest →
        Get.mxmlGetCDATA σ node = Some (Some rest)) ∧
     ((∀ rest, elem_name e ≠ "![CDATA[" +:+ rest) →
        Get.mxmlGetCDATA σ node = Some None) ∧
     Get.mxmlGetElement σ node = Some (Some (elem_name e))) ∧
  (type n ≠ MXML_ELEMENT → Get.mxmlGetCDATA σ node = Some None) ∧
  (∀ r, Get.mxmlGetCDATA σ node = Some (Some r) →
     ∃ e, value n = V_element e ∧ elem_name e = "![CDATA[" +:+ r).
Proof.
  intros Hn. assert (nonnull node = true) as Hnn by (by destruct node).
  unfold Get.mxmlGetCDATA, Get.mxmlGetElement. rewrite Hnn, Hn. simpl.
  unfold type, value_element.
  destruct (value n) as [e| | | | |] eqn:Hv; simpl;
    try (split_and!; [done|done|intros r [=]]).
  pose proof (strncmp_prefix "![CDATA[" (elem_name e)) as Hp.
  change (String.length "![CDATA[") with 8%nat in Hp.
  assert (Hsp : ∀ r, str_plus ("![CDATA[" +:+ r) 8 = Some r)
    by apply (str_plus_prefix "![CDATA[").
  split_and!.
  - intros e' [= <-]. split_and!; [| |done].
    + intros rest Hrest.
      rewrite (proj2 (Z.eqb_eq _ _)) by (apply Hp; by exists rest). simpl.
      by rewrite Hrest, Hsp.
    + intros Hno. destruct (Z.eqb_spec (strncmp (elem_name e) "![CDATA[" 8) 0)
        as [Heq|Hne]; [|done].
      apply Hp in Heq as [r Hr]. by destruct (Hno r).
  - done.
  - intros r. destruct (Z.eqb_spec (strncmp (elem_name e) "![CDATA[" 8) 0)
      as [Heq|Hne]; simpl; [|done].
    apply Hp in Heq as [r' Hr]. rewrite Hr, Hsp. simpl. intros [= <-].
    by exists e.
Qed.

Lemma getCDATA_by_name_prefix_witness :
  Get.mxmlGetCDATA cdata_state (Addr 1) = Some (Some "x<y") ∧
  Get.mxmlGetElement cdata_state (Addr 1) = Some (Some "![CDATA[x<y").
Proof.
  destruct (getCDATA_by_name_prefix cdata_state (Addr 1) cdata_node eq_refl)
    as [H _].
  destruct (H _ eq_refl) as (Hc & _ & He).
  split; [exact (Hc "x<y" eq_refl)|exact He].
Defined.

(** C2.  [mxmlGetInteger], [mxmlGetOpaque], [mxmlGetCustom] and
    [mxmlGetText] follow the resolution rule: the node's own value when it
    has the requested type, else the value of the first child of an
    element when that child has the type, else the sentinel.  The rule
    stops at the first child: an element whose first child is an element
    around an integer yields 0. *)
Theorem scalar_getters_resolve (σ : state) (node : ptr) (w : option Z) :
  links_ok σ node = true →
  Get.mxmlGetInteger σ node = Some (resolve value_integer 0 σ node) ∧
  Get.mxmlGetOpaque σ node
    = Some (resolve (λ n, Some <$> value_opaque n) None σ node) ∧
  Get.mxmlGetCustom σ node
    = Some (resolve (λ n, data <$> value_custom n) NULL σ node) ∧
  Get.mxmlGetText σ node w
    = Some (resolve (carried_text w) (None, set_out w 0) σ node) ∧
  (∀ n c g i,
     load_node σ node = Some n → type n = MXML_ELEMENT →
     load_node σ (child n) = Some c → type c = MXML_ELEMENT →
     load_node σ (child c) = Some g → value g = V_integer i →
     Get.mxmlGetInteger σ node = Some 0).
Proof.
  intros Hl. unfold links_ok in Hl.
  unfold Get.mxmlGetInteger, Get.mxmlGetOpaque, Get.mxmlGetCustom,
    Get.mxmlGetText, resolve, carried_text.
  destruct node as [|a]; [by split_and!|]. simpl nonnull. simpl negb.
  destruct (load_node σ (Addr a)) as [n|] eqn:Hn; [|done].
  unfold type, value_integer, value_opaque, value_custom, value_text.
  destruct n as [v nx pv pa ch lc ud]. simpl in *.
  destruct ch as [|b]; simpl.
  - destruct v; simpl; split_and!; try done;
      by intros n' c' g' i' [= <-].
  - apply bool_decide_eq_true in Hl as [c Hc]. simpl in Hc. rewrite Hc.
    destruct c as [vc ? ? ? ? ? ?]. simpl.
    destruct v, vc; simpl; split_and!; try done;
      intros n' c' g' i' [= <-] Ht Hc' Htc _ _; simpl in *;
      rewrite Hc in Hc'; injection Hc' as <-;
      unfold type in *; simpl in *; done.
Qed.

Lemma scalar_getters_resolve_witness :
  Get.mxmlGetInteger nested_tree (Addr 1) = Some 0 ∧
  Get.mxmlGetInteger nested_tree (Addr 2) = Some 42 ∧
  Get.mxmlGetInteger nested_tree (Addr 3) = Some 42.
Proof.
  split_and!.
  - by destruct (scalar_getters_resolve nested_tree (Addr 1) None eq_refl)
      as (-> & _).
  - by destruct (scalar_getters_resolve nested_tree (Addr 2) None eq_refl)
      as (-> & _).
  - by destruct (scalar_getters_resolve nested_tree (Addr 3) None eq_refl)
      as (-> & _).
Defined.

(** ** Attribute store: argument checks *)

(** C5, as the code has it.  For an index out of range
    [mxmlElementGetAttrByIndex] returns null and does not write through
    [name]: the caller's variable keeps what it held. *)
Theorem by_index_out_of_range_keeps_name
    (σ : state) (node : ptr) (idx : Z) (name_out : option ptr) :
  out_of_range σ node idx = true →
  mxmlElementGetAttrByIndex node idx name_out σ = Some ((NULL, name_out), σ).
Proof.
  unfold out_of_range. intros Hr.
  destruct node as [|a]; [done|].
  destruct (load_node σ (Addr a)) as [n|] eqn:Hn; [|done].
  destruct (value n) as [e| | | | |] eqn:Hv;
    [apply (by_index_past_end σ (Addr a) n e); [done|];
     apply orb_true_iff in Hr as [Hr|Hr]; [left|right]; lia|..].
  all: assert (deref_node (Addr a) σ = Some (n, σ)) as Hd
         by (unfold deref_node; by rewrite Hn).
  all: unfold mxmlElementGetAttrByIndex; simpl.
  all: rewrite (bind_eq _ _ _ _ _ Hd); unfold type; by rewrite Hv.
Qed.

Lemma by_index_out_of_range_keeps_name_witness :
  mxmlElementGetAttrByIndex (Addr 1) 0 (Some (Addr 9)) lone_element
    = Some ((NULL, Some (Addr 9)), lone_element) ∧
  mxmlElementGetAttrByIndex NULL 0 (Some (Addr 9)) lone_element
    = Some ((NULL, Some (Addr 9)), lone_element).
Proof.
  split.
  - exact (by_index_out_of_range_keeps_name lone_element (Addr 1) 0
             (Some (Addr 9)) eq_refl).
  - exact (by_index_out_of_range_keeps_name lone_element NULL 0
             (Some (Addr 9)) eq_refl).
Defined.

(** C5 as stated fails: index 5 is out of range on an element without
    attributes, yet the caller's [name] variable, which held a non-null
    pointer, is not set to null. *)
Lemma by_index_name_not_reset :
  ∃ r, mxmlElementGetAttrByIndex (Addr 1) 5 (Some (Addr 9)) lone_element
         = Some (r, lone_element) ∧
       r.1 = NULL ∧ r.2 = Some (Addr 9) ∧ r.2 ≠ Some NULL.
Proof. by eexists; split_and!; [vm_compute; reflexivity|..]. Qed.

(** C4, as the code has it.  The setters and [mxmlElementGetAttr] reject a
    null name, not an empty one: with a null name [mxmlElementSetAttr]
    leaves the memory as it is and [mxmlElementGetAttr] returns null. *)
Theorem null_name_is_rejected
    (σ : state) (node : ptr) (n : mxml_node_t) (e : mxml_element_t)
    (value : option string) :
  elem_at σ node n e →
  mxmlElementSetAttr node None value σ = Some (tt, σ) ∧
  mxmlElementGetAttr node None σ = Some (NULL, σ).
Proof.
  intros H. split.
  - unfold mxmlElementSetAttr. by enter H.
  - unfold mxmlElementGetAttr. by enter H.
Qed.

Lemma null_name_is_rejected_witness :
  mxmlElementSetAttr (Addr 1) None (Some "v") lone_element
    = Some (tt, lone_element) ∧
  mxmlElementGetAttr (Addr 1) None lone_element = Some (NULL, lone_element).
Proof.
  apply (null_name_is_rejected lone_element (Addr 1) lone_node
           (Element "e" 0 NULL) (Some "v")).
  split; reflexivity.
Defined.

(** C4 as stated fails: with the empty name [mxmlElementSetAttr] adds an
    entry, and [mxmlElementGetAttr] with the empty name then returns its
    value. *)
Lemma empty_name_is_stored :
  ∃ σ', mxmlElementSetAttr (Addr 1) (Some "") (Some "v") lone_element
          = Some (tt, σ') ∧
        attr_count lone_element (Addr 1) = Some 0 ∧
        attr_count σ' (Addr 1) = Some 1 ∧
        attributes σ' (Addr 1) = Some [("", Some "v")] ∧
        attr_get σ' (Addr 1) (Some "") = Some (Some "v").
Proof. by eexists; split_and!; [vm_compute; reflexivity|..]. Qed.

(** ** Attribute store: setting, overwriting, deleting *)

Lemma all_true_uncons (l : list bool) :
  forallb id l = true →
  hd true l = true ∧ forallb id (tail l) = true.
Proof. destruct l as [|[] l]; simpl; try done. Qed.

Lemma all_true_hd2 (l : list bool) :
  forallb id l = true →
  hd true l && hd true (tail l) = true ∧ forallb id (drop 2 l) = true.
Proof.
  intros H. destruct (all_true_uncons l H) as [-> H'].
  destruct (all_true_uncons _ H') as [-> H'']. by rewrite <- tail_tail.
Qed.

Lemma attr_store_empty σ e : num_attrs e = 0 → attr_store σ e [].
Proof.
  intros H. split; [done|done|apply NoDup_nil_2|].
  intros a Ha. by apply elem_of_nil in Ha.
Qed.

(** What the checkable invariant gives: the slots, and the fact that the
    getters show exactly their contents. *)
Lemma wf_store_view σ node :
  wf_store σ node = true →
  ∃ n e cl, elem_at σ node n e ∧ attr_store σ e cl ∧
            attributes σ node = Some (abs σ cl) ∧
            attr_count σ node = Some (num_attrs e) ∧
            num_attrs e = Z.of_nat (length (abs σ cl)).
Proof.
  intros (n & e & cl & H & Hs)%wf_store_sound. exists n, e, cl.
  split_and!; [done|done|by apply (attributes_spec _ _ n e)| |].
  - unfold attr_count. by rewrite (count_spec _ _ _ _ H).
  - unfold abs. rewrite length_fmap. apply (as_count _ _ _ Hs).
Qed.

Lemma elem_at_inj σ node n e n' e' :
  elem_at σ node n e → elem_at σ node n' e' → n = n' ∧ e = e'.
Proof. intros [H1 H2] [H3 H4]. split; congruence. Qed.

(** With all requests granted a setter always stores. *)
Lemma set_post_granted σ σ' e e' cl cl' name vs p0 :
  set_post σ σ' e e' cl cl' name vs p0 → forallb id p0 = true →
  abs σ' cl' = set_entry name vs (abs σ cl) ∧
  forallb id (plan σ') = true ∧ sink σ' = sink σ.
Proof.
  unfold set_post, set_entry. intros Hpost Hp0.
  destruct (index_of name (abs σ cl)).
  - destruct Hpost as (_ & -> & ? & ? & _). done.
  - destruct (all_true_hd2 p0 Hp0) as [Hg Hd]. destruct Hpost as [HP Hpost].
    rewrite Hg in Hpost. destruct Hpost as (? & _ & ?).
    destruct (all_true_uncons p0 Hp0) as [Hh _]. rewrite Hh in HP.
    split_and!; try done. by rewrite HP.
Qed.

Lemma SetAttr_granted σ node n e cl name value :
  elem_at σ node n e → attr_store σ e cl → num_attrs e < INT_MAX →
  granted σ = true →
  ∃ σ' e' cl',
    mxmlElementSetAttr node (Some name) value σ = Some (tt, σ') ∧
    elem_at σ' node (with_value (V_element e') n) e' ∧
    attr_store σ' e' cl' ∧ granted σ' = true ∧
    abs σ' cl' = set_entry name value (abs σ cl) ∧
    (∀ k, index_of name (abs σ cl) = Some k →
       e' = e ∧ ∃ c p, cl !! k = Some c ∧ cl' = <[k:=(c.1, p)]> cl).
Proof.
  intros H Hs Hmax Hg.
  destruct (SetAttr_spec σ node n e cl name value H Hs Hmax)
    as (σ' & e' & cl' & Hrun & He' & _ & _ & Hs' & Hpost).
  unfold granted in Hg. destruct (all_true_uncons _ Hg) as [Hg1 Hgt].
  fold (grant1 σ) in Hg1. rewrite Hg1 in Hpost.
  assert (match value with Some v => Some v | None => None end = value)
    as Hval by (by destruct value).
  rewrite Hval in Hpost.
  destruct (set_post_granted _ _ _ _ _ _ _ _ _ Hpost) as (Habs & Hg' & _).
  { by destruct value. }
  exists σ', e', cl'. split_and!; try done.
  intros k Hk. unfold set_post in Hpost. rewrite Hk in Hpost.
  by destruct Hpost as (-> & _ & _ & _ & Hc).
Qed.

Lemma index_of_head {V} name (v : V) l :
  index_of name ((name, v) :: l) = Some 0%nat.
Proof. simpl. by rewrite (proj2 (strcmp_0 name name) eq_refl). Qed.

(** C1.  On an element without attributes, setting [name] twice, to [v1]
    and then to [v2], leaves one attribute, and [mxmlElementGetAttr] of
    [name] yields [v2], when the allocator grants what the two calls ask
    for.  The second call works in place: the element still refers to the
    same array with the same count, and slot 0 keeps the name buffer of
    the first call. *)
Theorem set_twice_overwrites
    (σ : state) (node : ptr) (name : string) (v1 v2 : option string) :
  wf_store σ node = true → attr_count σ node = Some 0 →
  granted σ = true →
  ∃ σ1 σ2,
    mxmlElementSetAttr node (Some name) v1 σ = Some (tt, σ1) ∧
    mxmlElementSetAttr node (Some name) v2 σ1 = Some (tt, σ2) ∧
    attr_count σ2 node = Some 1 ∧
    attr_get σ2 node (Some name) = Some v2 ∧
    attributes σ1 node = Some [(name, v1)] ∧
    attributes σ2 node = Some [(name, v2)] ∧
    (∃ e1, load_element node σ1 = Some (e1, σ1) ∧
           load_element node σ2 = Some (e1, σ2)) ∧
    (∃ an p1 p2,
       mxmlElementGetAttrByIndex node 0 (Some NULL) σ1
         = Some ((p1, Some (Addr an)), σ1) ∧
       mxmlElementGetAttrByIndex node 0 (Some NULL) σ2
         = Some ((p2, Some (Addr an)), σ2)).
Proof.
  intros Hwf Hcount Hg.
  destruct (wf_store_view σ node Hwf) as (n & e & cl & H & _ & _ & Hc & _).
  rewrite Hc in Hcount. injection Hcount as Hzero.
  pose proof (attr_store_empty σ e Hzero) as Hs.
  destruct (SetAttr_granted σ node n e [] name v1 H Hs) as
    (σ1 & e1 & cl1 & Hrun1 & H1 & Hs1 & Hg1 & Habs1 & _);
    [unfold INT_MAX; lia|done|].
  simpl in Habs1. unfold set_entry in Habs1. simpl in Habs1.
  assert (num_attrs e1 = 1) as Hn1.
  { rewrite (as_count _ _ _ Hs1). apply (f_equal length) in Habs1.
    unfold abs in Habs1. rewrite length_fmap in Habs1. simpl in Habs1. lia. }
  destruct (SetAttr_granted σ1 node _ e1 cl1 name v2 H1 Hs1) as
    (σ2 & e2 & cl2 & Hrun2 & H2 & Hs2 & Hg2 & Habs2 & Hplace);
    [unfold INT_MAX; lia|done|].
  rewrite Habs1 in Habs2, Hplace. unfold set_entry in Habs2.
  rewrite index_of_head in Habs2, Hplace. simpl in Habs2.
  destruct (Hplace 0%nat eq_refl) as (-> & c & p & Hc0 & Hcl2).
  exists σ1, σ2. split_and!; try done.
  - unfold attr_count. rewrite (count_spec _ _ _ _ H2). simpl. by rewrite Hn1.
  - rewrite (attr_get_spec _ _ _ _ _ name H2 Hs2), Habs2.
    unfold get_entry. by rewrite index_of_head.
  - by rewrite (attributes_spec _ _ _ _ _ H1 Hs1), Habs1.
  - by rewrite (attributes_spec _ _ _ _ _ H2 Hs2), Habs2.
  - exists e1. split; by eapply elem_at_load.
  - exists c.1, c.2, p. split.
    + apply (by_index_spec σ1 node _ e1 cl1 0 c (Some NULL) H1 Hs1 Hc0).
    + assert (cl2 !! 0%nat = Some (c.1, p)) as Hc2.
      { rewrite Hcl2. apply list_lookup_insert_eq.
        by apply lookup_lt_Some in Hc0. }
      apply (by_index_spec σ2 node _ e1 cl2 0 (c.1, p) (Some NULL) H2 Hs2 Hc2).
Qed.

Lemma set_twice_overwrites_witness :
  ∃ σ1 σ2,
    mxmlElementSetAttr (Addr 1) (Some "id") (Some "7") lone_element
      = Some (tt, σ1) ∧
    mxmlElementSetAttr (Addr 1) (Some "id") (Some "8") σ1 = Some (tt, σ2) ∧
    attr_count σ2 (Addr 1) = Some 1 ∧
    attr_get σ2 (Addr 1) (Some "id") = Some (Some "8").
Proof.
  destruct (set_twice_overwrites lone_element (Addr 1) "id" (Some "7")
              (Some "8") eq_refl eq_refl eq_refl)
    as (σ1 & σ2 & R1 & R2 & Hc & Hg & _).
  exists σ1, σ2. split_and!; assumption.
Defined.

Lemma get_entry_Some name l v :
  get_entry name l = Some v → (name, Some v) ∈ l.
Proof.
  unfold get_entry. destruct (index_of name l) as [k|] eqn:Hi; [|done].
  destruct (index_of_Some _ _ _ Hi) as (v0 & Hk & _). rewrite Hk. simpl.
  intros ->. by apply list_elem_of_lookup_2 in Hk.
Qed.

Lemma attr_at_abs σ node n e cl k x :
  elem_at σ node n e → attr_store σ e cl → abs σ cl !! k = Some x →
  attr_at σ node (Z.of_nat k) = Some x.
Proof.
  intros H Hs Hk. unfold abs in Hk. rewrite list_lookup_fmap in Hk.
  destruct (cl !! k) as [c|] eqn:Hc; [|done]. injection Hk as <-.
  by apply (attr_at_spec _ _ n e cl).
Qed.

Lemma count_abs σ node n e cl :
  elem_at σ node n e → attr_store σ e cl →
  attr_count σ node = Some (Z.of_nat (length (abs σ cl))).
Proof.
  intros H Hs. unfold attr_count. rewrite (count_spec _ _ _ _ H). simpl.
  unfold abs. by rewrite length_fmap, (as_count _ _ _ Hs).
Qed.

(** C10.  Setting a name that the element does not have yet to an absent
    value appends an entry (the allocator granting the array and the copy
    of the name): the count grows by one and index access shows the entry,
    while [mxmlElementGetAttr] of that name returns null, as it did before
    the call. *)
Theorem set_absent_value_appends
    (σ : state) (node : ptr) (l : list (string * option string))
    (name : string) :
  wf_store σ node = true → attributes σ node = Some l →
  name ∉ l.*1 → Z.of_nat (length l) < INT_MAX → granted σ = true →
  ∃ σ',
    mxmlElementSetAttr node (Some name) None σ = Some (tt, σ') ∧
    attr_count σ node = Some (Z.of_nat (length l)) ∧
    attr_count σ' node = Some (Z.of_nat (length l) + 1) ∧
    attr_get σ node (Some name) = Some None ∧
    attr_get σ' node (Some name) = Some None ∧
    attributes σ' node = Some (l ++ [(name, None)]) ∧
    attr_at σ' node (Z.of_nat (length l)) = Some (name, None).
Proof.
  intros Hwf Hl Hnew Hlen Hg.
  destruct (wf_store_view σ node Hwf) as (n & e & cl & H & Hs & Hl' & Hc & Hn).
  rewrite Hl in Hl'. injection Hl' as ->.
  pose proof (proj2 (index_of_None name (abs σ cl)) Hnew) as Hi.
  destruct (SetAttr_granted σ node n e cl name None H Hs) as
    (σ' & e' & cl' & Hrun & H' & Hs' & _ & Habs & _); [lia|done|].
  unfold set_entry in Habs. rewrite Hi in Habs.
  assert (∀ l', name ∉ l'.*1 → get_entry name (l' ++ [(name, None)]) = None)
    as Hget.
  { intros l' Hl'. destruct (get_entry name (l' ++ [(name, None)])) as [v|]
      eqn:Hge; [|done].
    apply get_entry_Some, elem_of_app in Hge as [Hin|Hin].
    - destruct Hl'. apply list_elem_of_fmap. by exists (name, Some v).
    - by apply list_elem_of_singleton in Hin. }
  exists σ'. split_and!; try done.
  - by rewrite Hc, Hn.
  - rewrite (count_abs _ _ _ _ _ H' Hs'), Habs, length_app. simpl.
    f_equal. lia.
  - rewrite (attr_get_spec _ _ _ _ _ name H Hs). unfold get_entry.
    by rewrite Hi.
  - rewrite (attr_get_spec _ _ _ _ _ name H' Hs'), Habs. f_equal.
    by apply Hget.
  - by rewrite (attributes_spec _ _ _ _ _ H' Hs'), Habs.
  - apply (attr_at_abs _ _ _ _ _ _ _ H' Hs'). rewrite Habs.
    by apply list_lookup_middle.
Qed.

Lemma set_absent_value_appends_witness :
  ∃ σ',
    mxmlElementSetAttr (Addr 1) (Some "flag") None lone_element
      = Some (tt, σ') ∧
    attr_count σ' (Addr 1) = Some 1 ∧
    attr_get σ' (Addr 1) (Some "flag") = Some None ∧
    attr_at σ' (Addr 1) 0 = Some ("flag", None).
Proof.
  destruct (set_absent_value_appends lone_element (Addr 1) [] "flag")
    as (σ' & Hrun & _ & Hc & _ & Hg & _ & Hat).
  - reflexivity.
  - reflexivity.
  - apply not_elem_of_nil.
  - reflexivity.
  - reflexivity.
  - exists σ'. split_and!; assumption.
Defined.

Lemma index_of_app_miss {V} name (v : V) l1 l2 :
  name ∉ l1.*1 → index_of name (l1 ++ (name, v) :: l2) = Some (length l1).
Proof.
  induction l1 as [|[s w] l1 IH]; simpl; intros Hn.
  - by rewrite (proj2 (strcmp_0 name name) eq_refl).
  - apply not_elem_of_cons in Hn as [Hne Hn].
    rewrite strcmp_eqb, bool_decide_eq_false_2 by done.
    by rewrite (IH Hn).
Qed.

Lemma delete_middle {A} (l1 l2 : list A) x :
  delete (length l1) (l1 ++ x :: l2) = l1 ++ l2.
Proof. induction l1 as [|y l1 IH]; simpl; [done|by f_equal]. Qed.

(** C3.  Deleting an attribute closes the gap: the entries before it keep
    their index, the entries after it move one slot forward, and the count
    drops by one, so after [a], [b], [c] the deletion of [b] leaves [a] at
    index 0 and [c] at index 1.  The backing array, live before the call,
    is released by it exactly when no attribute is left. *)
Theorem delete_compacts
    (σ : state) (node : ptr) (l1 l2 : list (string * option string))
    (name : string) (v : option string) :
  wf_store σ node = true →
  attributes σ node = Some (l1 ++ (name, v) :: l2) →
  name ∉ l1.*1 →
  ∃ σ',
    mxmlElementDeleteAttr node (Some name) σ = Some (tt, σ') ∧
    wf_store σ' node = true ∧
    attr_count σ' node = Some (Z.of_nat (length l1 + length l2)) ∧
    attributes σ' node = Some (l1 ++ l2) ∧
    (∀ i x, l1 !! i = Some x → attr_at σ' node (Z.of_nat i) = Some x) ∧
    (∀ i x, l2 !! i = Some x →
       attr_at σ' node (Z.of_nat (length l1 + i)) = Some x) ∧
    (∃ e a, load_element node σ = Some (e, σ) ∧ attrs e = Addr a ∧
            is_Some (arrs σ !! a) ∧
            (l1 ++ l2 = [] → arrs σ' !! a = None) ∧
            (l1 ++ l2 ≠ [] → is_Some (arrs σ' !! a))).
Proof.
  intros Hwf Hl Hfirst.
  destruct (wf_store_view σ node Hwf) as (n & e & cl & H & Hs & Hl' & _ & Hn).
  rewrite Hl in Hl'. injection Hl' as Habs0.
  pose proof (index_of_app_miss name v l1 l2 Hfirst) as Hi.
  destruct (delete_spec σ node n e cl name H Hs)
    as (σ' & e' & cl' & Hrun & H' & _ & _ & _ & Hs' & _ & _ & Habs & Hpost).
  rewrite <- Habs0, Hi in Hpost. unfold delete_entry in Habs.
  rewrite <- Habs0, Hi, delete_middle in Habs.
  destruct Hpost as (_ & Hcnt & _ & Harr).
  exists σ'. split_and!; try done.
  - by apply (wf_store_complete _ _ _ _ _ H' Hs').
  - by rewrite (count_abs _ _ _ _ _ H' Hs'), Habs, length_app.
  - by rewrite (attributes_spec _ _ _ _ _ H' Hs'), Habs.
  - intros i x Hx. apply (attr_at_abs _ _ _ _ _ _ _ H' Hs'). rewrite Habs.
    by apply lookup_app_l_Some.
  - intros i x Hx. apply (attr_at_abs _ _ _ _ _ _ _ H' Hs'). rewrite Habs.
    rewrite lookup_app_r by lia. by replace (length l1 + i - length l1)%nat
      with i by lia.
  - destruct (as_block _ _ _ Hs) as (a & blk & He & Ha & _).
    { intros ->. by destruct l1. }
    exists e, a. split_and!; [by eapply elem_at_load|done|by rewrite Ha| |].
    + intros Hnil. specialize (Harr a He).
      rewrite Hcnt, Hn, <- Habs0, length_app in Harr. simpl in Harr.
      apply (f_equal length) in Hnil. rewrite length_app in Hnil.
      simpl in Hnil.
      destruct (Z.eqb_spec (Z.of_nat (length l1 + S (length l2)) - 1) 0);
        [done|lia].
    + intros Hne. specialize (Harr a He).
      rewrite Hcnt, Hn, <- Habs0, length_app in Harr. simpl in Harr.
      destruct (Z.eqb_spec (Z.of_nat (length l1 + S (length l2)) - 1) 0)
        as [Hz|]; [|done].
      destruct Hne. apply length_zero_iff_nil. rewrite length_app. lia.
Qed.

Lemma delete_compacts_witness :
  ∃ σ',
    mxmlElementDeleteAttr (Addr 1) (Some "b") abc_element = Some (tt, σ') ∧
    attr_count σ' (Addr 1) = Some 2 ∧
    attr_at σ' (Addr 1) 0 = Some ("a", Some "1") ∧
    attr_at σ' (Addr 1) 1 = Some ("c", Some "3").
Proof.
  destruct (delete_compacts abc_element (Addr 1) [("a", Some "1")]
              [("c", Some "3")] "b" (Some "2"))
    as (σ' & Hrun & _ & Hc & _ & H1 & H2 & _).
  - vm_compute. reflexivity.
  - vm_compute. reflexivity.
  - by intros [?|[]%elem_of_nil]%elem_of_cons.
  - exists σ'. split_and!.
    + exact Hrun.
    + exact Hc.
    + exact (H1 0%nat _ eq_refl).
    + exact (H2 0%nat _ eq_refl).
Defined.

(** ** Attribute store: allocation failure *)

Lemma attr_at_total σ node n e cl idx :
  elem_at σ node n e → attr_store σ e cl →
  attr_at σ node idx
    = if bool_decide (0 ≤ idx) then abs σ cl !! Z.to_nat idx else None.
Proof.
  intros H Hs. case_bool_decide as Hpos.
  - destruct (abs σ cl !! Z.to_nat idx) as [x|] eqn:Hx.
    + rewrite <- (Z2Nat.id idx) by done.
      by apply (attr_at_abs _ _ _ _ _ _ _ H Hs).
    + apply lookup_ge_None in Hx. unfold abs in Hx.
      rewrite length_fmap in Hx. unfold attr_at.
      rewrite (by_index_past_end σ node n e idx _ H); [done|].
      right. rewrite (as_count _ _ _ Hs). lia.
  - unfold attr_at.
    rewrite (by_index_past_end σ node n e idx _ H); [done|]. left. lia.
Qed.

Lemma attr_get_null σ node n e :
  elem_at σ node n e → attr_get σ node None = Some None.
Proof.
  intros H. unfold attr_get.
  by destruct (null_name_skips σ node n e None H) as [_ ->].
Qed.

Lemma same_store_intro σ σ' node n e n' e' cl :
  elem_at σ node n e → attr_store σ e cl →
  elem_at σ' node n' e' → attr_store σ' e' cl →
  abs σ' cl = abs σ cl → strs σ' = strs σ →
  same_store σ σ' node.
Proof.
  intros H Hs H' Hs' Habs HS. split_and!; [|  | | | |done].
  - by apply (wf_store_complete _ _ _ _ _ H' Hs').
  - by rewrite (count_abs _ _ _ _ _ H' Hs'), (count_abs _ _ _ _ _ H Hs), Habs.
  - by rewrite (attributes_spec _ _ _ _ _ H' Hs'),
      (attributes_spec _ _ _ _ _ H Hs), Habs.
  - intros idx. by rewrite (attr_at_total _ _ _ _ _ idx H' Hs'),
      (attr_at_total _ _ _ _ _ idx H Hs), Habs.
  - intros [name|].
    + by rewrite (attr_get_spec _ _ _ _ _ name H' Hs'),
        (attr_get_spec _ _ _ _ _ name H Hs), Habs.
    + by rewrite (attr_get_null _ _ _ _ H'), (attr_get_null _ _ _ _ H).
Qed.

Lemma set_post_refused σ σ' n e n' e' cl cl' node name vs p0 :
  elem_at σ node n e → attr_store σ e cl →
  elem_at σ' node n' e' → attr_store σ' e' cl' →
  set_post σ σ' e e' cl cl' name vs p0 →
  index_of name (abs σ cl) = None → refused p0 = true →
  sink σ' = sink σ ++ [alloc_failure_msg name (elem_name e)] ∧
  same_store σ σ' node.
Proof.
  intros H Hs H' Hs' Hpost Hi Hr. unfold set_post in Hpost.
  rewrite Hi in Hpost. destruct Hpost as [_ Hpost].
  unfold refused in Hr. apply negb_true_iff in Hr. rewrite Hr in Hpost.
  destruct Hpost as (-> & _ & HS & Habs & HK). split; [done|].
  by apply (same_store_intro σ σ' node n e n' e' cl).
Qed.

(** C6.  When the allocator refuses the array growth or the copy of the
    name while a new attribute is being added, the setter reports
    ["Unable to allocate memory for attribute '<name>' in element
    <element>!"] to the error sink once, the store of the element looks as
    before through count, index and name access and is still well formed,
    and the buffers that are live after the call are those that were live
    before it: the copy of the value made for the call is freed, not kept.

    The three parts are: [mxmlElementSetAttr], where the plan that decides
    on the array and the name is what is left after the request for the
    value copy (no such request when the value is null);
    [mxmlElementSetAttrf] once the formatted value was allocated; and
    [mxmlElementSetAttrf] when the formatted value itself is refused. *)
Theorem alloc_failure_keeps_store {va_list : Type}
    (vformat : string → va_list → string)
    (σ : state) (node : ptr) (l : list (string * option string))
    (name ename : string) (value : option string)
    (format : string) (ap : va_list) :
  wf_store σ node = true → attributes σ node = Some l →
  Get.mxmlGetElement σ node = Some (Some ename) →
  name ∉ l.*1 → Z.of_nat (length l) < INT_MAX →
  (refused (match value with Some _ => tail (plan σ) | None => plan σ end)
     = true →
   ∃ σ', mxmlElementSetAttr node (Some name) value σ = Some (tt, σ') ∧
         sink σ' = sink σ ++
           ["Unable to allocate memory for attribute '" +:+ name +:+
            "' in element " +:+ ename +:+ "!"] ∧
         same_store σ σ' node) ∧
  (grant1 σ = true → refused (tail (plan σ)) = true →
   ∃ σ', mxmlElementSetAttrf vformat node (Some name) (Some format) ap σ
           = Some (tt, σ') ∧
         sink σ' = sink σ ++
           ["Unable to allocate memory for attribute '" +:+ name +:+
            "' in element " +:+ ename +:+ "!"] ∧
         same_store σ σ' node) ∧
  (grant1 σ = false →
   ∃ σ', mxmlElementSetAttrf vformat node (Some name) (Some format) ap σ
           = Some (tt, σ') ∧
         sink σ' = sink σ ++
           ["Unable to allocate memory for attribute '" +:+ name +:+
            "' in element " +:+ ename +:+ "!"] ∧
         same_store σ σ' node).
Proof.
  intros Hwf Hl Hname Hnew Hlen.
  destruct (wf_store_view σ node Hwf) as (n & e & cl & H & Hs & Hl' & _ & Hn).
  rewrite Hl in Hl'. injection Hl' as ->.
  assert (ename = elem_name e) as ->.
  { unfold Get.mxmlGetElement in Hname.
    rewrite (elem_at_nonnull _ _ _ _ H) in Hname. simpl in Hname.
    destruct H as [Hld Hv]. rewrite Hld in Hname. simpl in Hname.
    unfold type, value_element in Hname. rewrite Hv in Hname. simpl in Hname.
    congruence. }
  pose proof (proj2 (index_of_None name (abs σ cl)) Hnew) as Hi.
  assert (num_attrs e < INT_MAX) as Hmax by lia.
  split_and!.
  - intros Hr.
    destruct (SetAttr_spec σ node n e cl name value H Hs Hmax)
      as (σ' & e' & cl' & Hrun & H' & _ & _ & Hs' & Hpost).
    exists σ'. split; [done|].
    by apply (set_post_refused σ σ' n e _ e' cl cl' node name _ _ H Hs H' Hs'
                Hpost).
  - intros Hg Hr.
    destruct (SetAttrf_spec vformat σ node n e cl name format ap H Hs Hmax)
      as (σ' & e' & cl' & Hrun & H' & _ & _ & Hs' & Hpost).
    rewrite Hg in Hpost. exists σ'. split; [done|].
    by apply (set_post_refused σ σ' n e _ e' cl cl' node name _ _ H Hs H' Hs'
                Hpost).
  - intros Hg.
    destruct (SetAttrf_spec vformat σ node n e cl name format ap H Hs Hmax)
      as (σ' & e' & cl' & Hrun & H' & _ & _ & Hs' & Hpost).
    rewrite Hg in Hpost. destruct Hpost as (-> & -> & HS & Habs & _ & HK).
    exists σ'. split; [done|]. split; [done|].
    by apply (same_store_intro σ σ' node n e _ e cl H Hs H' Hs').
Qed.

Lemma alloc_failure_keeps_store_witness :
  (∃ σ', mxmlElementSetAttr (Addr 1) (Some "id") (Some "7") growth_refused
           = Some (tt, σ') ∧
         sink σ' = ["Unable to allocate memory for attribute 'id' in element e!"] ∧
         same_store growth_refused σ' (Addr 1)) ∧
  (∃ σ', mxmlElementSetAttrf (λ f (_ : unit), f) (Addr 1) (Some "id")
           (Some "7") tt growth_refused = Some (tt, σ') ∧
         sink σ' = ["Unable to allocate memory for attribute 'id' in element e!"] ∧
         same_store growth_refused σ' (Addr 1)) ∧
  (∃ σ', mxmlElementSetAttrf (λ f (_ : unit), f) (Addr 1) (Some "id")
           (Some "7") tt format_refused = Some (tt, σ') ∧
         sink σ' = ["Unable to allocate memory for attribute 'id' in element e!"] ∧
         same_store format_refused σ' (Addr 1)).
Proof.
  destruct (alloc_failure_keeps_store (λ f (_ : unit), f) growth_refused
              (Addr 1) [] "id" "e" (Some "7") "7" tt)
    as (Hset & Hsetf & _);
    [reflexivity|reflexivity|reflexivity|apply not_elem_of_nil|reflexivity|].
  destruct (alloc_failure_keeps_store (λ f (_ : unit), f) format_refused
              (Addr 1) [] "id" "e" (Some "7") "7" tt)
    as (_ & _ & Hfmt);
    [reflexivity|reflexivity|reflexivity|apply not_elem_of_nil|reflexivity|].
  split_and!.
  - exact (Hset eq_refl).
  - exact (Hsetf eq_refl eq_refl).
  - exact (Hfmt eq_refl).
Defined.

(** ** Attribute store: uniqueness of names *)

Lemma names_insert_same (l : list (string * option string)) k name v v' :
  l !! k = Some (name, v) → (<[k:=(name, v')]> l).*1 = l.*1.
Proof.
  intros Hk. rewrite list_fmap_insert. simpl. apply list_insert_id.
  by rewrite list_lookup_fmap, Hk.
Qed.

Lemma NoDup_delete {A} (l : list A) k : NoDup l → NoDup (delete k l).
Proof. intros H. exact (sublist_NoDup _ _ H (sublist_delete l k)). Qed.

Lemma set_post_names σ σ' e e' cl cl' name vs p0 :
  set_post σ σ' e e' cl cl' name vs p0 → NoDup (abs σ cl).*1 →
  NoDup (abs σ' cl').*1 ∧ num_attrs e' ≤ num_attrs e + 1.
Proof.
  unfold set_post. intros Hpost Hnd.
  destruct (index_of name (abs σ cl)) as [k|] eqn:Hi.
  - destruct Hpost as (-> & _ & _ & -> & _). split; [|lia].
    destruct (index_of_Some _ _ _ Hi) as (v & Hk & _).
    by rewrite (names_insert_same _ _ _ _ _ Hk).
  - destruct Hpost as [_ Hpost].
    destruct (hd true p0 && hd true (tail p0)).
    + destruct Hpost as (_ & -> & ->). split; [|lia].
      rewrite fmap_app. simpl. apply NoDup_app. split_and!; [done| |].
      * intros x Hx ->%list_elem_of_singleton.
        by apply index_of_None in Hi.
      * apply NoDup_singleton.
    + destruct Hpost as (-> & -> & _ & -> & _). split; [done|lia].
Qed.

(** One mutator call keeps the store well formed and its names distinct,
    and adds at most one entry. *)
Lemma run_op_inv {va_list} (vformat : string → va_list → string)
    σ node n e cl op :
  elem_at σ node n e → attr_store σ e cl → NoDup (abs σ cl).*1 →
  num_attrs e < INT_MAX →
  ∃ σ' n' e' cl',
    run_op vformat node op σ = Some (tt, σ') ∧
    elem_at σ' node n' e' ∧ attr_store σ' e' cl' ∧
    NoDup (abs σ' cl').*1 ∧ num_attrs e' ≤ num_attrs e + 1.
Proof.
  intros H Hs Hnd Hmax.
  assert (Hskip : ∀ m : M unit, m σ = Some (tt, σ) →
            ∃ σ' n' e' cl', m σ = Some (tt, σ') ∧
              elem_at σ' node n' e' ∧ attr_store σ' e' cl' ∧
              NoDup (abs σ' cl').*1 ∧ num_attrs e' ≤ num_attrs e + 1).
  { intros m Hm. exists σ, n, e, cl. split_and!; try done. lia. }
  destruct op as [[name|] value|[name|] [format|] ap|[name|]]; simpl.
  - destruct (SetAttr_spec σ node n e cl name value H Hs Hmax)
      as (σ' & e' & cl' & Hrun & H' & _ & _ & Hs' & Hpost).
    destruct (set_post_names _ _ _ _ _ _ _ _ _ Hpost Hnd) as [Hnd' Hle].
    eexists σ', _, e', cl'. split_and!; done.
  - apply Hskip. by destruct (null_name_skips σ node n e value H).
  - destruct (SetAttrf_spec vformat σ node n e cl name format ap H Hs Hmax)
      as (σ' & e' & cl' & Hrun & H' & _ & _ & Hs' & Hpost).
    destruct (grant1 σ).
    + destruct (set_post_names _ _ _ _ _ _ _ _ _ Hpost Hnd) as [Hnd' Hle].
      eexists σ', _, e', cl'. split_and!; done.
    + destruct Hpost as (-> & -> & _ & Habs & _).
      eexists σ', _, e, cl. split_and!; try done; [by rewrite Habs|lia].
  - apply Hskip. unfold mxmlElementSetAttrf. by enter H.
  - apply Hskip. unfold mxmlElementSetAttrf. by enter H.
  - apply Hskip. unfold mxmlElementSetAttrf. by enter H.
  - destruct (delete_spec σ node n e cl name H Hs)
      as (σ' & e' & cl' & Hrun & H' & _ & _ & _ & Hs' & _ & _ & Habs & Hpost).
    eexists σ', _, e', cl'. split_and!; try done.
    + rewrite Habs. unfold delete_entry.
      destruct (index_of name (abs σ cl)); [|done].
      rewrite list_fmap_delete. by apply NoDup_delete.
    + destruct (index_of name (abs σ cl)).
      * destruct Hpost as (_ & -> & _). lia.
      * destruct Hpost as (_ & -> & _). lia.
  - apply Hskip. unfold mxmlElementDeleteAttr. by enter H.
Qed.

Lemma run_ops_inv {va_list} (vformat : string → va_list → string)
    node ops :
  ∀ σ n e cl,
    elem_at σ node n e → attr_store σ e cl → NoDup (abs σ cl).*1 →
    num_attrs e + Z.of_nat (length ops) ≤ INT_MAX →
    ∃ σ' n' e' cl',
      run_ops vformat node ops σ = Some (tt, σ') ∧
      elem_at σ' node n' e' ∧ attr_store σ' e' cl' ∧
      NoDup (abs σ' cl').*1.
Proof.
  induction ops as [|op ops IH]; intros σ n e cl H Hs Hnd Hlen.
  - by exists σ, n, e, cl.
  - simpl in Hlen.
    destruct (run_op_inv vformat σ node n e cl op H Hs Hnd)
      as (σ1 & n1 & e1 & cl1 & Hrun & H1 & Hs1 & Hnd1 & Hle); [lia|].
    destruct (IH σ1 n1 e1 cl1 H1 Hs1 Hnd1)
      as (σ' & n' & e' & cl' & Hrun' & H' & Hs' & Hnd'); [lia|].
    exists σ', n', e', cl'. split_and!; try done.
    simpl. by rewrite (bind_eq _ _ _ _ _ Hrun).
Qed.

(** C9.  Starting from an element without attributes, any sequence of
    calls of [mxmlElementSetAttr], [mxmlElementSetAttrf] and
    [mxmlElementDeleteAttr] on it, whatever their arguments and whatever
    the allocator answers, runs without fault and leaves a well-formed
    store whose names are pairwise distinct.  (The count is an [int]; the
    sequence is no longer than [INT_MAX].) *)
Theorem names_stay_unique {va_list : Type}
    (vformat : string → va_list → string)
    (σ : state) (node : ptr) (ops : list (attr_op va_list)) :
  wf_store σ node = true → attr_count σ node = Some 0 →
  Z.of_nat (length ops) ≤ INT_MAX →
  ∃ σ' l,
    run_ops vformat node ops σ = Some (tt, σ') ∧
    wf_store σ' node = true ∧
    attributes σ' node = Some l ∧ NoDup l.*1.
Proof.
  intros Hwf Hcount Hlen.
  destruct (wf_store_view σ node Hwf) as (n & e & cl & H & _ & _ & Hc & _).
  rewrite Hc in Hcount. injection Hcount as Hzero.
  destruct (run_ops_inv vformat node ops σ n e [] H)
    as (σ' & n' & e' & cl' & Hrun & H' & Hs' & Hnd').
  - by apply attr_store_empty.
  - apply NoDup_nil_2.
  - lia.
  - exists σ', (abs σ' cl'). split_and!; try done.
    + by apply (wf_store_complete _ _ _ _ _ H' Hs').
    + by apply (attributes_spec _ _ _ _ _ H' Hs').
Qed.

Lemma names_stay_unique_witness :
  ∃ σ' l,
    run_ops (λ f (_ : unit), f) (Addr 1)
      [SetAttr (Some "a") (Some "1"); SetAttrf (Some "b") (Some "2") tt;
       SetAttr (Some "a") None; DeleteAttr (Some "c");
       SetAttr (Some "c") (Some "3"); DeleteAttr (Some "a")]
      growth_refused = Some (tt, σ') ∧
    wf_store σ' (Addr 1) = true ∧
    attributes σ' (Addr 1) = Some l ∧ NoDup l.*1.
Proof.
  apply (names_stay_unique (λ f (_ : unit), f) growth_refused (Addr 1)).
  - reflexivity.
  - reflexivity.
  - vm_compute. discriminate.
Defined.

(** * Further properties of the attribute store and of the accessors *)

(** ** Lookup after update, on sequences of entries *)

Lemma index_of_names {V W} name (l : list (string * V))
    (l' : list (string * W)) :
  l.*1 = l'.*1 → index_of name l = index_of name l'.
Proof.
  revert l'. induction l as [|[s v] l IH]; intros [|[s' v'] l'] Heq;
    simpl in *; try done.
  injection Heq as -> Heq. by rewrite (IH l' Heq).
Qed.

Lemma index_of_app_hit {V} name (l l' : list (string * V)) k :
  index_of name l = Some k → index_of name (l ++ l') = Some k.
Proof.
  revert k. induction l as [|[s v] l IH]; intros k; simpl; [done|].
  destruct (strcmp s name =? 0); [done|].
  destruct (index_of name l) as [j|]; simpl; [|done].
  intros [= <-]. by rewrite (IH j eq_refl).
Qed.

Lemma index_of_app_None {V} name (l l' : list (string * V)) :
  index_of name l = None →
  index_of name (l ++ l') = (λ j, length l + j)%nat <$> index_of name l'.
Proof.
  induction l as [|[s v] l IH]; simpl.
  - intros _. by destruct (index_of name l').
  - destruct (strcmp s name =? 0); [done|].
    destruct (index_of name l) as [j|]; simpl; [done|].
    intros _. rewrite IH by done. by destruct (index_of name l').
Qed.

Lemma get_set_same name v l : get_entry name (set_entry name v l) = v.
Proof.
  unfold get_entry, set_entry.
  destruct (index_of name l) as [k|] eqn:Hi.
  - destruct (index_of_Some _ _ _ Hi) as (v0 & Hk & _).
    rewrite (index_of_names name _ l), Hi
      by (by apply (names_insert_same _ _ _ v0)).
    rewrite list_lookup_insert_eq; [done|]. by apply lookup_lt_Some in Hk.
  - rewrite (index_of_app_None _ _ _ Hi), index_of_head. simpl.
    rewrite Nat.add_0_r. by rewrite list_lookup_middle.
Qed.

Lemma get_set_other name other v l :
  other ≠ name → get_entry other (set_entry name v l) = get_entry other l.
Proof.
  intros Hne. unfold get_entry, set_entry.
  destruct (index_of name l) as [k|] eqn:Hi.
  - destruct (index_of_Some _ _ _ Hi) as (v0 & Hk & _).
    rewrite (index_of_names other _ l)
      by (by apply (names_insert_same _ _ _ v0)).
    destruct (index_of other l) as [j|] eqn:Hj; [|done].
    destruct (index_of_Some _ _ _ Hj) as (w & Hjl & _).
    rewrite list_lookup_insert_ne; [done|]. intros ->. congruence.
  - destruct (index_of other l) as [j|] eqn:Hj.
    + rewrite (index_of_app_hit _ _ _ _ Hj).
      rewrite lookup_app_l; [done|]. by apply index_of_lt in Hj.
    + rewrite (index_of_app_None _ _ _ Hj). simpl.
      by rewrite strcmp_eqb, bool_decide_eq_false_2 by done.
Qed.

(** ** Round trips and no-ops of the mutators *)

(** X1.  Deleting a name that the element does not have, or passing a null
    name, leaves the whole memory state as it is: no entry, count, buffer
    or diagnostic changes. *)
Theorem delete_missing_changes_nothing
    (σ : state) (node : ptr) (l : list (string * option string))
    (name : string) :
  wf_store σ node = true → attributes σ node = Some l → name ∉ l.*1 →
  mxmlElementDeleteAttr node (Some name) σ = Some (tt, σ) ∧
  mxmlElementDeleteAttr node None σ = Some (tt, σ).
Proof.
  intros Hwf Hl Hnew.
  destruct (wf_store_view σ node Hwf) as (n & e & cl & H & Hs & Hl' & _).
  rewrite Hl in Hl'. injection Hl' as ->.
  pose proof (proj2 (index_of_None name (abs σ cl)) Hnew) as Hi. split.
  - destruct (delete_spec σ node n e cl name H Hs)
      as (σ' & e' & cl' & Hrun & _ & _ & _ & _ & _ & _ & _ & _ & Hpost).
    rewrite Hi in Hpost. by destruct Hpost as (-> & _).
  - unfold mxmlElementDeleteAttr. by enter H.
Qed.

Lemma delete_missing_changes_nothing_witness :
  mxmlElementDeleteAttr (Addr 1) (Some "b2") abc_element
    = Some (tt, abc_element) ∧
  mxmlElementDeleteAttr (Addr 1) None abc_element = Some (tt, abc_element).
Proof.
  apply (delete_missing_changes_nothing abc_element (Addr 1)
           [("a", Some "1"); ("b", Some "2"); ("c", Some "3")] "b2").
  - vm_compute. reflexivity.
  - vm_compute. reflexivity.
  - vm_compute. intros H. by repeat (apply elem_of_cons in H as [H|H];
      [discriminate H|]); apply elem_of_nil in H.
Defined.

(** X2.  Insert and look up: after [mxmlElementSetAttr] of [name] to
    [value], with the allocations granted, [mxmlElementGetAttr] of [name]
    yields [value], and its answer for every other name is what it was
    before the call. *)
Theorem set_then_get
    (σ : state) (node : ptr) (l : list (string * option string))
    (name : string) (value : option string) :
  wf_store σ node = true → attributes σ node = Some l →
  Z.of_nat (length l) < INT_MAX → granted σ = true →
  ∃ σ',
    mxmlElementSetAttr node (Some name) value σ = Some (tt, σ') ∧
    attr_get σ' node (Some name) = Some value ∧
    ∀ other, other ≠ name →
      attr_get σ' node (Some other) = attr_get σ node (Some other).
Proof.
  intros Hwf Hl Hlen Hg.
  destruct (wf_store_view σ node Hwf) as (n & e & cl & H & Hs & Hl' & _ & Hn).
  rewrite Hl in Hl'. injection Hl' as ->.
  destruct (SetAttr_granted σ node n e cl name value H Hs) as
    (σ' & e' & cl' & Hrun & H' & Hs' & _ & Habs & _); [lia|done|].
  exists σ'. split_and!; [done| |].
  - by rewrite (attr_get_spec _ _ _ _ _ name H' Hs'), Habs, get_set_same.
  - intros other Hne.
    rewrite (attr_get_spec _ _ _ _ _ other H' Hs'), Habs.
    rewrite (attr_get_spec _ _ _ _ _ other H Hs).
    by rewrite get_set_other.
Qed.

Lemma set_then_get_witness :
  ∃ σ',
    mxmlElementSetAttr (Addr 1) (Some "b") (Some "two") abc_element
      = Some (tt, σ') ∧
    attr_get σ' (Addr 1) (Some "b") = Some (Some "two") ∧
    attr_get σ' (Addr 1) (Some "c") = Some (Some "3").
Proof.
  destruct (set_then_get abc_element (Addr 1)
              [("a", Some "1"); ("b", Some "2"); ("c", Some "3")] "b"
              (Some "two"))
    as (σ' & Hrun & Hget & Hother).
  - vm_compute. reflexivity.
  - vm_compute. reflexivity.
  - reflexivity.
  - vm_compute. reflexivity.
  - exists σ'. split_and!; [exact Hrun|exact Hget|].
    rewrite (Hother "c") by discriminate. vm_compute. reflexivity.
Defined.

(** ** Accounting of the character buffers *)

Lemma buffers_rel_trans σ σ0 σ' B B0 B' :
  (∀ a, a ∈ B → a ∈ B0) →
  buffers_rel σ σ0 B B0 → buffers_rel σ0 σ' B0 B' → buffers_rel σ σ' B B'.
Proof.
  intros Hsub (F1 & K1 & N1 & D1) (F2 & K2 & N2 & D2). split_and!; intros a.
  - intros Ha Ha'. destruct (decide (a ∈ B0)) as [H0|H0].
    + by rewrite (D2 a), (N1 a).
    + by rewrite (F2 a), (F1 a).
  - intros Ha Ha'. rewrite (K2 a), (K1 a); auto.
  - intros Ha Ha'. destruct (decide (a ∈ B0)) as [H0|H0].
    + by apply N1.
    + rewrite <- (F1 a) by done. by apply N2.
  - intros Ha Ha'. apply D2; auto.
Qed.

Lemma elem_of_ptr_addrs a p : a ∈ ptr_addrs p ↔ p = Addr a.
Proof.
  destruct p as [|b]; simpl.
  - split; [by intros ?%elem_of_nil|done].
  - rewrite list_elem_of_singleton. split; congruence.
Qed.

Lemma release_lookup_ne p (S : gmap addr string) a :
  p ≠ Addr a → release p S !! a = S !! a.
Proof.
  destruct p as [|b]; simpl; [done|]. intros H.
  apply lookup_delete_ne. congruence.
Qed.

Lemma release_lookup_eq (S : gmap addr string) a :
  release (Addr a) S !! a = None.
Proof. apply lookup_delete_eq. Qed.

(** The common end of the setters, seen from the buffers: the store's
    buffers and the value in hand before, the store's buffers after. *)
Lemma set_tail_buffers σ node n e cl name value :
  elem_at σ node n e → attr_store σ e cl → value_ok σ cl value →
  num_attrs e < INT_MAX →
  ∃ σ' e' cl',
    (let* r := mxml_set_attr node name value in
     if negb (r =? 0) then free_str value else ret tt) σ = Some (tt, σ') ∧
    elem_at σ' node (with_value (V_element e') n) e' ∧
    attr_store σ' e' cl' ∧
    buffers_rel σ σ' (owned cl ++ ptr_addrs value) (owned cl') ∧
    (index_of name (abs σ cl) = None → cl' = cl ∨ ∃ c, cl' = cl ++ [c]).
Proof.
  intros H Hs Hv Hmax.
  destruct (set_tail_spec σ node n e cl name value H Hs Hv Hmax)
    as (σ' & e' & cl' & Hrun & H' & _ & _ & Hs' & Hpost).
  exists σ', e', cl'. split_and!; [done|done|done| |].
  2:{ intros Hi. rewrite Hi in Hpost. destruct Hpost as [_ Hpost].
      destruct (grant1 σ && grant2 σ).
      - destruct Hpost as (_ & _ & _ & an & -> & _). right. by eexists.
      - destruct Hpost as (-> & _). by left. }
  assert (Hval : ∀ a, value = Addr a → is_Some (strs σ !! a) ∧ a ∉ owned cl)
    by exact Hv.
  pose proof (as_live _ _ _ Hs) as Hlive.
  destruct (index_of name (abs σ cl)) as [k|].
  - destruct Hpost as (_ & _ & _ & _ & c & Hc & -> & HS).
    pose proof (owned_lookup cl k c Hc) as Hperm.
    pose proof (owned_insert cl k c (c.1, value) Hc) as Hperm'.
    simpl in Hperm'.
    pose proof (as_nodup _ _ _ Hs) as Hnd. rewrite Hperm in Hnd.
    apply NoDup_cons in Hnd as [Hn1 Hnd].
    apply NoDup_app in Hnd as (_ & Hn2 & _).
    rewrite not_elem_of_app in Hn1. destruct Hn1 as [Hn1 _].
    assert (Hov : ∀ a, c.2 = Addr a → a ∉ owned (<[k:=(c.1, value)]> cl)).
    { intros a Ha. rewrite Hperm', elem_of_cons, elem_of_app.
      rewrite elem_of_ptr_addrs. intros [->|[->|Hin]].
      - apply Hn1. by apply elem_of_ptr_addrs.
      - destruct (Hval a eq_refl) as [_ Hno]. apply Hno.
        rewrite Hperm, elem_of_cons, elem_of_app, elem_of_ptr_addrs. auto.
      - apply (Hn2 a); [by apply elem_of_ptr_addrs|done]. }
    split_and!; intros a; rewrite ?HS.
    + intros Ha _. apply release_lookup_ne. intros Hc2. apply Ha.
      rewrite elem_of_app, Hperm, elem_of_cons, elem_of_app,
        elem_of_ptr_addrs. auto.
    + intros _ Ha'. apply release_lookup_ne. intros Hc2.
      by apply (Hov a Hc2).
    + intros Ha Ha'. destruct Ha.
      rewrite Hperm', elem_of_cons, elem_of_app in Ha'.
      rewrite elem_of_app, Hperm, elem_of_cons, !elem_of_app.
      destruct Ha' as [?|[?|?]]; auto.
    + intros Ha Ha'. assert (c.2 = Addr a) as Hc2.
      { apply elem_of_ptr_addrs.
        rewrite elem_of_app, Hperm, elem_of_cons, elem_of_app in Ha.
        rewrite Hperm', elem_of_cons, elem_of_app in Ha'.
        destruct Ha as [[?|[?|?]]|?]; try done; destruct Ha'; auto. }
      rewrite Hc2. apply release_lookup_eq.
  - destruct Hpost as [_ Hpost]. destruct (grant1 σ && grant2 σ).
    + destruct Hpost as (_ & _ & _ & an & -> & Han & HS).
      assert (Hin : ∀ a, a ∈ owned (cl ++ [(an, value)]) ↔
                         a ∈ owned cl ++ ptr_addrs value ∨ a = an).
      { intros a. rewrite owned_app, !elem_of_app. simpl.
        rewrite app_nil_r, elem_of_cons. tauto. }
      assert (Hold : ∀ a, a ∈ owned cl ++ ptr_addrs value → a ≠ an).
      { intros a [Ha|Ha]%elem_of_app ->.
        - apply Hlive in Ha as [? Ha]. congruence.
        - apply elem_of_ptr_addrs in Ha.
          destruct (Hval _ Ha) as [[? Hx] _]. congruence. }
      split_and!; intros a; rewrite ?HS.
      * intros _ Ha'. apply lookup_insert_ne. intros <-.
        apply Ha', Hin. by right.
      * intros Ha _. apply lookup_insert_ne. intros <-. by apply (Hold an).
      * intros Ha Ha'. apply Hin in Ha'. destruct Ha' as [?|Heq]; [done|].
        by rewrite Heq.
      * intros Ha Ha'. destruct Ha'. apply Hin. by left.
    + destruct Hpost as (-> & _ & HS & _).
      split_and!; intros a; rewrite ?HS.
      * intros Ha _. apply release_lookup_ne. intros Hc2. apply Ha.
        rewrite elem_of_app, elem_of_ptr_addrs. auto.
      * intros _ Ha'. apply release_lookup_ne. intros Hc2.
        by destruct (Hval a Hc2) as [_ ?].
      * intros Ha Ha'. destruct Ha. apply elem_of_app. auto.
      * intros [?|Ha]%elem_of_app Ha'; [done|].
        apply elem_of_ptr_addrs in Ha as ->. apply release_lookup_eq.
Qed.

Lemma buffers_rel_refl σ B : buffers_rel σ σ B B.
Proof. split_and!; intros a; done. Qed.

Lemma value_copied_buffers σ σ0 node n e cl p vs :
  elem_at σ node n e → attr_store σ e cl → value_copied σ σ0 p vs →
  elem_at σ0 node n e ∧ attr_store σ0 e cl ∧ value_ok σ0 cl p ∧
  buffers_rel σ σ0 (owned cl) (owned cl ++ ptr_addrs p).
Proof.
  intros H Hs (HN0 & HA0 & HK0 & Hcopy).
  pose proof (as_live _ _ _ Hs) as Hlive.
  assert (Hstr : ∀ x, x ∈ owned cl → strs σ0 !! x = strs σ !! x).
  { intros x Hx. destruct Hcopy as [(_ & _ & ->)|(av & v & _ & _ & Hav & ->)];
      [done|]. apply lookup_insert_ne. intros ->.
    apply Hlive in Hx as [? Hx]. congruence. }
  split_and!.
  - destruct H as [Hn Hv]. split; [|done]. destruct node; [done|].
    simpl in *. by rewrite HN0.
  - apply (attr_store_frame σ); [done|done|]. intros. by rewrite HA0.
  - intros av ->.
    destruct Hcopy as [(? & _)|(av' & v & [= <-] & _ & Hav & HS)]; [done|].
    split.
    + rewrite HS, lookup_insert_eq. eauto.
    + intros Hx. apply Hlive in Hx as [? Hx]. congruence.
  - destruct Hcopy as [(-> & _ & HS)|(av & v & -> & _ & Hav & HS)]; simpl.
    + rewrite app_nil_r. split_and!; intros a; rewrite ?HS; done.
    + split_and!; intros a; rewrite ?HS.
      * intros _ Ha'. apply lookup_insert_ne. intros <-. apply Ha'.
        apply elem_of_app. right. left.
      * intros Ha _. by rewrite <- HS, Hstr.
      * intros Ha [?|Ha']%elem_of_app; [done|].
        by apply list_elem_of_singleton in Ha' as ->.
      * intros Ha Ha'. destruct Ha'. apply elem_of_app. by left.
Qed.

Lemma set_value_buffers σ σ0 node n e cl name p vs :
  elem_at σ node n e → attr_store σ e cl → num_attrs e < INT_MAX →
  value_copied σ σ0 p vs →
  ∃ σ' e' cl',
    (let* r := mxml_set_attr node name p in
     if negb (r =? 0) then free_str p else ret tt) σ0 = Some (tt, σ') ∧
    elem_at σ' node (with_value (V_element e') n) e' ∧
    attr_store σ' e' cl' ∧ buffers_rel σ σ' (owned cl) (owned cl') ∧
    (index_of name (abs σ cl) = None → cl' = cl ∨ ∃ c, cl' = cl ++ [c]).
Proof.
  intros H Hs Hmax Hcopy.
  destruct (value_copied_buffers σ σ0 node n e cl p vs H Hs Hcopy)
    as (H0 & Hs0 & Hv0 & Hrel0).
  destruct (set_tail_buffers σ0 node n e cl name p H0 Hs0 Hv0 Hmax)
    as (σ' & e' & cl' & Hrun & H' & Hs' & Hrel & Hshape).
  exists σ', e', cl'. split_and!; [done|done|done| |].
  2:{ intros Hi. apply Hshape. rewrite <- Hi. f_equal. apply abs_frame.
      intros a Ha. destruct Hrel0 as (_ & K & _). apply K; [done|].
      apply elem_of_app. by left. }
  apply (buffers_rel_trans σ σ0 σ' _ (owned cl ++ ptr_addrs p)); [|done|done].
  intros a Ha. apply elem_of_app. by left.
Qed.

Lemma strdup_copied v σ :
  ∃ p σ0, strdup v σ = Some (p, σ0) ∧
          value_copied σ σ0 p (if grant1 σ then Some v else None).
Proof.
  destruct (strdup_spec v σ) as (p & σ0 & Hd & HN & HA & HK & HP & Hno & Hyes).
  exists p, σ0. split; [done|]. destruct (grant1 σ).
  - destruct (Hyes eq_refl) as (av & -> & Hav & HS).
    split_and!; try done. right. by exists av, v.
  - destruct (Hno eq_refl) as (-> & HS). split_and!; try done. by left.
Qed.

Lemma SetAttr_buffers σ node n e cl name value :
  elem_at σ node n e → attr_store σ e cl → num_attrs e < INT_MAX →
  ∃ σ' e' cl',
    mxmlElementSetAttr node (Some name) value σ = Some (tt, σ') ∧
    elem_at σ' node (with_value (V_element e') n) e' ∧
    attr_store σ' e' cl' ∧ buffers_rel σ σ' (owned cl) (owned cl') ∧
    (index_of name (abs σ cl) = None → cl' = cl ∨ ∃ c, cl' = cl ++ [c]).
Proof.
  intros H Hs Hmax. unfold mxmlElementSetAttr. enter H.
  destruct value as [v|].
  - destruct (strdup_copied v σ) as (p & σ0 & Hd & Hcopy).
    rewrite (bind_eq _ _ _ _ _ Hd).
    apply (set_value_buffers σ σ0 node n e cl name p _ H Hs Hmax Hcopy).
  - unfold bind at 1, ret.
    apply (set_value_buffers σ σ node n e cl name NULL None H Hs Hmax).
    split_and!; try done. by left.
Qed.

Lemma SetAttrf_buffers {va_list} (vformat : string → va_list → string)
    σ node n e cl name format ap :
  elem_at σ node n e → attr_store σ e cl → num_attrs e < INT_MAX →
  ∃ σ' e' cl',
    mxmlElementSetAttrf vformat node (Some name) (Some format) ap σ
      = Some (tt, σ') ∧
    elem_at σ' node (with_value (V_element e') n) e' ∧
    attr_store σ' e' cl' ∧ buffers_rel σ σ' (owned cl) (owned cl') ∧
    (index_of name (abs σ cl) = None → cl' = cl ∨ ∃ c, cl' = cl ++ [c]).
Proof.
  intros H Hs Hmax.
  destruct (SetAttrf_spec vformat σ node n e cl name format ap H Hs Hmax)
    as (σ1 & e1 & cl1 & Hrun1 & H1 & _ & _ & Hs1 & Hpost).
  destruct (grant1 σ) eqn:Hg.
  - revert Hrun1. unfold mxmlElementSetAttrf, _mxml_vstrdupf. enter H.
    destruct (strdup_copied (vformat format ap) σ) as (p & σ0 & Hd & Hcopy).
    rewrite (bind_eq _ _ _ _ _ Hd). rewrite Hg in Hcopy.
    assert (nonnull p = true) as ->.
    { destruct Hcopy as (_ & _ & _ & [(_ & ? & _)|(av & _ & -> & _)]); done. }
    simpl. intros _.
    apply (set_value_buffers σ σ0 node n e cl name p _ H Hs Hmax Hcopy).
  - destruct Hpost as (-> & -> & HS & _).
    exists σ1, e, cl. split_and!; [done|done|done| |by left].
    split_and!; intros a; rewrite ?HS; done.
Qed.

Lemma delete_buffers σ node n e cl name :
  elem_at σ node n e → attr_store σ e cl →
  ∃ σ' e' cl',
    mxmlElementDeleteAttr node (Some name) σ = Some (tt, σ') ∧
    elem_at σ' node (with_value (V_element e') n) e' ∧
    attr_store σ' e' cl' ∧ buffers_rel σ σ' (owned cl) (owned cl').
Proof.
  intros H Hs.
  destruct (delete_spec σ node n e cl name H Hs)
    as (σ' & e' & cl' & Hrun & H' & _ & _ & _ & Hs' & _ & _ & _ & Hpost).
  exists σ', e', cl'. split_and!; [done|done|done|].
  destruct (index_of name (abs σ cl)) as [k|].
  2:{ destruct Hpost as (-> & _ & ->). apply buffers_rel_refl. }
  destruct Hpost as (-> & _ & (c & Hc & HS) & _).
  pose proof (owned_lookup cl k c Hc) as Hperm.
  pose proof (as_nodup _ _ _ Hs) as Hnd. rewrite Hperm in Hnd.
  apply NoDup_cons in Hnd as [Hn1 Hnd].
  apply NoDup_app in Hnd as (_ & Hn2 & _).
  rewrite not_elem_of_app in Hn1. destruct Hn1 as [Hn1 Hn1'].
  split_and!; intros a; rewrite ?HS.
  - intros Ha _. rewrite release_lookup_ne, lookup_delete_ne; [done| |].
    + intros <-. apply Ha. rewrite Hperm. left.
    + intros Hc2. apply Ha.
      rewrite Hperm, elem_of_cons, elem_of_app, elem_of_ptr_addrs. auto.
  - intros _ Ha'. rewrite release_lookup_ne, lookup_delete_ne; [done| |].
    + by intros <-.
    + intros Hc2. apply (Hn2 a); [by apply elem_of_ptr_addrs|done].
  - intros Ha Ha'. destruct Ha.
    rewrite Hperm, elem_of_cons, elem_of_app. auto.
  - intros Ha Ha'. rewrite Hperm, elem_of_cons, elem_of_app in Ha.
    destruct Ha as [->|[Ha|?]]; [|  |done].
    + destruct (c.2) as [|ov]; simpl; [apply lookup_delete_eq|].
      destruct (decide (ov = c.1)) as [->|Hne]; [apply lookup_delete_eq|].
      rewrite lookup_delete_ne by done. apply lookup_delete_eq.
    + apply elem_of_ptr_addrs in Ha as ->. apply release_lookup_eq.
Qed.

Lemma store_buffers_owned σ node n e cl :
  elem_at σ node n e → attr_store σ e cl → store_buffers σ node = owned cl.
Proof.
  intros [Hn Hv] Hs. unfold store_buffers.
  by rewrite Hn, Hv, (store_entries_complete _ _ _ Hs).
Qed.

(** X3.  No mutator call leaks or steals a character buffer, whatever its
    arguments and whatever the allocator answers: buffers that the store
    of the element refers to neither before nor after the call are left
    as they are, buffers it refers to before and after keep their content,
    buffers it starts to refer to were not live before (they are fresh
    copies), and buffers it stops to refer to are freed. *)
Theorem mutators_account_for_buffers {va_list : Type}
    (vformat : string → va_list → string)
    (σ : state) (node : ptr) (c : Z) (op : attr_op va_list) :
  wf_store σ node = true → attr_count σ node = Some c → c < INT_MAX →
  ∃ σ',
    run_op vformat node op σ = Some (tt, σ') ∧
    wf_store σ' node = true ∧
    buffers_rel σ σ' (store_buffers σ node) (store_buffers σ' node).
Proof.
  intros Hwf Hcount Hlt.
  destruct (wf_store_view σ node Hwf) as (n & e & cl & H & Hs & _ & Hc & _).
  rewrite Hc in Hcount. injection Hcount as <-.
  rewrite (store_buffers_owned σ node n e cl H Hs).
  assert (Hskip : ∀ m : M unit, m σ = Some (tt, σ) →
            ∃ σ', m σ = Some (tt, σ') ∧ wf_store σ' node = true ∧
                  buffers_rel σ σ' (owned cl) (store_buffers σ' node)).
  { intros m Hm. exists σ. split_and!; [done|done|].
    rewrite (store_buffers_owned σ node n e cl H Hs). apply buffers_rel_refl. }
  assert (Hfin : ∀ (m : M unit) σ' e' cl',
            m σ = Some (tt, σ') →
            elem_at σ' node (with_value (V_element e') n) e' →
            attr_store σ' e' cl' → buffers_rel σ σ' (owned cl) (owned cl') →
            ∃ σ', m σ = Some (tt, σ') ∧ wf_store σ' node = true ∧
                  buffers_rel σ σ' (owned cl) (store_buffers σ' node)).
  { intros m σ' e' cl' Hm H' Hs' Hrel. exists σ'. split_and!; [done| |].
    - by apply (wf_store_complete _ _ _ _ _ H' Hs').
    - by rewrite (store_buffers_owned σ' node _ e' cl' H' Hs'). }
  destruct op as [[name|] value|[name|] [format|] ap|[name|]]; simpl.
  - destruct (SetAttr_buffers σ node n e cl name value H Hs Hlt)
      as (σ' & e' & cl' & Hrun & H' & Hs' & Hrel & _). by eapply Hfin.
  - apply Hskip. by destruct (null_name_skips σ node n e value H).
  - destruct (SetAttrf_buffers vformat σ node n e cl name format ap H Hs Hlt)
      as (σ' & e' & cl' & Hrun & H' & Hs' & Hrel & _). by eapply Hfin.
  - apply Hskip. unfold mxmlElementSetAttrf. by enter H.
  - apply Hskip. unfold mxmlElementSetAttrf. by enter H.
  - apply Hskip. unfold mxmlElementSetAttrf. by enter H.
  - destruct (delete_buffers σ node n e cl name H Hs)
      as (σ' & e' & cl' & Hrun & H' & Hs' & Hrel). by eapply Hfin.
  - apply Hskip. unfold mxmlElementDeleteAttr. by enter H.
Qed.

Lemma mutators_account_for_buffers_witness :
  ∃ σ',
    run_op (λ f (_ : unit), f) (Addr 1) (SetAttr (Some "b") (Some "two"))
      abc_element = Some (tt, σ') ∧
    wf_store σ' (Addr 1) = true ∧
    buffers_rel abc_element σ' (store_buffers abc_element (Addr 1))
      (store_buffers σ' (Addr 1)).
Proof.
  apply (mutators_account_for_buffers (λ f (_ : unit), f) abc_element
           (Addr 1) 3).
  - vm_compute. reflexivity.
  - vm_compute. reflexivity.
  - reflexivity.
Defined.

(** X4.  Insert and delete: setting a name that the element does not have
    and then deleting it gives back the sequence of entries and the count
    the element had, and the live character buffers are those from before
    the two calls. *)
Theorem set_then_delete_restores
    (σ : state) (node : ptr) (l : list (string * option string))
    (name : string) (value : option string) :
  wf_store σ node = true → attributes σ node = Some l → name ∉ l.*1 →
  Z.of_nat (length l) < INT_MAX → granted σ = true →
  ∃ σ1 σ2,
    mxmlElementSetAttr node (Some name) value σ = Some (tt, σ1) ∧
    mxmlElementDeleteAttr node (Some name) σ1 = Some (tt, σ2) ∧
    attributes σ1 node = Some (l ++ [(name, value)]) ∧
    attributes σ2 node = Some l ∧
    attr_count σ2 node = attr_count σ node ∧
    strs σ2 = strs σ.
Proof.
  intros Hwf Hl Hnew Hlen Hg.
  destruct (wf_store_view σ node Hwf) as (n & e & cl & H & Hs & Hl' & _ & Hn).
  rewrite Hl in Hl'. injection Hl' as ->.
  pose proof (proj2 (index_of_None name (abs σ cl)) Hnew) as Hi.
  destruct (SetAttr_granted σ node n e cl name value H Hs) as
    (σ1 & e1 & cl1 & Hrun1 & H1 & Hs1 & _ & Habs1 & _); [lia|done|].
  unfold set_entry in Habs1. rewrite Hi in Habs1.
  destruct (SetAttr_buffers σ node n e cl name value H Hs) as
    (σ1' & e1' & cl1' & Hrun1' & H1' & Hs1' & Hrel1 & Hshape); [lia|].
  rewrite Hrun1 in Hrun1'. injection Hrun1' as <-.
  destruct (elem_at_inj _ _ _ _ _ _ H1 H1') as [_ <-].
  assert (cl1' = cl1) as ->.
  { pose proof (store_entries_complete _ _ _ Hs1).
    pose proof (store_entries_complete _ _ _ Hs1'). congruence. }
  assert (length cl1 = S (length cl)) as Hlen1.
  { apply (f_equal length) in Habs1. unfold abs in Habs1.
    rewrite length_app, !length_fmap in Habs1. simpl in Habs1. lia. }
  destruct (Hshape Hi) as [->|[c ->]]; [lia|]. clear Hshape.
  destruct (delete_spec σ1 node _ e1 _ name H1 Hs1)
    as (σ2 & e2 & cl2 & Hrun2 & H2 & _ & _ & _ & Hs2 & _ & _ & Habs2 & Hpost).
  assert (index_of name (abs σ1 (cl ++ [c])) = Some (length (abs σ cl)))
    as Hi1.
  { rewrite Habs1. by apply index_of_app_miss. }
  unfold delete_entry in Habs2. rewrite Hi1 in Habs2, Hpost.
  rewrite Habs1, delete_middle, app_nil_r in Habs2.
  destruct Hpost as (-> & _).
  destruct (delete_buffers σ1 node _ e1 _ name H1 Hs1)
    as (σ2' & e2' & cl2' & Hrun2' & H2' & Hs2' & Hrel2).
  rewrite Hrun2 in Hrun2'. injection Hrun2' as <-.
  destruct (elem_at_inj _ _ _ _ _ _ H2 H2') as [_ <-].
  assert (cl2' = cl) as ->.
  { pose proof (store_entries_complete _ _ _ Hs2) as E1.
    pose proof (store_entries_complete _ _ _ Hs2') as E2.
    rewrite E1 in E2. injection E2 as <-.
    unfold abs. rewrite length_fmap. by rewrite delete_middle, app_nil_r. }
  assert (Hrel : buffers_rel σ σ2 (owned cl) (owned cl)).
  { apply (buffers_rel_trans σ σ1 σ2 _ (owned (cl ++ [c]))); [|done|done].
    intros a Ha. rewrite owned_app. apply elem_of_app. by left. }
  exists σ1, σ2. split_and!; try done.
  - by rewrite (attributes_spec _ _ _ _ _ H1 Hs1), Habs1.
  - by rewrite (attributes_spec _ _ _ _ _ H2 Hs2), Habs2.
  - by rewrite (count_abs _ _ _ _ _ H2 Hs2), (count_abs _ _ _ _ _ H Hs), Habs2.
  - apply map_eq. intros a. destruct Hrel as (F & K & _).
    destruct (decide (a ∈ owned cl)); [by apply K|by apply F].
Qed.

Lemma set_then_delete_restores_witness :
  ∃ σ1 σ2,
    mxmlElementSetAttr (Addr 1) (Some "d") (Some "4") abc_element
      = Some (tt, σ1) ∧
    mxmlElementDeleteAttr (Addr 1) (Some "d") σ1 = Some (tt, σ2) ∧
    attributes σ2 (Addr 1)
      = Some [("a", Some "1"); ("b", Some "2"); ("c", Some "3")] ∧
    strs σ2 = strs abc_element.
Proof.
  destruct (set_then_delete_restores abc_element (Addr 1)
              [("a", Some "1"); ("b", Some "2"); ("c", Some "3")] "d"
              (Some "4"))
    as (σ1 & σ2 & R1 & R2 & _ & Hl & _ & HS).
  - vm_compute. reflexivity.
  - vm_compute. reflexivity.
  - vm_compute. intros H. by repeat (apply elem_of_cons in H as [H|H];
      [discriminate H|]); apply elem_of_nil in H.
  - reflexivity.
  - vm_compute. reflexivity.
  - exists σ1, σ2. split_and!; assumption.
Defined.

(** ** The formatted setter, checks on the node, refused copies *)

(** [mxmlElementSetAttr] on a name the store has: the slot is rewritten in
    place, whatever the count is. *)
Lemma SetAttr_hit σ node n e cl name value k :
  elem_at σ node n e → attr_store σ e cl →
  index_of name (abs σ cl) = Some k →
  ∃ σ' c p,
    mxmlElementSetAttr node (Some name) value σ = Some (tt, σ') ∧
    elem_at σ' node n e ∧ cl !! k = Some c ∧
    attr_store σ' e (<[k:=(c.1, p)]> cl) ∧
    abs σ' (<[k:=(c.1, p)]> cl)
      = <[k:=(name, match value with
                    | Some v => if grant1 σ then Some v else None
                    | None => None
                    end)]> (abs σ cl) ∧
    plan σ' = match value with Some _ => tail (plan σ) | None => plan σ end ∧
    sink σ' = sink σ ∧
    (∀ a, c.2 = Addr a → strs σ' !! a = None) ∧
    (∀ a, a ∈ owned cl → c.2 ≠ Addr a → strs σ' !! a = strs σ !! a).
Proof.
  intros H Hs Hi. unfold mxmlElementSetAttr. enter H.
  assert (∃ p σ0 vs,
    match value with Some v => strdup v | None => ret NULL end σ
      = Some (p, σ0) ∧
    value_copied σ σ0 p vs ∧
    vs = match value with
         | Some v => if grant1 σ then Some v else None
         | None => None
         end ∧
    plan σ0 = match value with Some _ => tail (plan σ) | None => plan σ end)
    as (p & σ0 & vs & Hdup & Hcopy & <- & HP0).
  { destruct value as [v|].
    - destruct (strdup_spec v σ) as (p & σ0 & Hd & HN & HA & HK & HP & Hno & Hyes).
      exists p, σ0. destruct (grant1 σ).
      + destruct (Hyes eq_refl) as (av & -> & Hav & HS).
        eexists. split; [done|]. split; [|done].
        split_and!; try done. right. by exists av, v.
      + destruct (Hno eq_refl) as (-> & HS).
        eexists. split; [done|]. split; [|done].
        split_and!; try done. by left.
    - exists NULL, σ, None. split; [done|]. split; [|done].
      split_and!; try done. by left. }
  rewrite (bind_eq _ _ _ _ _ Hdup).
  destruct (value_copied_buffers σ σ0 node n e cl p vs H Hs Hcopy)
    as (H0 & Hs0 & Hv0 & Hrel0).
  assert (Hstr : ∀ a, a ∈ owned cl → strs σ0 !! a = strs σ !! a).
  { intros a Ha. destruct Hrel0 as (_ & K & _). apply K; [done|].
    apply elem_of_app. by left. }
  pose proof (abs_frame σ σ0 cl Hstr) as Habs0.
  assert (val_of σ0 p = vs) as Hval.
  { destruct Hcopy as (_ & _ & _ & [(-> & -> & _)|(av & v & -> & -> & _ & HS)]);
      [done|]. simpl. unfold str_of. by rewrite HS, lookup_insert_eq. }
  rewrite <- Habs0 in Hi.
  destruct (set_attr_hit σ0 node n e cl name p k H0 Hs0 Hv0 Hi)
    as (σ' & c & Hc & Hrun & HN & HP & HK & HS & Hs' & Habs').
  rewrite (bind_eq _ _ _ _ _ Hrun). simpl. unfold ret.
  exists σ', c, p. split_and!; try done.
  - destruct H0 as [Hn Hv]. split; [|done]. destruct node; [done|].
    simpl in *. by rewrite HN.
  - by rewrite Habs', Hval, Habs0.
  - by rewrite HP.
  - rewrite HK. by destruct Hcopy as (_ & _ & -> & _).
  - intros a Ha. rewrite HS, Ha. apply release_lookup_eq.
  - intros a Ha Hne. rewrite HS, release_lookup_ne by done. by apply Hstr.
Qed.

(** X5.  Once the allocator has granted the formatted value,
    [mxmlElementSetAttrf] does what [mxmlElementSetAttr] does with the
    rendered text: the two calls have the same outcome and leave the same
    memory, for every node and every name, the null ones included. *)
Theorem setf_agrees_with_set {va_list : Type}
    (vformat : string → va_list → string)
    (σ : state) (node : ptr) (name : option string) (format : string)
    (ap : va_list) :
  grant1 σ = true →
  mxmlElementSetAttrf vformat node name (Some format) ap σ
    = mxmlElementSetAttr node name (Some (vformat format ap)) σ.
Proof.
  intros Hg. unfold mxmlElementSetAttrf, mxmlElementSetAttr, _mxml_vstrdupf.
  destruct (nonnull node); simpl; [|done].
  destruct (deref_node node σ) as [[n σ0]|] eqn:Hd;
    [|unfold bind; by rewrite Hd].
  rewrite (bind_eq _ _ _ _ _ Hd), (bind_eq _ _ _ _ _ Hd).
  destruct (bool_decide (type n = MXML_ELEMENT)); simpl; [|done].
  destruct name as [name|]; [|done].
  destruct (strdup_spec (vformat format ap) σ0)
    as (p & σ1 & Hdup & _ & _ & _ & _ & _ & Hyes).
  assert (σ0 = σ) as ->.
  { unfold deref_node, lift in Hd. destruct (load_node σ node); congruence. }
  destruct (Hyes Hg) as (a & -> & _).
  by rewrite (bind_eq _ _ _ _ _ Hdup), (bind_eq _ _ _ _ _ Hdup).
Qed.

Lemma setf_agrees_with_set_witness :
  mxmlElementSetAttrf (λ f (_ : unit), f) (Addr 1) (Some "b") (Some "%d") tt
      abc_element
    = mxmlElementSetAttr (Addr 1) (Some "b") (Some "%d") abc_element.
Proof.
  apply (setf_agrees_with_set (λ f (_ : unit), f)). vm_compute. reflexivity.
Defined.

(** X6.  On a node for which [mxmlGetType] does not answer
    [MXML_ELEMENT], the null pointer included, the attribute functions do
    nothing: the three mutators leave the memory as it is and ask the
    allocator for nothing, [mxmlElementGetAttr] returns null and
    [mxmlElementGetAttrCount] returns 0. *)
Theorem attr_calls_skip_non_elements {va_list : Type}
    (vformat : string → va_list → string)
    (σ : state) (node : ptr) (t : mxml_type_t) (op : attr_op va_list)
    (name : option string) :
  Get.mxmlGetType σ node = Some t → t ≠ MXML_ELEMENT →
  run_op vformat node op σ = Some (tt, σ) ∧
  mxmlElementGetAttr node name σ = Some (NULL, σ) ∧
  mxmlElementGetAttrCount node σ = Some (0, σ).
Proof.
  unfold Get.mxmlGetType. intros Ht Hne.
  destruct node as [|a]; [by destruct op|]. simpl in Ht.
  destruct (nodes σ !! a) as [n|] eqn:Hn; [|done]. injection Ht as <-.
  assert (deref_node (Addr a) σ = Some (n, σ)) as Hd.
  { unfold deref_node. simpl. by rewrite Hn. }
  split_and!.
  - destruct op; simpl; unfold mxmlElementSetAttr, mxmlElementSetAttrf,
      mxmlElementDeleteAttr; simpl; rewrite (bind_eq _ _ _ _ _ Hd);
      by rewrite bool_decide_eq_false_2.
  - unfold mxmlElementGetAttr. simpl. rewrite (bind_eq _ _ _ _ _ Hd).
    by rewrite bool_decide_eq_false_2.
  - unfold mxmlElementGetAttrCount. simpl. rewrite (bind_eq _ _ _ _ _ Hd).
    by rewrite bool_decide_eq_false_2.
Qed.

Lemma attr_calls_skip_non_elements_witness :
  run_op (λ f (_ : unit), f) (Addr 3) (SetAttr (Some "a") (Some "1"))
         nested_tree = Some (tt, nested_tree) ∧
  mxmlElementGetAttr (Addr 3) (Some "a") nested_tree
    = Some (NULL, nested_tree) ∧
  mxmlElementGetAttrCount (Addr 3) nested_tree = Some (0, nested_tree).
Proof.
  apply (attr_calls_skip_non_elements _ nested_tree (Addr 3) MXML_INTEGER).
  - vm_compute. reflexivity.
  - discriminate.
Defined.

(** X7.  When the allocator refuses the copy of the value,
    [mxmlElementSetAttr] goes on with a null value: an attribute that had
    a value ends up with none, at its place in the sequence, and no
    diagnostic is given. *)
Theorem refused_value_copy_stores_null
    (σ : state) (node : ptr) (l1 l2 : list (string * option string))
    (name v : string) (v0 : option string) :
  wf_store σ node = true →
  attributes σ node = Some (l1 ++ (name, v0) :: l2) → name ∉ l1.*1 →
  grant1 σ = false →
  ∃ σ',
    mxmlElementSetAttr node (Some name) (Some v) σ = Some (tt, σ') ∧
    wf_store σ' node = true ∧
    attributes σ' node = Some (l1 ++ (name, None) :: l2) ∧
    attr_get σ' node (Some name) = Some None ∧
    sink σ' = sink σ ∧ plan σ' = tail (plan σ).
Proof.
  intros Hwf Hl Hnew Hg.
  destruct (wf_store_view σ node Hwf) as (n & e & cl & H & Hs & Hl' & _).
  rewrite Hl in Hl'. injection Hl' as Hl'.
  assert (index_of name (abs σ cl) = Some (length l1)) as Hi.
  { rewrite <- Hl'. by apply index_of_app_miss. }
  destruct (SetAttr_hit σ node n e cl name (Some v) _ H Hs Hi)
    as (σ' & c & p & Hrun & H' & Hc & Hs' & Habs & HP & HK & _).
  rewrite Hg, <- Hl' in Habs.
  rewrite insert_app_r_alt, Nat.sub_diag in Habs by lia. simpl in Habs.
  exists σ'. split_and!; try done.
  - by apply (wf_store_complete _ _ _ _ _ H' Hs').
  - by rewrite (attributes_spec _ _ _ _ _ H' Hs'), Habs.
  - rewrite (attr_get_spec _ _ _ _ _ name H' Hs'), Habs.
    unfold get_entry. rewrite (index_of_app_miss _ _ _ _ Hnew).
    by rewrite lookup_app_r, Nat.sub_diag by lia.
Qed.

Lemma refused_value_copy_stores_null_witness :
  ∃ σ',
    mxmlElementSetAttr (Addr 1) (Some "b") (Some "two")
        (State (nodes abc_element) (strs abc_element) (arrs abc_element)
               (used abc_element) [false] [])
      = Some (tt, σ') ∧
    attributes σ' (Addr 1)
      = Some [("a", Some "1"); ("b", None); ("c", Some "3")] ∧
    sink σ' = [].
Proof.
  destruct (refused_value_copy_stores_null
              (State (nodes abc_element) (strs abc_element)
                     (arrs abc_element) (used abc_element) [false] [])
              (Addr 1) [("a", Some "1")] [("c", Some "3")] "b" "two"
              (Some "2"))
    as (σ' & Hrun & _ & Hl & _ & HK & _).
  - vm_compute. reflexivity.
  - vm_compute. reflexivity.
  - vm_compute. intros H. by repeat (apply elem_of_cons in H as [H|H];
      [discriminate H|]); apply elem_of_nil in H.
  - reflexivity.
  - exists σ'. split_and!; assumption.
Defined.

(** X8.  A value pointer handed out by [mxmlElementGetAttr] refers to the
    buffer the store owns: it is live, and it is freed by the next
    [mxmlElementSetAttr] of that name, whatever the new value is, and by
    [mxmlElementDeleteAttr] of that name. *)
Theorem replaced_value_is_freed
    (σ : state) (node : ptr) (name : string) (value : option string)
    (a : addr) :
  wf_store σ node = true →
  mxmlElementGetAttr node (Some name) σ = Some (Addr a, σ) →
  is_Some (strs σ !! a) ∧
  (∃ σ', mxmlElementSetAttr node (Some name) value σ = Some (tt, σ') ∧
         strs σ' !! a = None) ∧
  (∃ σ', mxmlElementDeleteAttr node (Some name) σ = Some (tt, σ') ∧
         strs σ' !! a = None).
Proof.
  intros Hwf Hget.
  destruct (wf_store_view σ node Hwf) as (n & e & cl & H & Hs & _).
  rewrite (get_attr_spec _ _ _ _ _ name H Hs) in Hget.
  destruct (index_of name (abs σ cl)) as [k|] eqn:Hi; [|done].
  destruct (cl !! k) as [c|] eqn:Hc; [|done]. simpl in Hget.
  assert (c.2 = Addr a) as Hca by congruence.
  split_and!.
  - apply (as_live _ _ _ Hs). by apply (owned_entry cl k c Hc).
  - destruct (SetAttr_hit σ node n e cl name value k H Hs Hi)
      as (σ' & c' & p & Hrun & _ & Hc' & _ & _ & _ & _ & Hfree & _).
    exists σ'. split; [done|]. apply Hfree. congruence.
  - destruct (delete_spec σ node n e cl name H Hs)
      as (σ' & e' & cl' & Hrun & _ & _ & _ & _ & _ & _ & _ & _ & Hpost).
    rewrite Hi in Hpost. destruct Hpost as (_ & _ & (c' & Hc' & HS) & _).
    exists σ'. split; [done|]. rewrite HS.
    assert (c' = c) as -> by congruence.
    rewrite Hca. apply release_lookup_eq.
Qed.

Lemma replaced_value_is_freed_witness :
  ∃ a σ',
    mxmlElementGetAttr (Addr 1) (Some "b") abc_element
      = Some (Addr a, abc_element) ∧
    mxmlElementSetAttr (Addr 1) (Some "b") (Some "two") abc_element
      = Some (tt, σ') ∧
    strs abc_element !! a = Some "2" ∧ strs σ' !! a = None.
Proof.
  assert (∃ a, mxmlElementGetAttr (Addr 1) (Some "b") abc_element
                 = Some (Addr a, abc_element) ∧
               strs abc_element !! a = Some "2") as (a & Hget & Ha).
  { vm_compute. eexists. split; reflexivity. }
  destruct (replaced_value_is_freed abc_element (Addr 1) "b" (Some "two") a)
    as (_ & (σ' & Hrun & Hfree) & _).
  - vm_compute. reflexivity.
  - exact Hget.
  - exists a, σ'. split_and!; assumption.
Defined.

(** ** Lookup by name and by index, sequences of calls *)

(** X9.  In a store whose names are pairwise distinct the two ways of
    reading agree: [mxmlElementGetAttr] yields the value [v] for [name]
    exactly when [mxmlElementGetAttrByIndex] shows the entry [(name, v)] at
    some index. *)
Theorem get_agrees_with_index
    (σ : state) (node : ptr) (l : list (string * option string))
    (name v : string) :
  wf_store σ node = true → attributes σ node = Some l → NoDup l.*1 →
  attr_get σ node (Some name) = Some (Some v) ↔
  ∃ idx, attr_at σ node idx = Some (name, Some v).
Proof.
  intros Hwf Hl Hnd.
  destruct (wf_store_view σ node Hwf) as (n & e & cl & H & Hs & Hl' & _).
  rewrite Hl in Hl'. injection Hl' as ->.
  rewrite (attr_get_spec _ _ _ _ _ name H Hs). split.
  - intros [= Hget]. unfold get_entry in Hget.
    destruct (index_of name (abs σ cl)) as [k|] eqn:Hi; [|done].
    destruct (index_of_Some _ _ _ Hi) as (v0 & Hk & _).
    rewrite Hk in Hget. simpl in Hget. subst v0.
    exists (Z.of_nat k). by apply (attr_at_abs _ _ _ _ _ _ _ H Hs).
  - intros [idx Hat].
    rewrite (attr_at_total _ _ _ _ _ idx H Hs) in Hat.
    case_bool_decide; [|done].
    f_equal. unfold get_entry.
    destruct (index_of name (abs σ cl)) as [k|] eqn:Hi.
    + destruct (index_of_Some _ _ _ Hi) as (v0 & Hk & _).
      assert (k = Z.to_nat idx) as ->.
      { apply (NoDup_lookup _ _ _ name Hnd); rewrite list_lookup_fmap.
        - by rewrite Hk.
        - by rewrite Hat. }
      by rewrite Hat.
    + apply index_of_None in Hi. destruct Hi.
      apply list_elem_of_lookup_2 in Hat.
      by apply (list_elem_of_fmap_2 fst) in Hat.
Qed.

Lemma get_agrees_with_index_witness :
  attr_get abc_element (Addr 1) (Some "b") = Some (Some "2") ↔
  ∃ idx, attr_at abc_element (Addr 1) idx = Some ("b", Some "2").
Proof.
  apply (get_agrees_with_index abc_element (Addr 1)
           [("a", Some "1"); ("b", Some "2"); ("c", Some "3")]).
  - vm_compute. reflexivity.
  - vm_compute. reflexivity.
  - apply (bool_decide_eq_true_1 (NoDup ["a"; "b"; "c"])).
    vm_compute. reflexivity.
Defined.

Lemma get_entry_cons name s v l :
  get_entry name ((s, v) :: l)
    = if bool_decide (s = name) then v else get_entry name l.
Proof.
  unfold get_entry. simpl. rewrite strcmp_eqb.
  case_bool_decide; [done|]. by destruct (index_of name l).
Qed.

Lemma delete_entry_cons name s v l :
  delete_entry name ((s, v) :: l)
    = if bool_decide (s = name) then l else (s, v) :: delete_entry name l.
Proof.
  unfold delete_entry. simpl. rewrite strcmp_eqb.
  case_bool_decide; [done|]. by destruct (index_of name l).
Qed.

Lemma get_delete_other name other l :
  other ≠ name → get_entry other (delete_entry name l) = get_entry other l.
Proof.
  intros Hne. induction l as [|[s v] l IH]; [done|].
  rewrite delete_entry_cons. case_bool_decide as Hs.
  - rewrite get_entry_cons, bool_decide_eq_false_2; [done|congruence].
  - rewrite !get_entry_cons. by rewrite IH.
Qed.

Lemma get_delete_same name l :
  NoDup l.*1 → get_entry name (delete_entry name l) = None.
Proof.
  induction l as [|[s v] l IH]; [done|]. simpl.
  intros [Hs Hnd]%NoDup_cons. rewrite delete_entry_cons.
  case_bool_decide as Heq.
  - subst s. unfold get_entry.
    by rewrite (proj2 (index_of_None name l) Hs).
  - rewrite get_entry_cons, bool_decide_eq_false_2 by done. by apply IH.
Qed.

(** X10.  Delete and look up: in a store whose names are pairwise distinct,
    after [mxmlElementDeleteAttr] of [name] the lookup of [name] yields
    null, and the lookup of every other name yields what it did before. *)
Theorem delete_then_get
    (σ : state) (node : ptr) (l : list (string * option string))
    (name : string) :
  wf_store σ node = true → attributes σ node = Some l → NoDup l.*1 →
  ∃ σ',
    mxmlElementDeleteAttr node (Some name) σ = Some (tt, σ') ∧
    attr_get σ' node (Some name) = Some None ∧
    ∀ other, other ≠ name →
      attr_get σ' node (Some other) = attr_get σ node (Some other).
Proof.
  intros Hwf Hl Hnd.
  destruct (wf_store_view σ node Hwf) as (n & e & cl & H & Hs & Hl' & _).
  rewrite Hl in Hl'. injection Hl' as ->.
  destruct (delete_spec σ node n e cl name H Hs)
    as (σ' & e' & cl' & Hrun & H' & _ & _ & _ & Hs' & _ & _ & Habs & _).
  exists σ'. split_and!; [done| |].
  - rewrite (attr_get_spec _ _ _ _ _ name H' Hs'), Habs.
    by rewrite get_delete_same.
  - intros other Hne.
    rewrite (attr_get_spec _ _ _ _ _ other H' Hs'), Habs.
    rewrite (attr_get_spec _ _ _ _ _ other H Hs).
    by rewrite get_delete_other.
Qed.

Lemma delete_then_get_witness :
  ∃ σ',
    mxmlElementDeleteAttr (Addr 1) (Some "b") abc_element = Some (tt, σ') ∧
    attr_get σ' (Addr 1) (Some "b") = Some None ∧
    attr_get σ' (Addr 1) (Some "c") = Some (Some "3").
Proof.
  destruct (delete_then_get abc_element (Addr 1)
              [("a", Some "1"); ("b", Some "2"); ("c", Some "3")] "b")
    as (σ' & Hrun & Hb & Hother).
  - vm_compute. reflexivity.
  - vm_compute. reflexivity.
  - apply (bool_decide_eq_true_1 (NoDup ["a"; "b"; "c"])).
    vm_compute. reflexivity.
  - exists σ'. split_and!; [done|done|].
    rewrite (Hother "c") by discriminate. vm_compute. reflexivity.
Defined.

Lemma entry_op_length {va_list} (vformat : string → va_list → string)
    (op : attr_op va_list) l :
  (length (entry_op vformat op l) ≤ S (length l))%nat.
Proof.
  assert (∀ name v, length (set_entry name v l) ≤ S (length l))%nat as Hset.
  { intros name v. unfold set_entry. destruct (index_of name l).
    - rewrite length_insert. lia.
    - rewrite length_app. simpl. lia. }
  destruct op as [[name|] value|[name|] [format|] ap|[name|]]; simpl;
    try done; try lia.
  unfold delete_entry. destruct (index_of name l) as [k|] eqn:Hi; [|lia].
  rewrite length_delete; [lia|]. apply lookup_lt_is_Some_2.
  by apply index_of_lt in Hi.
Qed.

(** One call under a plan that grants everything. *)
Lemma run_op_granted {va_list} (vformat : string → va_list → string)
    σ node n e cl op :
  elem_at σ node n e → attr_store σ e cl → num_attrs e < INT_MAX →
  granted σ = true →
  ∃ σ' n' e' cl',
    run_op vformat node op σ = Some (tt, σ') ∧
    elem_at σ' node n' e' ∧ attr_store σ' e' cl' ∧ granted σ' = true ∧
    abs σ' cl' = entry_op vformat op (abs σ cl) ∧ sink σ' = sink σ.
Proof.
  intros H Hs Hmax Hg.
  assert (Hskip : ∀ m : M unit, m σ = Some (tt, σ) →
            ∃ σ' n' e' cl', m σ = Some (tt, σ') ∧
              elem_at σ' node n' e' ∧ attr_store σ' e' cl' ∧
              granted σ' = true ∧ abs σ' cl' = abs σ cl ∧ sink σ' = sink σ).
  { intros m Hm. by exists σ, n, e, cl. }
  unfold granted in Hg. destruct (all_true_uncons _ Hg) as [Hg1 Hgt].
  fold (grant1 σ) in Hg1.
  destruct op as [[name|] value|[name|] [format|] ap|[name|]]; simpl.
  - destruct (SetAttr_spec σ node n e cl name value H Hs Hmax)
      as (σ' & e' & cl' & Hrun & H' & _ & _ & Hs' & Hpost).
    rewrite Hg1 in Hpost.
    assert (match value with Some v => Some v | None => None end = value)
      as Hval by (by destruct value).
    rewrite Hval in Hpost.
    destruct (set_post_granted _ _ _ _ _ _ _ _ _ Hpost) as (Habs & Hg' & HK).
    { by destruct value. }
    by eexists σ', _, e', cl'.
  - apply Hskip. by destruct (null_name_skips σ node n e value H).
  - destruct (SetAttrf_spec vformat σ node n e cl name format ap H Hs Hmax)
      as (σ' & e' & cl' & Hrun & H' & _ & _ & Hs' & Hpost).
    rewrite Hg1 in Hpost.
    destruct (set_post_granted _ _ _ _ _ _ _ _ _ Hpost Hgt)
      as (Habs & Hg' & HK).
    by eexists σ', _, e', cl'.
  - apply Hskip. unfold mxmlElementSetAttrf. by enter H.
  - apply Hskip. unfold mxmlElementSetAttrf. by enter H.
  - apply Hskip. unfold mxmlElementSetAttrf. by enter H.
  - destruct (delete_spec σ node n e cl name H Hs)
      as (σ' & e' & cl' & Hrun & H' & _ & _ & _ & Hs' & HP & HK & Habs & _).
    eexists σ', _, e', cl'. split_and!; try done.
    unfold granted. by rewrite HP.
  - apply Hskip. unfold mxmlElementDeleteAttr. by enter H.
Qed.

Lemma run_ops_granted {va_list} (vformat : string → va_list → string)
    node ops :
  ∀ σ n e cl,
    elem_at σ node n e → attr_store σ e cl →
    Z.of_nat (length cl + length ops) ≤ INT_MAX → granted σ = true →
    ∃ σ' n' e' cl',
      run_ops vformat node ops σ = Some (tt, σ') ∧
      elem_at σ' node n' e' ∧ attr_store σ' e' cl' ∧
      abs σ' cl' = foldl (λ l op, entry_op vformat op l) (abs σ cl) ops ∧
      sink σ' = sink σ.
Proof.
  induction ops as [|op ops IH]; intros σ n e cl H Hs Hlen Hg.
  - by exists σ, n, e, cl.
  - simpl in Hlen.
    destruct (run_op_granted vformat σ node n e cl op H Hs)
      as (σ1 & n1 & e1 & cl1 & Hrun & H1 & Hs1 & Hg1 & Habs1 & HK1);
      [rewrite (as_count _ _ _ Hs); lia|done|].
    pose proof (entry_op_length vformat op (abs σ cl)) as Hle.
    rewrite <- Habs1 in Hle. unfold abs in Hle. rewrite !length_fmap in Hle.
    destruct (IH σ1 n1 e1 cl1 H1 Hs1)
      as (σ' & n' & e' & cl' & Hrun' & H' & Hs' & Habs' & HK'); [lia|done|].
    exists σ', n', e', cl'. split_and!; try done.
    + simpl. by rewrite (bind_eq _ _ _ _ _ Hrun).
    + simpl. by rewrite <- Habs1.
    + by rewrite HK'.
Qed.

(** X11.  While the allocator grants every request, the store behaves as
    a sequence of name/value pairs: after any sequence of calls of the
    three mutators the getters show the sequence obtained by applying, call
    by call, replace-or-append for the setters and remove-first-match for
    the deletion; nothing is reported to the error callback. *)
Theorem mutators_refine_entry_list {va_list : Type}
    (vformat : string → va_list → string)
    (σ : state) (node : ptr) (l : list (string * option string))
    (ops : list (attr_op va_list)) :
  wf_store σ node = true → attributes σ node = Some l →
  Z.of_nat (length l + length ops) ≤ INT_MAX → granted σ = true →
  ∃ σ',
    run_ops vformat node ops σ = Some (tt, σ') ∧
    wf_store σ' node = true ∧
    attributes σ' node
      = Some (foldl (λ l op, entry_op vformat op l) l ops) ∧
    sink σ' = sink σ.
Proof.
  intros Hwf Hl Hlen Hg.
  destruct (wf_store_view σ node Hwf) as (n & e & cl & H & Hs & Hl' & _).
  rewrite Hl in Hl'. injection Hl' as ->.
  destruct (run_ops_granted vformat node ops σ n e cl H Hs)
    as (σ' & n' & e' & cl' & Hrun & H' & Hs' & Habs & HK); [|done|].
  { unfold abs in Hlen. by rewrite length_fmap in Hlen. }
  exists σ'. split_and!; try done.
  - by apply (wf_store_complete _ _ _ _ _ H' Hs').
  - by rewrite (attributes_spec _ _ _ _ _ H' Hs'), Habs.
Qed.

Lemma mutators_refine_entry_list_witness :
  ∃ σ',
    run_ops (λ f (_ : unit), f) (Addr 1)
      [SetAttr (Some "d") (Some "4"); DeleteAttr (Some "a");
       SetAttrf (Some "b") (Some "two") tt; SetAttr None (Some "x")]
      abc_element = Some (tt, σ') ∧
    attributes σ' (Addr 1)
      = Some [("b", Some "two"); ("c", Some "3"); ("d", Some "4")].
Proof.
  destruct (mutators_refine_entry_list (λ f (_ : unit), f) abc_element
              (Addr 1) [("a", Some "1"); ("b", Some "2"); ("c", Some "3")]
              [SetAttr (Some "d") (Some "4"); DeleteAttr (Some "a");
               SetAttrf (Some "b") (Some "two") tt; SetAttr None (Some "x")])
    as (σ' & Hrun & _ & Hl & _).
  - vm_compute. reflexivity.
  - vm_compute. reflexivity.
  - vm_compute. discriminate.
  - vm_compute. reflexivity.
  - exists σ'. split; [done|]. rewrite Hl. vm_compute. reflexivity.
Defined.

(** ** The attribute functions and the node accessors *)

Lemma load_outline σ σ' q :
  outline <$> load_node σ' q = outline <$> load_node σ q →
  (load_node σ q = None ∧ load_node σ' q = None) ∨
  ∃ n n', load_node σ q = Some n ∧ load_node σ' q = Some n' ∧
          outline n' = outline n.
Proof.
  destruct (load_node σ q) as [n|], (load_node σ' q) as [n'|]; simpl;
    try done.
  - intros [= Hn]. right. by exists n, n'.
  - intros _. by left.
Qed.

Ltac outline_cases Hn n n' :=
  let v := fresh "v" in
  let v' := fresh "v" in
  destruct n as [v ? ? ? ? ? ?]; destruct n' as [v' ? ? ? ? ? ?];
  destruct v as [[? ? ?]| | | | |]; destruct v' as [[? ? ?]| | | | |];
  unfold outline in Hn; simpl in Hn; try discriminate Hn;
  injection Hn as Hn; intros; subst.

(** A getter of [mxml-get.c] reads no more than the outline of the node
    and of its first child. *)
Ltac getter_frame Hq p :=
  let a := fresh "a" in
  let n := fresh "n" in
  let n' := fresh "n" in
  let c := fresh "c" in
  let c' := fresh "c" in
  let E := fresh "E" in
  let E' := fresh "E" in
  let Hn := fresh "Hn" in
  let F := fresh "F" in
  let F' := fresh "F" in
  let Hc := fresh "Hc" in
  destruct p as [|a]; [done|];
  destruct (load_outline _ _ (Addr a) (Hq (Addr a)))
    as [[E E']|(n & n' & E & E' & Hn)];
  simpl; simpl in E, E'; rewrite E, E'; [done|];
  outline_cases Hn n n'; simpl; try done;
  match goal with
  | |- context [nonnull ?ch] =>
      destruct ch as [|?]; [done|]; simpl;
      match goal with
      | |- context [nodes _ !! ?b] =>
          destruct (load_outline _ _ (Addr b) (Hq (Addr b)))
            as [[F F']|(c & c' & F & F' & Hc)];
          simpl in F, F'; rewrite F, F'; [done|];
          outline_cases Hc c c'; simpl; done
      end
  end.

Lemma getters_outline σ σ' :
  (∀ q, outline <$> load_node σ' q = outline <$> load_node σ q) →
  ∀ p w,
    Get.mxmlGetType σ' p = Get.mxmlGetType σ p ∧
    Get.mxmlGetElement σ' p = Get.mxmlGetElement σ p ∧
    Get.mxmlGetCDATA σ' p = Get.mxmlGetCDATA σ p ∧
    Get.mxmlGetInteger σ' p = Get.mxmlGetInteger σ p ∧
    Get.mxmlGetOpaque σ' p = Get.mxmlGetOpaque σ p ∧
    Get.mxmlGetCustom σ' p = Get.mxmlGetCustom σ p ∧
    Get.mxmlGetText σ' p w = Get.mxmlGetText σ p w ∧
    Get.mxmlGetFirstChild σ' p = Get.mxmlGetFirstChild σ p ∧
    Get.mxmlGetLastChild σ' p = Get.mxmlGetLastChild σ p ∧
    Get.mxmlGetParent σ' p = Get.mxmlGetParent σ p ∧
    Get.mxmlGetNextSibling σ' p = Get.mxmlGetNextSibling σ p ∧
    Get.mxmlGetPrevSibling σ' p = Get.mxmlGetPrevSibling σ p ∧
    Get.mxmlGetUserData σ' p = Get.mxmlGetUserData σ p.
Proof.
  intros Hq p w. split_and!.
  - unfold Get.mxmlGetType. getter_frame Hq p.
  - unfold Get.mxmlGetElement. getter_frame Hq p.
  - unfold Get.mxmlGetCDATA. getter_frame Hq p.
  - unfold Get.mxmlGetInteger. getter_frame Hq p.
  - unfold Get.mxmlGetOpaque. getter_frame Hq p.
  - unfold Get.mxmlGetCustom. getter_frame Hq p.
  - unfold Get.mxmlGetText. getter_frame Hq p.
  - unfold Get.mxmlGetFirstChild. getter_frame Hq p.
  - unfold Get.mxmlGetLastChild. getter_frame Hq p.
  - unfold Get.mxmlGetParent. getter_frame Hq p.
  - unfold Get.mxmlGetNextSibling. getter_frame Hq p.
  - unfold Get.mxmlGetPrevSibling. getter_frame Hq p.
  - unfold Get.mxmlGetUserData. getter_frame Hq p.
Qed.

Lemma outline_frame σ σ' node n e e' :
  elem_at σ node n e → elem_at σ' node (with_value (V_element e') n) e' →
  elem_name e' = elem_name e →
  (∀ b, Addr b ≠ node → nodes σ' !! b = nodes σ !! b) →
  ∀ q, outline <$> load_node σ' q = outline <$> load_node σ q.
Proof.
  intros [Hn Hv] [Hn' _] Hnm Hfr [|b]; [done|].
  destruct (decide (Addr b = node)) as [<-|Hne].
  - rewrite Hn', Hn. simpl. f_equal. unfold outline. simpl.
    rewrite Hv, Hnm. by destruct n.
  - simpl. by rewrite Hfr.
Qed.

Lemma run_op_outline {va_list} (vformat : string → va_list → string)
    σ node n e cl op :
  elem_at σ node n e → attr_store σ e cl → num_attrs e < INT_MAX →
  ∃ σ', run_op vformat node op σ = Some (tt, σ') ∧
        ∀ q, outline <$> load_node σ' q = outline <$> load_node σ q.
Proof.
  intros H Hs Hmax.
  assert (Hskip : ∀ m : M unit, m σ = Some (tt, σ) →
            ∃ σ', m σ = Some (tt, σ') ∧
              ∀ q, outline <$> load_node σ' q = outline <$> load_node σ q).
  { intros m Hm. by exists σ. }
  destruct op as [[name|] value|[name|] [format|] ap|[name|]]; simpl.
  - destruct (SetAttr_spec σ node n e cl name value H Hs Hmax)
      as (σ' & e' & cl' & Hrun & H' & Hnm & Hfr & _).
    exists σ'. split; [done|]. by apply (outline_frame σ σ' node n e e').
  - apply Hskip. by destruct (null_name_skips σ node n e value H).
  - destruct (SetAttrf_spec vformat σ node n e cl name format ap H Hs Hmax)
      as (σ' & e' & cl' & Hrun & H' & Hnm & Hfr & _).
    exists σ'. split; [done|]. by apply (outline_frame σ σ' node n e e').
  - apply Hskip. unfold mxmlElementSetAttrf. by enter H.
  - apply Hskip. unfold mxmlElementSetAttrf. by enter H.
  - apply Hskip. unfold mxmlElementSetAttrf. by enter H.
  - destruct (delete_spec σ node n e cl name H Hs)
      as (σ' & e' & cl' & Hrun & H' & Hnm & _ & Hfr & _).
    exists σ'. split; [done|]. by apply (outline_frame σ σ' node n e e').
  - apply Hskip. unfold mxmlElementDeleteAttr. by enter H.
Qed.

(** X12.  The attribute mutators are invisible to the node accessors: a
    call of [mxmlElementSetAttr], [mxmlElementSetAttrf] or
    [mxmlElementDeleteAttr] on an element, whatever the allocator answers,
    changes the answer of none of the thirteen getters of [mxml-get.c], on
    that element or on any other node. *)
Theorem mutators_invisible_to_getters {va_list : Type}
    (vformat : string → va_list → string)
    (σ : state) (node : ptr) (op : attr_op va_list) (c : Z) :
  wf_store σ node = true → attr_count σ node = Some c → c < INT_MAX →
  ∃ σ',
    run_op vformat node op σ = Some (tt, σ') ∧
    ∀ p w,
      Get.mxmlGetType σ' p = Get.mxmlGetType σ p ∧
      Get.mxmlGetElement σ' p = Get.mxmlGetElement σ p ∧
      Get.mxmlGetCDATA σ' p = Get.mxmlGetCDATA σ p ∧
      Get.mxmlGetInteger σ' p = Get.mxmlGetInteger σ p ∧
      Get.mxmlGetOpaque σ' p = Get.mxmlGetOpaque σ p ∧
      Get.mxmlGetCustom σ' p = Get.mxmlGetCustom σ p ∧
      Get.mxmlGetText σ' p w = Get.mxmlGetText σ p w ∧
      Get.mxmlGetFirstChild σ' p = Get.mxmlGetFirstChild σ p ∧
      Get.mxmlGetLastChild σ' p = Get.mxmlGetLastChild σ p ∧
      Get.mxmlGetParent σ' p = Get.mxmlGetParent σ p ∧
      Get.mxmlGetNextSibling σ' p = Get.mxmlGetNextSibling σ p ∧
      Get.mxmlGetPrevSibling σ' p = Get.mxmlGetPrevSibling σ p ∧
      Get.mxmlGetUserData σ' p = Get.mxmlGetUserData σ p.
Proof.
  intros Hwf Hc Hlt.
  destruct (wf_store_view σ node Hwf) as (n & e & cl & H & Hs & _ & Hc' & _).
  rewrite Hc in Hc'. injection Hc' as ->.
  destruct (run_op_outline vformat σ node n e cl op H Hs Hlt)
    as (σ' & Hrun & Hq).
  exists σ'. split; [done|]. by apply getters_outline.
Qed.

Lemma mutators_invisible_to_getters_witness :
  ∃ σ',
    run_op (λ f (_ : unit), f) (Addr 1) (SetAttr (Some "k") (Some "v"))
           nested_tree = Some (tt, σ') ∧
    Get.mxmlGetFirstChild σ' (Addr 1) = Some (Addr 2) ∧
    Get.mxmlGetElement σ' (Addr 1) = Some (Some "a") ∧
    Get.mxmlGetInteger σ' (Addr 2) = Some 42.
Proof.
  destruct (mutators_invisible_to_getters (λ f (_ : unit), f) nested_tree
              (Addr 1) (SetAttr (Some "k") (Some "v")) 0)
    as (σ' & Hrun & Hget).
  - vm_compute. reflexivity.
  - vm_compute. reflexivity.
  - reflexivity.
  - exists σ'. split; [done|].
    destruct (Hget (Addr 1) None) as (_ & -> & _ & _ & _ & _ & _ & -> & _).
    destruct (Hget (Addr 2) None) as (_ & _ & _ & -> & _).
    vm_compute. by split_and!.
Defined.

(** X13.  When the allocator refuses the formatted value,
    [mxmlElementSetAttrf] reports ["Unable to allocate memory for attribute
    '<name>' in element <element>!"] to the error sink and leaves the store
    as it is, also for a name the element already has: the attribute keeps
    its old value, where [mxmlElementSetAttr] would have stored null. *)
Theorem refused_format_keeps_store {va_list : Type}
    (vformat : string → va_list → string)
    (σ : state) (node : ptr) (name ename format : string) (ap : va_list) :
  wf_store σ node = true →
  Get.mxmlGetElement σ node = Some (Some ename) →
  grant1 σ = false →
  ∃ σ',
    mxmlElementSetAttrf vformat node (Some name) (Some format) ap σ
      = Some (tt, σ') ∧
    same_store σ σ' node ∧
    sink σ' = sink σ ++
      ["Unable to allocate memory for attribute '" +:+ name +:+
       "' in element " +:+ ename +:+ "!"] ∧
    plan σ' = tail (plan σ).
Proof.
  intros Hwf Hname Hg.
  destruct (wf_store_view σ node Hwf) as (n & e & cl & H & Hs & _).
  assert (ename = elem_name e) as ->.
  { unfold Get.mxmlGetElement in Hname.
    rewrite (elem_at_nonnull _ _ _ _ H) in Hname. simpl in Hname.
    destruct H as [Hld Hv]. rewrite Hld in Hname. simpl in Hname.
    unfold type, value_element in Hname. rewrite Hv in Hname. simpl in Hname.
    congruence. }
  unfold mxmlElementSetAttrf, _mxml_vstrdupf. enter H.
  destruct (strdup_spec (vformat format ap) σ)
    as (p & σ0 & Hd & HN & HA & HK & HP & Hno & _).
  rewrite (bind_eq _ _ _ _ _ Hd).
  destruct (Hno Hg) as (-> & HS). simpl.
  assert (H0 : elem_at σ0 node n e).
  { destruct H as [Hn Hv]. split; [|done]. destruct node; [done|].
    simpl in *. by rewrite HN. }
  rewrite (bind_eq _ _ _ _ _ (elem_at_load _ _ _ _ H0)).
  unfold mxml_error. eexists. split; [done|]. simpl.
  split_and!; [|by rewrite HK|done].
  apply (same_store_intro σ _ node n e n e cl H Hs); simpl.
  - destruct H0 as [Hn Hv]. split; [|done]. by destruct node.
  - apply (attr_store_frame σ); [done| |]; simpl; intros; congruence.
  - apply abs_frame. simpl. intros. by rewrite HS.
  - done.
Qed.

Lemma refused_format_keeps_store_witness :
  ∃ σ',
    mxmlElementSetAttrf (λ f (_ : unit), f) (Addr 1) (Some "b") (Some "two")
        tt (State (nodes abc_element) (strs abc_element) (arrs abc_element)
                  (used abc_element) [false] [])
      = Some (tt, σ') ∧
    attr_get σ' (Addr 1) (Some "b") = Some (Some "2") ∧
    sink σ' = ["Unable to allocate memory for attribute 'b' in element e!"].
Proof.
  destruct (refused_format_keeps_store (λ f (_ : unit), f)
              (State (nodes abc_element) (strs abc_element)
                     (arrs abc_element) (used abc_element) [false] [])
              (Addr 1) "b" "e" "two" tt)
    as (σ' & Hrun & (_ & _ & _ & _ & Hget & _) & HK & _).
  - vm_compute. reflexivity.
  - vm_compute. reflexivity.
  - reflexivity.
  - exists σ'. split_and!; [done| |done].
    rewrite Hget. vm_compute. reflexivity.
Defined.

(** X14.  At most one of the four scalar getters answers with something
    other than its sentinel: a node whose [mxmlGetInteger] is not 0 has a
    null [mxmlGetOpaque], [mxmlGetCustom] and [mxmlGetText], and likewise
    for the other three. *)
Theorem scalar_getters_exclusive (σ : state) (node : ptr) (w : option Z) :
  links_ok σ node = true →
  ∃ i o c t w',
    Get.mxmlGetInteger σ node = Some i ∧
    Get.mxmlGetOpaque σ node = Some o ∧
    Get.mxmlGetCustom σ node = Some c ∧
    Get.mxmlGetText σ node w = Some (t, w') ∧
    (i ≠ 0 → o = None ∧ c = NULL ∧ t = None) ∧
    (o ≠ None → i = 0 ∧ c = NULL ∧ t = None) ∧
    (c ≠ NULL → i = 0 ∧ o = None ∧ t = None) ∧
    (t ≠ None → i = 0 ∧ o = None ∧ c = NULL).
Proof.
  intros Hl. unfold links_ok in Hl.
  unfold Get.mxmlGetInteger, Get.mxmlGetOpaque, Get.mxmlGetCustom,
    Get.mxmlGetText.
  destruct node as [|a]; [by eexists _, _, _, _, _; split_and!|].
  simpl nonnull. simpl negb.
  destruct (load_node σ (Addr a)) as [n|] eqn:Hn; [|done].
  unfold type, value_integer, value_opaque, value_custom, value_text.
  destruct n as [v nx pv pa ch lc ud]. simpl in *.
  destruct ch as [|b]; simpl.
  - destruct v; simpl; eexists _, _, _, _, _; split_and!; done.
  - apply bool_decide_eq_true in Hl as [c Hc]. simpl in Hc. rewrite Hc.
    destruct c as [vc ? ? ? ? ? ?]. simpl.
    destruct v, vc; simpl; eexists _, _, _, _, _; split_and!; done.
Qed.

Lemma scalar_getters_exclusive_witness :
  ∃ i o c t w',
    Get.mxmlGetInteger nested_tree (Addr 2) = Some i ∧
    Get.mxmlGetOpaque nested_tree (Addr 2) = Some o ∧
    Get.mxmlGetCustom nested_tree (Addr 2) = Some c ∧
    Get.mxmlGetText nested_tree (Addr 2) None = Some (t, w') ∧
    i = 42 ∧ o = None ∧ c = NULL ∧ t = None.
Proof.
  destruct (scalar_getters_exclusive nested_tree (Addr 2) None)
    as (i & o & c & t & w' & Hi & Ho & Hc & Ht & Hex & _).
  - vm_compute. reflexivity.
  - assert (i = 42) as Hi42.
    { vm_compute in Hi. by injection Hi as <-. }
    destruct Hex as (-> & -> & ->); [by rewrite Hi42|].
    by exists i, None, NULL, None, w'.
Defined.

(** ** The array of a store that is still empty *)

Lemma malloc_attrs_spec k σ :
  grant1 σ = true →
  ∃ a1 σ1,
    malloc_attrs k σ = Some (Addr a1, σ1) ∧
    arrs σ !! a1 = None ∧ arrs σ1 = <[a1:=replicate k uninit]> (arrs σ) ∧
    nodes σ1 = nodes σ ∧ strs σ1 = strs σ ∧ sink σ1 = sink σ ∧
    plan σ1 = tail (plan σ).
Proof.
  intros Hg. unfold malloc_attrs.
  rewrite (bind_eq _ _ _ _ _ (alloc_request_spec σ)), Hg.
  eexists _, _. split; [done|]. simpl. split_and!; try done.
  apply (fresh_addr_spec (State _ _ _ _ _ _)).
Qed.

(** [mxml_set_attr] on an element without attributes, the array being
    granted: the array is a new block, no block is released, and the
    element refers to the new block whether or not the name could be
    copied. *)
Lemma set_attr_first σ node n e name value :
  elem_at σ node n e → num_attrs e = 0 → grant1 σ = true →
  ∃ σ' a1 e',
    mxml_set_attr node name value σ
      = Some (if grant2 σ then 0 else -1, σ') ∧
    arrs σ !! a1 = None ∧ is_Some (arrs σ' !! a1) ∧
    (∀ a, a ≠ a1 → arrs σ' !! a = arrs σ !! a) ∧
    elem_at σ' node (with_value (V_element e') n) e' ∧
    attrs e' = Addr a1 ∧
    num_attrs e' = (if grant2 σ then 1 else 0) ∧
    plan σ' = drop 2 (plan σ) ∧
    (grant2 σ = false → strs σ' = strs σ) ∧
    (∀ a, is_Some (strs σ !! a) → is_Some (strs σ' !! a)).
Proof.
  intros H Hz Hg1. unfold mxml_set_attr.
  rewrite (bind_eq _ _ _ _ _ (elem_at_load _ _ _ _ H)).
  rewrite Hz. simpl. unfold bind at 1, ret.
  destruct (malloc_attrs_spec 1 σ Hg1)
    as (a1 & σ1 & Hm & Hfresh & HA1 & HN1 & HS1 & HK1 & HP1).
  rewrite (bind_eq _ _ _ _ _ Hm). simpl.
  assert (H1 : elem_at σ1 node n e).
  { destruct H as [Hn Hv']. split; [|done]. destruct node; [done|].
    simpl in *. by rewrite HN1. }
  destruct (store_element_spec σ1 node n e (set_attrs (Addr a1)) H1)
    as (b & -> & Hst).
  rewrite (bind_eq _ _ _ _ _ Hst). clear Hst.
  set (e1 := set_attrs (Addr a1) e).
  set (σ2 := State _ _ _ _ _ _).
  destruct (strdup_spec name σ2)
    as (copy & σ3 & Hdup & HN3 & HA3 & HK3 & HP3 & Hdno & Hdyes).
  rewrite (bind_eq _ _ _ _ _ Hdup).
  assert (Hg2 : grant1 σ2 = grant2 σ).
  { unfold grant1, grant2. subst σ2. simpl. by rewrite HP1. }
  rewrite Hg2 in Hdno, Hdyes.
  assert (HA3' : arrs σ3 !! a1 = Some [uninit]).
  { rewrite HA3. subst σ2. simpl. by rewrite HA1, lookup_insert_eq. }
  rewrite (bind_eq _ _ _ _ _
             (store_attr_spec σ3 a1 [uninit] 0 uninit _ HA3' eq_refl)).
  destruct (grant2 σ) eqn:Hgr2; simpl.
  - destruct (Hdyes eq_refl) as (an & -> & Han & HS3). simpl.
    unfold bind at 1. unfold store_attr at 1. simpl.
    rewrite lookup_insert_eq. simpl.
    unfold int_add.
    rewrite bool_decide_eq_true_2 by (unfold INT_MAX; lia).
    unfold bind at 1, ret.
    unfold bind at 1, store_element. simpl.
    rewrite HN3. subst σ2. simpl. rewrite lookup_insert_eq. simpl.
    eexists _, a1, (set_num_attrs 1 e1). split; [done|]. simpl.
    split_and!; try done.
    + rewrite lookup_insert_eq. eauto.
    + intros a Ha. rewrite !lookup_insert_ne by done.
      rewrite HA3. simpl. rewrite HA1. by rewrite lookup_insert_ne.
    + split; [|done]. simpl. rewrite lookup_insert_eq. by destruct n.
    + rewrite HP3. simpl. by rewrite HP1, tail_tail.
    + intros a Ha. rewrite HS3. simpl. rewrite HS1.
      destruct (decide (a = an)) as [->|Hne].
      * rewrite lookup_insert_eq. eauto.
      * by rewrite lookup_insert_ne.
  - destruct (Hdno eq_refl) as [-> HS3]. simpl.
    unfold bind, mxml_error, ret.
    eexists _, a1, e1. split; [done|]. simpl.
    split_and!; try done.
    + rewrite lookup_insert_eq. eauto.
    + intros a Ha. rewrite lookup_insert_ne by done.
      rewrite HA3. subst σ2. simpl. rewrite HA1. by rewrite lookup_insert_ne.
    + split; [|done]. simpl. rewrite HN3. subst σ2. simpl.
      by rewrite lookup_insert_eq.
    + rewrite HP3. subst σ2. simpl. by rewrite HP1, tail_tail.
    + intros _. rewrite HS3. subst σ2. simpl. by rewrite HS1.
    + intros a Ha. rewrite HS3. subst σ2. simpl. by rewrite HS1.
Qed.

(** [mxmlElementSetAttr] on an element without attributes, the array
    being granted. *)
Lemma SetAttr_first σ node n e name value :
  elem_at σ node n e → num_attrs e = 0 →
  hd true (match value with Some _ => tail (plan σ) | None => plan σ end)
    = true →
  ∃ σ' a1 e',
    mxmlElementSetAttr node (Some name) value σ = Some (tt, σ') ∧
    arrs σ !! a1 = None ∧ is_Some (arrs σ' !! a1) ∧
    (∀ a, a ≠ a1 → arrs σ' !! a = arrs σ !! a) ∧
    elem_at σ' node (with_value (V_element e') n) e' ∧
    attrs e' = Addr a1 ∧
    num_attrs e'
      = (if hd true (tail (match value with
                           | Some _ => tail (plan σ)
                           | None => plan σ
                           end)) then 1 else 0) ∧
    plan σ' = drop 2 (match value with
                      | Some _ => tail (plan σ)
                      | None => plan σ
                      end).
Proof.
  intros H Hz Hg. unfold mxmlElementSetAttr. enter H.
  assert (∃ p σ0,
    match value with Some v => strdup v | None => ret NULL end σ
      = Some (p, σ0) ∧
    nodes σ0 = nodes σ ∧ arrs σ0 = arrs σ ∧
    plan σ0 = match value with Some _ => tail (plan σ) | None => plan σ end ∧
    (∀ av, p = Addr av → is_Some (strs σ0 !! av)))
    as (p & σ0 & Hdup & HN0 & HA0 & HP0 & Hlive).
  { destruct value as [v|].
    - destruct (strdup_spec v σ)
        as (p & σ0 & Hd & HN & HA & HK & HP & Hno & Hyes).
      exists p, σ0. split_and!; try done. intros av ->.
      destruct (grant1 σ).
      + destruct (Hyes eq_refl) as (a & [= <-] & _ & ->).
        rewrite lookup_insert_eq. eauto.
      + by destruct (Hno eq_refl) as [? _].
    - exists NULL, σ. by split_and!. }
  rewrite (bind_eq _ _ _ _ _ Hdup). rewrite <- HP0 in *. clear HP0.
  assert (H0 : elem_at σ0 node n e).
  { destruct H as [Hn Hv]. split; [|done]. destruct node; [done|].
    simpl in *. by rewrite HN0. }
  destruct (set_attr_first σ0 node n e name p H0 Hz Hg)
    as (σ' & a1 & e' & Hrun & Hfresh & Hnew & Hold & H' & Ha & Hc & HP & _
        & Hkeep).
  rewrite (bind_eq _ _ _ _ _ Hrun). fold (grant2 σ0).
  rewrite HA0 in Hfresh.
  assert (Hold' : ∀ a, a ≠ a1 → arrs σ' !! a = arrs σ !! a).
  { intros a Hne. rewrite <- HA0. by apply Hold. }
  destruct (grant2 σ0); simpl.
  - exists σ', a1, e'. by split_and!.
  - destruct p as [|av]; simpl.
    + exists σ', a1, e'. by split_and!.
    + destruct (Hkeep av (Hlive av eq_refl)) as [s Hs]. rewrite Hs.
      eexists _, a1, e'. split; [done|]. simpl. by split_and!.
Qed.

(** X15.  An array that was allocated for the first attribute of an
    element is lost when the copy of the name is refused: the failed
    [mxmlElementSetAttr] leaves the new array attached to the element with
    a count of 0, and the next call that adds an attribute allocates
    another array instead of using it; the first array stays allocated and
    the element no longer refers to it. *)
Theorem refused_name_leaks_array
    (σ : state) (node : ptr) (name name2 : string)
    (value value2 : option string) :
  wf_store σ node = true → attr_count σ node = Some 0 →
  match value with Some _ => tail (plan σ) | None => plan σ end
    = [true; false] →
  ∃ σ1 σ2 a0 e1 e2,
    mxmlElementSetAttr node (Some name) value σ = Some (tt, σ1) ∧
    load_element node σ1 = Some (e1, σ1) ∧
    num_attrs e1 = 0 ∧ attrs e1 = Addr a0 ∧
    arrs σ !! a0 = None ∧ is_Some (arrs σ1 !! a0) ∧
    mxmlElementSetAttr node (Some name2) value2 σ1 = Some (tt, σ2) ∧
    load_element node σ2 = Some (e2, σ2) ∧
    num_attrs e2 = 1 ∧ attrs e2 ≠ Addr a0 ∧ is_Some (arrs σ2 !! a0).
Proof.
  intros Hwf Hc Hplan.
  destruct (wf_store_view σ node Hwf) as (n & e & cl & H & _ & _ & Hc' & _).
  rewrite Hc in Hc'. injection Hc' as Hz. symmetry in Hz.
  destruct (SetAttr_first σ node n e name value H Hz)
    as (σ1 & a0 & e1 & Hrun1 & Hfresh & Hnew & _ & H1 & Ha1 & Hc1 & HP1);
    [by rewrite Hplan|].
  rewrite Hplan in Hc1, HP1. simpl in Hc1, HP1.
  destruct (SetAttr_first σ1 node _ e1 name2 value2 H1 Hc1)
    as (σ2 & a1 & e2 & Hrun2 & Hfresh2 & _ & Hold & H2 & Ha2 & Hc2 & _);
    [rewrite HP1; by destruct value2|].
  rewrite HP1 in Hc2.
  exists σ1, σ2, a0, e1, e2. split_and!; try done.
  - by apply (elem_at_load _ _ _ _ H1).
  - by apply (elem_at_load _ _ _ _ H2).
  - by destruct value2.
  - rewrite Ha2. intros [= ->]. destruct Hnew as [? Hnew]. congruence.
  - rewrite Hold; [done|]. intros ->. destruct Hnew as [? Hnew]. congruence.
Qed.

Lemma refused_name_leaks_array_witness :
  ∃ σ1 σ2 a0 e2,
    mxmlElementSetAttr (Addr 1) (Some "a") (Some "1") name_refused
      = Some (tt, σ1) ∧
    mxmlElementSetAttr (Addr 1) (Some "a") (Some "1") σ1 = Some (tt, σ2) ∧
    load_element (Addr 1) σ2 = Some (e2, σ2) ∧
    attrs e2 ≠ Addr a0 ∧ arrs name_refused !! a0 = None ∧
    is_Some (arrs σ2 !! a0).
Proof.
  destruct (refused_name_leaks_array name_refused (Addr 1) "a" "a"
              (Some "1") (Some "1"))
    as (σ1 & σ2 & a0 & e1 & e2 & Hrun1 & _ & _ & _ & Hfresh & _ & Hrun2
        & Hld & _ & Hne & Hlive).
  - vm_compute. reflexivity.
  - vm_compute. reflexivity.
  - reflexivity.
  - exists σ1, σ2, a0, e2. split_and!; assumption.
Defined.

(** X16.  [mxmlElementSetAttr] moves no string: whatever the allocator
    answers, and although growing the array may move the array itself,
    every entry that was in the store keeps the pointer to its name, and
    every entry with another name keeps the pointer to its value, as
    [mxmlElementGetAttrByIndex] returns them. *)
Theorem set_keeps_other_pointers
    (σ : state) (node : ptr) (l : list (string * option string))
    (name : string) (value : option string) :
  wf_store σ node = true → attributes σ node = Some l →
  Z.of_nat (length l) < INT_MAX →
  ∃ σ',
    mxmlElementSetAttr node (Some name) value σ = Some (tt, σ') ∧
    ∀ k x out, l !! k = Some x →
      ∃ v v' nm,
        mxmlElementGetAttrByIndex node (Z.of_nat k) out σ
          = Some ((v, nm), σ) ∧
        mxmlElementGetAttrByIndex node (Z.of_nat k) out σ'
          = Some ((v', nm), σ') ∧
        (x.1 ≠ name → v' = v).
Proof.
  intros Hwf Hl Hlen.
  destruct (wf_store_view σ node Hwf) as (n & e & cl & H & Hs & Hl' & _ & Hn).
  rewrite Hl in Hl'. injection Hl' as ->.
  assert (num_attrs e < INT_MAX) as Hmax by lia.
  destruct (SetAttr_spec σ node n e cl name value H Hs Hmax)
    as (σ' & e' & cl' & Hrun & H' & _ & _ & Hs' & Hpost).
  exists σ'. split; [done|].
  assert (Hcl : ∀ k c, cl !! k = Some c →
            ∃ c', cl' !! k = Some c' ∧ c'.1 = c.1 ∧
                  (str_of σ c.1 ≠ name → c'.2 = c.2)).
  { unfold set_post in Hpost.
    destruct (index_of name (abs σ cl)) as [k0|] eqn:Hi.
    - destruct Hpost as (_ & _ & _ & _ & c0 & p & Hc0 & ->).
      destruct (index_of_Some _ _ _ Hi) as (v0 & Hk0 & _).
      unfold abs in Hk0. rewrite list_lookup_fmap, Hc0 in Hk0.
      injection Hk0 as Hnm _.
      intros k c Hk. destruct (decide (k = k0)) as [->|Hne].
      + assert (c = c0) as -> by congruence.
        exists (c0.1, p). split_and!; [|done|done].
        rewrite list_lookup_insert_eq; [done|]. by apply lookup_lt_Some in Hk.
      + exists c. by rewrite list_lookup_insert_ne.
    - destruct (SetAttr_buffers σ node n e cl name value H Hs Hmax)
        as (σ2 & e2 & cl2 & Hrun2 & H2 & Hs2 & _ & Hshape).
      rewrite Hrun in Hrun2. injection Hrun2 as <-.
      destruct (elem_at_inj _ _ _ _ _ _ H' H2) as [_ <-].
      assert (cl2 = cl') as ->.
      { pose proof (store_entries_complete _ _ _ Hs').
        pose proof (store_entries_complete _ _ _ Hs2). congruence. }
      intros k c Hk. exists c. split_and!; [|done|done].
      destruct (Hshape Hi) as [->|[c1 ->]]; [done|].
      rewrite lookup_app_l; [done|]. by apply lookup_lt_Some in Hk. }
  intros k x out Hx. unfold abs in Hx. rewrite list_lookup_fmap in Hx.
  destruct (cl !! k) as [c|] eqn:Hc; [|done]. injection Hx as <-.
  destruct (Hcl k c Hc) as (c' & Hc' & Hnm & Hval).
  exists c.2, c'.2, (set_out out (Addr c.1)). split_and!.
  - by apply (by_index_spec _ _ _ _ _ _ _ out H Hs Hc).
  - rewrite <- Hnm. by apply (by_index_spec _ _ _ _ _ _ _ out H' Hs' Hc').
  - done.
Qed.

Lemma set_keeps_other_pointers_witness :
  ∃ σ' v nm,
    mxmlElementSetAttr (Addr 1) (Some "d") (Some "4") abc_element
      = Some (tt, σ') ∧
    mxmlElementGetAttrByIndex (Addr 1) 0 (Some NULL) abc_element
      = Some ((v, nm), abc_element) ∧
    mxmlElementGetAttrByIndex (Addr 1) 0 (Some NULL) σ'
      = Some ((v, nm), σ').
Proof.
  destruct (set_keeps_other_pointers abc_element (Addr 1)
              [("a", Some "1"); ("b", Some "2"); ("c", Some "3")] "d"
              (Some "4"))
    as (σ' & Hrun & Hk).
  - vm_compute. reflexivity.
  - vm_compute. reflexivity.
  - reflexivity.
  - destruct (Hk 0%nat ("a", Some "1") (Some NULL) eq_refl)
      as (v & v' & nm & Hold & Hnew & Hsame).
    rewrite Hsame in Hnew by discriminate.
    exists σ', v, nm. split_and!; assumption.
Defined.

(** X17.  On an element whose first child, as [mxmlGetFirstChild] returns
    it, is not itself an element (or is null), each of the four scalar
    getters gives the same answer for the element as for that child. *)
Theorem scalar_getters_through_first_child
    (σ : state) (node c : ptr) (t : mxml_type_t) (w : option Z) :
  Get.mxmlGetType σ node = Some MXML_ELEMENT →
  Get.mxmlGetFirstChild σ node = Some c →
  Get.mxmlGetType σ c = Some t → t ≠ MXML_ELEMENT →
  Get.mxmlGetInteger σ node = Get.mxmlGetInteger σ c ∧
  Get.mxmlGetOpaque σ node = Get.mxmlGetOpaque σ c ∧
  Get.mxmlGetCustom σ node = Get.mxmlGetCustom σ c ∧
  Get.mxmlGetText σ node w = Get.mxmlGetText σ c w.
Proof.
  unfold Get.mxmlGetType, Get.mxmlGetFirstChild, Get.mxmlGetInteger,
    Get.mxmlGetOpaque, Get.mxmlGetCustom, Get.mxmlGetText.
  destruct node as [|a]; [done|]. simpl.
  destruct (nodes σ !! a) as [n|]; [|done]. simpl.
  destruct n as [v nx pv pa ch lc ud]. unfold type. simpl.
  destruct v; try done. simpl. intros _ [= <-].
  destruct ch as [|b]; [done|]. simpl.
  destruct (nodes σ !! b) as [cn|]; [|done]. simpl.
  destruct cn as [vc ? ? ? ? ? ?]. simpl.
  intros [= <-] Hne. by destruct vc.
Qed.

Lemma scalar_getters_through_first_child_witness :
  Get.mxmlGetInteger nested_tree (Addr 2)
    = Get.mxmlGetInteger nested_tree (Addr 3) ∧
  Get.mxmlGetOpaque nested_tree (Addr 2)
    = Get.mxmlGetOpaque nested_tree (Addr 3) ∧
  Get.mxmlGetCustom nested_tree (Addr 2)
    = Get.mxmlGetCustom nested_tree (Addr 3) ∧
  Get.mxmlGetText nested_tree (Addr 2) (Some 1)
    = Get.mxmlGetText nested_tree (Addr 3) (Some 1).
Proof.
  apply (scalar_getters_through_first_child nested_tree (Addr 2) (Addr 3)
           MXML_INTEGER).
  - vm_compute. reflexivity.
  - vm_compute. reflexivity.
  - vm_compute. reflexivity.
  - discriminate.
Defined.
